(** * Sentence-boundary disagreement datasets: the extraction, alignment,
      chunking, classification and sampling engine

    A shallow embedding of the dataset-building scripts

      - [exploration/golden_dataset/build_boundary_gold_set.py]
      - [exploration/golden_dataset/build_seams_disagreement_set.py]
      - [exploration/golden_dataset/find_seams_differences.py]

    Python values are modelled as follows.  A [str] is a list of characters,
    a character being a code point below 256 (Rocq's [ascii]); [int] is [Z]
    where the scripts do arithmetic on coordinates (so that Python's negative
    indices keep their meaning) and [nat] for counts and loop indices that
    start at zero.  A raised exception is [None] in the [option] monad.  The
    two float comparisons of the scripts ([ratio >= 0.9], [ratio > 0.7]) are
    done on exact rationals: the quotient [2.0 * matches / length] and the
    literal are both correctly rounded doubles, and they compare as the
    rationals do for every combined length below 10^15 characters. *)

From Stdlib Require Import String.
From Stdlib Require Import List ZArith Ascii Bool Arith Lia.
From Stdlib Require Import QArith_base Permutation.
From Equations Require Import Equations.
Import ListNotations.
Close Scope Q_scope.

Set Implicit Arguments.

(** ** Python built-ins used by the scripts *)

Module Py.

Definition str := list ascii.

Definition lit (s : string) : str := list_ascii_of_string s.

Definition len {A : Type} (l : list A) : Z := Z.of_nat (length l).

(** Error monad: [None] is a raised exception. *)
Definition bind {A B : Type} (m : option A) (k : A -> option B) : option B :=
  match m with
  | Some a => k a
  | None => None
  end.

(** A loop whose body may raise. *)
Fixpoint mapM {A B : Type} (f : A -> option B) (l : list A) : option (list B) :=
  match l with
  | [] => Some []
  | x :: l' => bind (f x) (fun y => bind (mapM f l') (fun ys => Some (y :: ys)))
  end.

(** Normalisation of a slice bound against a sequence of length [n]. *)
Definition clamp (n i : Z) : Z :=
  if (i <? 0)%Z then Z.max 0 (i + n) else Z.min i n.

(** [l[i:j]] *)
Definition slice {A : Type} (l : list A) (i j : Z) : list A :=
  let lo := clamp (len l) i in
  let hi := clamp (len l) j in
  firstn (Z.to_nat (hi - lo)) (skipn (Z.to_nat lo) l).

(** [l[i:]] *)
Definition slice_from {A : Type} (l : list A) (i : Z) : list A :=
  skipn (Z.to_nat (clamp (len l) i)) l.

(** [l[:j]] *)
Definition slice_to {A : Type} (l : list A) (j : Z) : list A :=
  firstn (Z.to_nat (clamp (len l) j)) l.

(** [l[i]]; [None] is IndexError. *)
Definition getitem {A : Type} (l : list A) (i : Z) : option A :=
  let k := if (i <? 0)%Z then (i + len l)%Z else i in
  if (k <? 0)%Z then None else nth_error l (Z.to_nat k).

(** [range(lo, hi)] *)
Definition range (lo hi : Z) : list Z :=
  map (fun k => (lo + Z.of_nat k)%Z) (seq 0 (Z.to_nat (hi - lo))).

(** [range(0, stop, step)] on naturals, [step > 0]. *)
Definition range_step (stop step : nat) : list nat :=
  map (fun k => k * step) (seq 0 ((stop + step - 1) / step)).

Definition newline : ascii := "010"%char.
Definition carriage_return : ascii := "013"%char.
Definition space : ascii := " "%char.
Definition dquote : ascii := "034"%char.
Definition squote : ascii := "039"%char.

(** [str.isspace] on one character (code points below 256). *)
Definition isspace (c : ascii) : bool :=
  let n := nat_of_ascii c in
  ((9 <=? n) && (n <=? 13)) || ((28 <=? n) && (n <=? 32))
  || (n =? 133) || (n =? 160).

(** [str.lower] on one character (code points below 256). *)
Definition lower_char (c : ascii) : ascii :=
  let n := nat_of_ascii c in
  if ((65 <=? n) && (n <=? 90))
     || ((192 <=? n) && (n <=? 222) && negb (n =? 215))
  then ascii_of_nat (n + 32) else c.

Definition lower (s : str) : str := map lower_char s.

Fixpoint dropwhile {A : Type} (p : A -> bool) (l : list A) : list A :=
  match l with
  | [] => []
  | x :: l' => if p x then dropwhile p l' else l
  end.

Definition lstrip_by (p : ascii -> bool) (s : str) : str := dropwhile p s.
Definition rstrip_by (p : ascii -> bool) (s : str) : str :=
  rev (dropwhile p (rev s)).

(** [s.strip()] *)
Definition strip (s : str) : str := rstrip_by isspace (lstrip_by isspace s).

(** [s.rstrip('\n\r')] *)
Definition is_nl_cr (c : ascii) : bool :=
  Ascii.eqb c newline || Ascii.eqb c carriage_return.
Definition rstrip_nl (s : str) : str := rstrip_by is_nl_cr s.

(** [s.split()]: maximal runs of non-space characters. *)
Fixpoint split_ws (s : str) : list str :=
  match s with
  | [] => []
  | c :: s' =>
      if isspace c then split_ws s'
      else match s' with
           | [] => [[c]]
           | c' :: _ =>
               if isspace c' then [c] :: split_ws s'
               else match split_ws s' with
                    | [] => [[c]]
                    | w :: ws => (c :: w) :: ws
                    end
           end
  end.

(** [s.split(sep)] for a one-character separator. *)
Fixpoint split_on (sep : ascii) (s : str) : list str :=
  match s with
  | [] => [[]]
  | c :: s' =>
      if Ascii.eqb c sep then [] :: split_on sep s'
      else match split_on sep s' with
           | [] => [[c]]
           | w :: ws => (c :: w) :: ws
           end
  end.

(** [sep.join(parts)] *)
Fixpoint join (sep : str) (parts : list str) : str :=
  match parts with
  | [] => []
  | [x] => x
  | x :: rest => x ++ sep ++ join sep rest
  end.

Definition str_eqb (a b : str) : bool :=
  if list_eq_dec ascii_dec a b then true else false.

(** [[sent.strip() for sent in sentences if sent.strip()]] *)
Definition stripped_nonempty (sentences : list str) : list str :=
  map strip (filter (fun sent => negb (str_eqb (strip sent) [])) sentences).

Fixpoint startswith (s p : str) : bool :=
  match p, s with
  | [], _ => true
  | _ :: _, [] => false
  | x :: p', y :: s' => Ascii.eqb x y && startswith s' p'
  end.

Definition endswith (s p : str) : bool := startswith (rev s) (rev p).

(** [p in s] for strings. *)
Fixpoint contains (s p : str) : bool :=
  startswith s p ||
  match s with
  | [] => false
  | _ :: s' => contains s' p
  end.

(** Text-mode reading with the default [newline=None]: the line endings
    CR LF and CR both arrive as a single newline. *)
Fixpoint universal_newlines (s : str) : str :=
  match s with
  | [] => []
  | c :: s' =>
      if Ascii.eqb c carriage_return then
        newline :: match s' with
                   | c' :: s'' =>
                       if Ascii.eqb c' newline then universal_newlines s''
                       else universal_newlines s'
                   | [] => []
                   end
      else c :: universal_newlines s'
  end.

(** Cutting after every newline; a last line without one is kept. *)
Fixpoint split_lines (text : str) : list str :=
  match text with
  | [] => []
  | c :: t =>
      if Ascii.eqb c newline then [c] :: split_lines t
      else match split_lines t with
           | [] => [[c]]
           | l :: ls => (c :: l) :: ls
           end
  end.

(** [f.readlines()] on the decoded content of a file opened in text mode:
    every line keeps its terminating newline. *)
Definition readlines (text : str) : list str :=
  split_lines (universal_newlines text).

(** [x in l] for a list (equality of values). *)
Definition mem {A : Type} (eqb : A -> A -> bool) (x : A) (l : list A) : bool :=
  existsb (eqb x) l.

(** [set(l)] kept as a duplicate-free list. *)
Fixpoint to_set {A : Type} (eqb : A -> A -> bool) (l : list A) : list A :=
  match l with
  | [] => []
  | x :: l' => if mem eqb x l' then to_set eqb l' else x :: to_set eqb l'
  end.

End Py.

(** ** [difflib.SequenceMatcher(None, a, b).ratio()]

    The standard-library matcher as the scripts call it: no junk predicate,
    [autojunk] left at its default.  Indices are naturals. *)

Module Difflib.
Import Py.

Section SequenceMatcher.

Variables a b : str.

Fixpoint indices_of (c : ascii) (l : str) (j : nat) : list nat :=
  match l with
  | [] => []
  | x :: l' =>
      if Ascii.eqb x c then j :: indices_of c l' (S j)
      else indices_of c l' (S j)
  end.

(** [__chain_b]: with 200 or more elements in [b], an element that occurs
    more than [n // 100 + 1] times is popular and leaves [b2j]. *)
Definition popular (c : ascii) : bool :=
  let n := length b in
  (200 <=? n) && (n / 100 + 1 <? length (indices_of c b 0)).

Definition b2j (c : ascii) : list nat :=
  if popular c then [] else indices_of c b 0.

Fixpoint j2len_get (m : list (nat * nat)) (j : nat) : nat :=
  match m with
  | [] => 0
  | (j', k) :: m' => if j' =? j then k else j2len_get m' j
  end.

Definition eq_at (i j : nat) : bool :=
  match nth_error a i, nth_error b j with
  | Some x, Some y => Ascii.eqb x y
  | _, _ => false
  end.

(** The loop [for j in b2j.get(a[i], nothing)] of [find_longest_match]. *)
Fixpoint scan_row (js : list nat) (blo bhi i : nat)
    (j2len newj2len : list (nat * nat)) (best : nat * nat * nat)
    : list (nat * nat) * (nat * nat * nat) :=
  match js with
  | [] => (newj2len, best)
  | j :: js' =>
      if j <? blo then scan_row js' blo bhi i j2len newj2len best
      else if bhi <=? j then (newj2len, best)
      else
        let k := match j with
                 | 0 => 0
                 | S j' => j2len_get j2len j'
                 end + 1 in
        let '(_, _, bestsize) := best in
        scan_row js' blo bhi i j2len ((j, k) :: newj2len)
          (if bestsize <? k then (i + 1 - k, j + 1 - k, k) else best)
  end.

(** The loop [for i in range(alo, ahi)]. *)
Fixpoint scan_rows (rows : list nat) (blo bhi : nat)
    (j2len : list (nat * nat)) (best : nat * nat * nat) : nat * nat * nat :=
  match rows with
  | [] => best
  | i :: rows' =>
      let js := match nth_error a i with
                | Some c => b2j c
                | None => []
                end in
      let '(newj2len, best') := scan_row js blo bhi i j2len [] best in
      scan_rows rows' blo bhi newj2len best'
  end.

(** [while besti > alo and bestj > blo and a[besti-1] == b[bestj-1]] *)
Fixpoint extend_left (alo blo besti bestj bestsize : nat) : nat * nat * nat :=
  match besti with
  | 0 => (besti, bestj, bestsize)
  | S i' =>
      if (alo <? besti) && (blo <? bestj) && eq_at i' (bestj - 1)
      then extend_left alo blo i' (bestj - 1) (bestsize + 1)
      else (besti, bestj, bestsize)
  end.

(** [while besti+bestsize < ahi and bestj+bestsize < bhi and
     a[besti+bestsize] == b[bestj+bestsize]]; [gap] is
    [ahi - (besti+bestsize)]. *)
Fixpoint extend_right (gap bhi besti bestj bestsize : nat) : nat :=
  match gap with
  | 0 => bestsize
  | S g =>
      if (bestj + bestsize <? bhi) && eq_at (besti + bestsize) (bestj + bestsize)
      then extend_right g bhi besti bestj (bestsize + 1)
      else bestsize
  end.

(** No element is junk, so the two junk-extension loops never run. *)
Definition find_longest_match (alo ahi blo bhi : nat) : nat * nat * nat :=
  let '(i0, j0, k0) :=
    scan_rows (seq alo (ahi - alo)) blo bhi [] (alo, blo, 0) in
  let '(i1, j1, k1) := extend_left alo blo i0 j0 k0 in
  (i1, j1, extend_right (ahi - (i1 + k1)) bhi i1 j1 k1).

(** The sum of the sizes of [get_matching_blocks()].  The source keeps a
    work list of sub-ranges; the sum does not depend on the order in which
    they are taken, so the two sub-ranges are visited recursively.  [None]
    means the fuel ran out, which [matches_is_total] below excludes for the
    fuel that [matches] gives. *)
Fixpoint matches_aux (fuel alo ahi blo bhi : nat) : option nat :=
  match fuel with
  | 0 => None
  | S f =>
      let '(i, j, k) := find_longest_match alo ahi blo bhi in
      if k =? 0 then Some 0
      else
        bind (if (alo <? i) && (blo <? j)
              then matches_aux f alo i blo j else Some 0) (fun l =>
        bind (if (i + k <? ahi) && (j + k <? bhi)
              then matches_aux f (i + k) ahi (j + k) bhi else Some 0) (fun r =>
        Some (k + l + r)))
  end.

Definition matches : nat :=
  match matches_aux (S (length a)) 0 (length a) 0 (length b) with
  | Some m => m
  | None => 0
  end.

(** [_calculate_ratio(matches, len(a) + len(b))] *)
Definition ratio : Q :=
  let length := length a + length b in
  if length =? 0 then Qmake 1 1
  else Qmake (2 * Z.of_nat matches) (Pos.of_nat length).

End SequenceMatcher.

(** [r >= t] and [r > t] on ratios. *)
Definition ge (r t : Q) : bool := Qle_bool t r.
Definition gt (r t : Q) : bool := negb (Qle_bool r t).

End Difflib.

(** ** The regular expressions of the scripts, as matchers *)

Module Re.
Import Py.

(** The class [\w] (code points below 256). *)
Definition is_word (c : ascii) : bool :=
  let n := nat_of_ascii c in
  ((48 <=? n) && (n <=? 57)) || ((65 <=? n) && (n <=? 90)) || (n =? 95)
  || ((97 <=? n) && (n <=? 122))
  || (n =? 170) || (n =? 178) || (n =? 179) || (n =? 181) || (n =? 185)
  || (n =? 186) || ((188 <=? n) && (n <=? 190))
  || ((192 <=? n) && (n <=? 214)) || ((216 <=? n) && (n <=? 246))
  || (248 <=? n).

Definition is_word_opt (c : option ascii) : bool :=
  match c with
  | Some x => is_word x
  | None => false
  end.

Definition is_upper_az (c : ascii) : bool :=
  let n := nat_of_ascii c in (65 <=? n) && (n <=? 90).

Definition is_lower_az (c : ascii) : bool :=
  let n := nat_of_ascii c in (97 <=? n) && (n <=? 122).

(** A literal [w] at the head of [s]; with [ci], ignoring case (the
    literals of the scripts are lower-case letters when [ci] is set). *)
Fixpoint literal (ci : bool) (w s : str) : option str :=
  match w, s with
  | [], _ => Some s
  | _ :: _, [] => None
  | x :: w', y :: s' =>
      if Ascii.eqb x (if ci then lower_char y else y)
      then literal ci w' s' else None
  end.

(** [re.search]: try the matcher at every position, left to right; the
    matcher sees the character before the position. *)
Fixpoint search (m : option ascii -> str -> bool) (prev : option ascii)
    (s : str) : bool :=
  m prev s ||
  match s with
  | [] => false
  | c :: s' => search m (Some c) s'
  end.

(** [\b(?:w1|...|wn)] followed by [after], the alternatives being words
    that begin with a word character. *)
Definition word_start (ci : bool) (ws : list str) (after : str -> bool)
    (prev : option ascii) (s : str) : bool :=
  negb (is_word_opt prev) &&
  existsb (fun w => match literal ci w s with
                    | Some rest => after rest
                    | None => false
                    end) ws.

(** [\b] after a word character: the next character is not one. *)
Definition word_end (rest : str) : bool := negb (is_word_opt (hd_error rest)).

End Re.

(** ** External collaborators: the reference segmenters

    Each is an opaque capability from a text to its sentences; [None] is a
    raised exception. *)

Record Segmenters : Type := {
  NUPUNKT_AVAILABLE : bool;
  PYSBD_AVAILABLE : bool;
  nupunkt_sent_tokenize : Py.str -> option (list Py.str);
  pysbd_segment : Py.str -> option (list Py.str)
}.

(** A line of a seams file: the tuple
    [(text, start_line, start_col, end_line, end_col)]. *)
Record SeamsSentence : Type := {
  s_text : Py.str;          (* sent[0] *)
  s_start_line : Z;         (* sent[1] *)
  s_start_col : Z;          (* sent[2] *)
  s_end_line : Z;           (* sent[3] *)
  s_end_col : Z             (* sent[4] *)
}.

(** The source of randomness: the module-level generator of [random].
    [random.sample] and [random.shuffle] choose positions from the length of
    their argument and the generator state alone. *)
Class RandomSource (S : Type) : Type := {
  (** positions chosen by [random.sample(population, k)], [n = len(population)] *)
  sample_positions : S -> nat -> nat -> list nat * S;
  (** the arrangement made by [random.shuffle(x)], [n = len(x)] *)
  shuffle_positions : S -> nat -> list nat * S;
  sample_positions_spec : forall s n k, k <= n ->
    let idx := fst (sample_positions s n k) in
    NoDup idx /\ length idx = k /\ Forall (fun i => i < n) idx;
  shuffle_positions_spec : forall s n,
    Permutation (fst (shuffle_positions s n)) (seq 0 n)
}.

(** ** [build_boundary_gold_set.py] *)

Module BoundaryGold.
Import Py.

Local Open Scope Z_scope.

Record BoundaryExample : Type := {
  original_text : str;
  seams_sentences : list str;
  comparison_sentences : list str;
  comparison_method : str;
  nupunkt_sentences : list str;
  pysbd_sentences : list str;
  source_file : str;
  start_line : Z;
  end_line : Z;
  complexity : str;
  disagreement_type : str
}.

(** The dataclass compares field by field. *)
Definition BoundaryExample_eq_dec (x y : BoundaryExample) : {x = y} + {x <> y}.
Proof.
  decide equality;
    solve [ apply (list_eq_dec ascii_dec)
          | apply (list_eq_dec (list_eq_dec ascii_dec))
          | apply Z.eq_dec ].
Defined.

Definition BoundaryExample_eqb (x y : BoundaryExample) : bool :=
  if BoundaryExample_eq_dec x y then true else false.

(** [extract_original_region]; [None] is an IndexError that the function
    does not catch. *)
Definition extract_original_region (original_lines : list str)
    (start_line start_col end_line end_col : Z) : option str :=
  if (start_line >? len original_lines) || (end_line >? len original_lines)
  then Some []
  else
    let start_line_idx := start_line - 1 in
    let end_line_idx := end_line - 1 in
    let start_col_idx := start_col - 1 in
    let end_col_idx := end_col - 1 in
    if start_line_idx =? end_line_idx then
      bind (getitem original_lines start_line_idx) (fun raw =>
      let line := rstrip_nl raw in
      if end_col_idx <=? len line
      then Some (slice line start_col_idx end_col_idx)
      else Some (slice_from line start_col_idx))
    else
      bind (getitem original_lines start_line_idx) (fun raw_first =>
      let first_line := rstrip_nl raw_first in
      let head := if start_col_idx <? len first_line
                  then [slice_from first_line start_col_idx] else [] in
      bind (mapM (fun line_idx =>
                    option_map rstrip_nl (getitem original_lines line_idx))
                 (range (start_line_idx + 1) end_line_idx)) (fun middle =>
      bind (if end_line_idx <? len original_lines
            then bind (getitem original_lines end_line_idx) (fun raw_last =>
                 let last_line := rstrip_nl raw_last in
                 if end_col_idx <=? len last_line
                 then Some [slice_to last_line end_col_idx]
                 else Some [last_line])
            else Some []) (fun tail =>
      Some (join [space] (head ++ middle ++ tail))))).

(** [sentences_overlap] *)
Definition sentences_overlap (comparison_sent : str) (seams_texts : list str)
    (original_region : str) : bool :=
  let comparison_lower := lower comparison_sent in
  let original_lower := lower original_region in
  if contains original_lower comparison_lower then true
  else if existsb (fun seams_text =>
             Difflib.gt (Difflib.ratio comparison_lower (lower seams_text))
                        (Qmake 7 10)) seams_texts then true
  else
    let comparison_words :=
      to_set str_eqb (filter (fun word => len word >? 4)
                             (split_ws comparison_lower)) in
    if 0 <? len comparison_words then
      let original_words := to_set str_eqb (split_ws original_lower) in
      let common := filter (fun w => mem str_eqb w original_words)
                           comparison_words in
      (* len(common) / len(comparison_words) > 0.5 *)
      Difflib.gt (Qmake (len common) (Z.to_pos (len comparison_words)))
                 (Qmake 5 10)
    else false.

(** [classify_disagreement] (two-way) *)
Definition classify_disagreement (seams_sentences comparison_sentences : list str)
    : str :=
  let seams_count := len seams_sentences in
  let comparison_count := len comparison_sentences in
  if comparison_count >? seams_count then lit "over_split"
  else if comparison_count <? seams_count then lit "under_split"
  else lit "different_boundaries".

(** [classify_complexity] *)
Definition classify_complexity (text : str) : str :=
  if contains text [dquote] || contains text [squote]
     || Re.search (Re.word_start true
                     [lit "said"; lit "asked"; lit "replied"] Re.word_end)
                  None text
  then lit "dialog"
  else if Re.search (fun prev s =>
               Re.word_start false
                 [lit "Mr"; lit "Mrs"; lit "Dr"; lit "etc"; lit "vs";
                  lit "i.e"; lit "e.g"]
                 (fun rest => startswith rest (lit ".")) prev s
               || match s with
                  | c :: rest => Re.is_upper_az c && startswith rest (lit ".")
                  | [] => false
                  end) None text
  then lit "abbreviation"
  else if Re.search (fun _ s =>
               match s with
               | c :: _ => existsb (Ascii.eqb c) (lit ";:()-")
               | [] => false
               end
               || existsb (fun w => match Re.literal true w s with
                                    | Some _ => true
                                    | None => false
                                    end) [lit "however"; lit "therefore"])
             None text
  then lit "complex"
  else lit "normal".

Section WithSegmenters.

Variable env : Segmenters.

(** [get_nupunkt_pysbd_segmentations] *)
Definition get_nupunkt_pysbd_segmentations (original_text : str)
    : list str * list str :=
  let nupunkt_sentences :=
    if NUPUNKT_AVAILABLE env then
      match nupunkt_sent_tokenize env original_text with
      | Some sents => stripped_nonempty sents
      | None => []
      end
    else [] in
  let pysbd_sentences :=
    if PYSBD_AVAILABLE env then
      match pysbd_segment env original_text with
      | Some sents => stripped_nonempty sents
      | None => []
      end
    else [] in
  (nupunkt_sentences, pysbd_sentences).

(** [" ".join(sentences).lower().replace(" ", "")] *)
Definition squeezed (sentences : list str) : str :=
  filter (fun c => negb (Ascii.eqb c space)) (lower (join [space] sentences)).

(** [should_filter_example] *)
Definition should_filter_example (example : BoundaryExample) : bool :=
  if negb (existsb Re.is_lower_az (original_text example)) then true
  else if NUPUNKT_AVAILABLE env && PYSBD_AVAILABLE env then
    let seams := stripped_nonempty (seams_sentences example) in
    let nupunkt := nupunkt_sentences example in
    let pysbd := pysbd_sentences example in
    if (len seams =? len nupunkt) && (len nupunkt =? len pysbd)
       && (len seams >? 0)
    then str_eqb (squeezed seams) (squeezed nupunkt)
         && str_eqb (squeezed nupunkt) (squeezed pysbd)
    else false
  else false.

Local Close Scope Z_scope.

(** One iteration of the loop of [find_overlapping_regions]: from the
    current [fast_idx] and the group of seams sentences to the new
    [fast_idx] and the examples appended (none or one). *)
Definition region_step (comparison_sentences : list str)
    (original_lines : list str) (comparison_method : str)
    (fast_idx : nat) (seams_group : list SeamsSentence)
    : option (nat * list BoundaryExample) :=
  match seams_group with
  | [] => Some (fast_idx, [])
  | first_sent :: _ =>
      let last_sent := last seams_group first_sent in
      let region_start_line := s_start_line first_sent in
      let region_start_col := s_start_col first_sent in
      let region_end_line := s_end_line last_sent in
      let region_end_col := s_end_col last_sent in
      bind (extract_original_region original_lines
              region_start_line region_start_col
              region_end_line region_end_col) (fun original_region =>
      if str_eqb original_region [] || (len original_region <? 50)%Z
      then Some (fast_idx, [])
      else
        let seams_texts := map s_text seams_group in
        let search_start := Nat.max 0 (fast_idx - 5) in
        let search_end :=
          Nat.min (length comparison_sentences) (fast_idx + 20) in
        let hits :=
          filter (fun i => sentences_overlap (nth i comparison_sentences [])
                                             seams_texts original_region)
                 (seq search_start (search_end - search_start)) in
        let overlapping_comparison :=
          map (fun i => nth i comparison_sentences []) hits in
        let consumed_count :=
          length (filter (fun i => fast_idx <=? i) hits) in
        let fast_idx' := fast_idx + consumed_count in
        if negb (length overlapping_comparison =? length seams_texts)
           && negb (length overlapping_comparison =? 0)
        then
          let disagreement_type :=
            classify_disagreement seams_texts overlapping_comparison in
          let complexity := classify_complexity original_region in
          let '(nupunkt_sentences, pysbd_sentences) :=
            get_nupunkt_pysbd_segmentations (strip original_region) in
          let example :=
            {| original_text := strip original_region;
               seams_sentences := seams_texts;
               comparison_sentences := overlapping_comparison;
               comparison_method := comparison_method;
               nupunkt_sentences := nupunkt_sentences;
               pysbd_sentences := pysbd_sentences;
               source_file := [];
               start_line := region_start_line;
               end_line := region_end_line;
               complexity := complexity;
               disagreement_type := disagreement_type |} in
          if should_filter_example example
          then Some (fast_idx', [])
          else Some (fast_idx', [example])
        else Some (fast_idx', []))
  end.

(** The loop [for seams_start in range(0, len(seams_sentences) - 1, 2)],
    over the list of its start indices. *)
Fixpoint regions_loop (seams_sentences : list SeamsSentence)
    (comparison_sentences original_lines : list str) (comparison_method : str)
    (starts : list nat) (fast_idx : nat) : option (list BoundaryExample) :=
  match starts with
  | [] => Some []
  | seams_start :: rest =>
      bind (region_step comparison_sentences original_lines comparison_method
              fast_idx (firstn 3 (skipn seams_start seams_sentences)))
           (fun r =>
      bind (regions_loop seams_sentences comparison_sentences original_lines
              comparison_method rest (fst r)) (fun examples =>
      Some (snd r ++ examples)))
  end.

(** [find_overlapping_regions] *)
Definition find_overlapping_regions (seams_sentences : list SeamsSentence)
    (comparison_sentences original_lines : list str) (comparison_method : str)
    : option (list BoundaryExample) :=
  regions_loop seams_sentences comparison_sentences original_lines
    comparison_method (range_step (length seams_sentences - 1) 2) 0.

End WithSegmenters.

Local Close Scope Z_scope.

(** *** The stratified sampler: the second half of
    [build_boundary_gold_set], from the accumulated [all_examples] on. *)

Section Sampler.

Context {S : Type} {RS : RandomSource S}.

Definition pick {A : Type} (population : list A) (positions : list nat)
    : list A :=
  flat_map (fun i => match nth_error population i with
                     | Some x => [x]
                     | None => []
                     end) positions.

(** [random.sample(population, k)] *)
Definition random_sample {A : Type} (st : S) (population : list A) (k : nat)
    : list A * S :=
  let r := sample_positions st (length population) k in
  (pick population (fst r), snd r).

(** [random.shuffle(x)], returning the rearranged list. *)
Definition random_shuffle {A : Type} (st : S) (x : list A) : list A * S :=
  let r := shuffle_positions st (length x) in
  (pick x (fst r), snd r).

(** [f"{comparison_method}_{disagreement_type}_{complexity}"] *)
Definition category_key (example : BoundaryExample) : str :=
  comparison_method example ++ lit "_" ++ disagreement_type example
  ++ lit "_" ++ complexity example.

(** [examples_by_type[key].append(example)] on an insertion-ordered dict. *)
Fixpoint append_to_category (key : str) (example : BoundaryExample)
    (d : list (str * list BoundaryExample)) : list (str * list BoundaryExample) :=
  match d with
  | [] => [(key, [example])]
  | (k, examples) :: d' =>
      if str_eqb k key then (k, examples ++ [example]) :: d'
      else (k, examples) :: append_to_category key example d'
  end.

Definition examples_by_type (all_examples : list BoundaryExample)
    : list (str * list BoundaryExample) :=
  fold_left (fun d example =>
               append_to_category (category_key example) example d)
            all_examples [].

(** The loop [for category, examples in examples_by_type.items()];
    [quota] is [target_size // len(examples_by_type)]. *)
Fixpoint sample_categories (categories : list (str * list BoundaryExample))
    (quota : nat) (st : S) : list BoundaryExample * S :=
  match categories with
  | [] => ([], st)
  | (_, examples) :: rest =>
      let sample_size := Nat.min (length examples) quota in
      let r := match examples with
               | [] => ([], st)
               | _ :: _ =>
                   random_sample st examples
                     (Nat.min sample_size (length examples))
               end in
      let r' := sample_categories rest quota (snd r) in
      (fst r ++ fst r', snd r')
  end.

(** [build_boundary_gold_set], lines 408 to 432. *)
Definition build_boundary_gold_set (st : S)
    (all_examples : list BoundaryExample) (target_size : nat)
    : list BoundaryExample * S :=
  let by_type := examples_by_type all_examples in
  let r1 := sample_categories by_type (target_size / length by_type) st in
  let selected_examples := fst r1 in
  let r2 :=
    if length selected_examples <? target_size then
      let remaining :=
        filter (fun ex => negb (mem BoundaryExample_eqb ex selected_examples))
               all_examples in
      let additional_needed := target_size - length selected_examples in
      match remaining with
      | [] => r1
      | _ :: _ =>
          let r := random_sample (snd r1) remaining
                     (Nat.min additional_needed (length remaining)) in
          (selected_examples ++ fst r, snd r)
      end
    else r1 in
  let r3 := random_shuffle (snd r2) (fst r2) in
  (firstn target_size (fst r3), snd r3).

End Sampler.

End BoundaryGold.

(** ** Definitions that [build_seams_disagreement_set.py] and
       [find_seams_differences.py] both carry, word for word *)

Module SeamsScripts.
Import Py.

Local Open Scope Z_scope.

(** The body of the [try] of [extract_original_text_from_coordinates],
    after [lines = f.readlines()]; [None] is a raised IndexError. *)
Definition extract_from_lines (lines : list str)
    (start_line start_col end_line end_col : Z) : option str :=
  let start_line_idx := start_line - 1 in
  let end_line_idx := end_line - 1 in
  let start_col_idx := start_col - 1 in
  let end_col_idx := end_col - 1 in
  if start_line_idx =? end_line_idx then
    bind (getitem lines start_line_idx) (fun line =>
    Some (slice line start_col_idx end_col_idx))
  else
    bind (getitem lines start_line_idx) (fun first =>
    let result := slice_from first start_col_idx in
    bind (mapM (getitem lines)
            (range (start_line_idx + 1) end_line_idx)) (fun middle =>
    bind (getitem lines end_line_idx) (fun last =>
    Some (result ++ concat middle ++ slice_to last end_col_idx)))).

(** [extract_original_text_from_coordinates].  The file is its decoded
    text, or [None] when it cannot be opened or decoded; every exception
    is caught and gives the empty string. *)
Definition extract_original_text_from_coordinates (original_file : option str)
    (start_line start_col end_line end_col : Z) : str :=
  match original_file with
  | None => []
  | Some text =>
      match extract_from_lines (readlines text)
              start_line start_col end_line end_col with
      | Some result => result
      | None => []
      end
  end.

Section WithSegmenters.

Variable env : Segmenters.

(** [segment_with_pysbd] *)
Definition segment_with_pysbd (text : str) : list str :=
  match pysbd_segment env text with
  | Some sentences => stripped_nonempty sentences
  | None => []
  end.

(** [segment_with_nupunkt] *)
Definition segment_with_nupunkt (text : str) : list str :=
  match nupunkt_sent_tokenize env text with
  | Some sentences => stripped_nonempty sentences
  | None => []
  end.

End WithSegmenters.

(** [' '.join(text.split()).strip()]: [normalize_for_comparison] in the
    one script, [normalize_text] in the other. *)
Definition normalize_text (text : str) : str :=
  strip (join [space] (split_ws text)).

End SeamsScripts.

(** ** [build_seams_disagreement_set.py] *)

Module SeamsDisagreementSet.
Import Py SeamsScripts.

Record SeamsDisagreement : Type := {
  original_text : str;
  seams_sentences : list str;
  pysbd_sentences : list str;
  nupunkt_sentences : list str;
  disagreement_type : str;
  source_file : str;
  text_region_start : nat;
  text_region_end : nat;
  complexity_indicators : list str
}.

Definition normalize_for_comparison (text : str) : str := normalize_text text.

(** [sentences_are_similar] with its [threshold] argument. *)
Definition sentences_are_similar_at (threshold : Q)
    (seams_sentences other_sentences : list str) : bool :=
  if negb (length seams_sentences =? length other_sentences) then false
  else
    let seams_text :=
      join [space] (map normalize_for_comparison seams_sentences) in
    let other_text :=
      join [space] (map normalize_for_comparison other_sentences) in
    let similarity := Difflib.ratio seams_text other_text in
    Difflib.ge similarity threshold.

(** [sentences_are_similar] at the default threshold, 0.9. *)
Definition sentences_are_similar : list str -> list str -> bool :=
  sentences_are_similar_at (Qmake 9 10).

(** [classify_disagreement] (three-way) *)
Definition classify_disagreement
    (seams_sentences pysbd_sentences nupunkt_sentences : list str) : str :=
  let seams_vs_pysbd :=
    negb (sentences_are_similar seams_sentences pysbd_sentences) in
  let seams_vs_nupunkt :=
    negb (sentences_are_similar seams_sentences nupunkt_sentences) in
  let pysbd_vs_nupunkt :=
    negb (sentences_are_similar pysbd_sentences nupunkt_sentences) in
  if seams_vs_pysbd && seams_vs_nupunkt && negb pysbd_vs_nupunkt
  then lit "seams_vs_both"
  else if seams_vs_pysbd && negb seams_vs_nupunkt then lit "seams_vs_pysbd"
  else if seams_vs_nupunkt && negb seams_vs_pysbd then lit "seams_vs_nupunkt"
  else if seams_vs_pysbd && seams_vs_nupunkt && pysbd_vs_nupunkt
  then lit "all_disagree"
  else lit "no_disagreement".

Section WithCollaborators.

Variable env : Segmenters.

(** [analyze_text_complexity], the tagger of this script; its tags play no
    part in what is retained. *)
Variable analyze_text_complexity : str -> list str.

Definition region_size : nat := 3.

(** One iteration of the loop of [find_disagreements_in_file_pair]: the
    records appended for the window that starts at [i]. *)
Definition region_disagreements (original_file : option str)
    (source_name : str) (seams_data : list SeamsSentence) (i : nat)
    : list SeamsDisagreement :=
  let region_sentences := firstn region_size (skipn i seams_data) in
  match region_sentences with
  | [] => []
  | first_sentence :: _ =>
      let last_sentence := last region_sentences first_sentence in
      let original_text :=
        extract_original_text_from_coordinates original_file
          (s_start_line first_sentence) (s_start_col first_sentence)
          (s_end_line last_sentence) (s_end_col last_sentence) in
      if str_eqb original_text [] || (len (strip original_text) <? 20)%Z
      then []
      else
        let seams_sentences := map s_text region_sentences in
        let pysbd_sentences := segment_with_pysbd env original_text in
        let nupunkt_sentences := segment_with_nupunkt env original_text in
        if (length pysbd_sentences =? 0) || (length nupunkt_sentences =? 0)
        then []
        else
          let disagreement_type :=
            classify_disagreement seams_sentences pysbd_sentences
                                  nupunkt_sentences in
          if mem str_eqb disagreement_type
               [lit "seams_vs_both"; lit "seams_vs_pysbd";
                lit "seams_vs_nupunkt"]
          then [ {| original_text := original_text;
                    seams_sentences := seams_sentences;
                    pysbd_sentences := pysbd_sentences;
                    nupunkt_sentences := nupunkt_sentences;
                    disagreement_type := disagreement_type;
                    source_file := source_name;
                    text_region_start := i;
                    text_region_end := i + region_size;
                    complexity_indicators :=
                      analyze_text_complexity original_text |} ]
          else []
  end.

(** [find_disagreements_in_file_pair], from the parsed seams file on. *)
Definition find_disagreements_in_file_pair (original_file : option str)
    (source_name : str) (seams_data : list SeamsSentence)
    : list SeamsDisagreement :=
  flat_map (region_disagreements original_file source_name seams_data)
    (range_step (length seams_data + 1 - region_size) region_size).

End WithCollaborators.

End SeamsDisagreementSet.

(** ** [find_seams_differences.py] *)

Module SeamsDifferences.
Import Py SeamsScripts.

Record SeamsDifference : Type := {
  original_text : str;
  seams_sentences : list str;
  pysbd_sentences : list str;
  nupunkt_sentences : list str;
  source_file : str;
  text_start_line : Z;
  text_start_col : Z;
  text_end_line : Z;
  text_end_col : Z;
  differs_from_pysbd : bool;
  differs_from_nupunkt : bool
}.

(** [segmentations_differ] *)
Definition segmentations_differ (seams_sentences other_sentences : list str)
    : bool :=
  if negb (length seams_sentences =? length other_sentences) then true
  else
    let seams_text := join [space] (map normalize_text seams_sentences) in
    let other_text := join [space] (map normalize_text other_sentences) in
    negb (str_eqb seams_text other_text).

(** [re.search(r'(said|asked|replied|shouted|whispered)[.!?]?\s*$', s)]:
    the trailing white space up to the end is the whole white-space run
    that ends [s]; before it come the word and at most one of [.!?]. *)
Definition ends_with_attribution (s : str) : bool :=
  let body := rstrip_by isspace s in
  let verbs := [lit "said"; lit "asked"; lit "replied"; lit "shouted";
                lit "whispered"] in
  existsb (endswith body) verbs
  || match rev body with
     | c :: before =>
         existsb (Ascii.eqb c) (lit ".!?")
         && existsb (endswith (rev before)) verbs
     | [] => false
     end.

(** The three tests of the inner loop that end a chunk at sentence [i],
    seen from [seams_data[i]] and [seams_data[i + 1]]. *)
Definition natural_break (current next : SeamsSentence) : bool :=
  (s_start_line next >? s_end_line current + 1)%Z
  || ends_with_attribution (lower (s_text current))
  || (endswith (s_text current) [dquote]
      && negb (startswith (s_text next) [dquote])).

(** The inner loop [while i < len(seams_data) - 1], on the sentences from
    index [i] on; the result is the value of [i] when the loop is left. *)
Fixpoint advance (rest : list SeamsSentence) (i start_idx : nat) : nat :=
  match rest with
  | current :: (next :: _) as rest' =>
      if natural_break current next then i
      else if 10 <=? i - start_idx then i
      else advance rest' (S i) start_idx
  | _ => i
  end.

(** [if i == start_idx: i += 1] *)
Definition at_least_one (start_idx i : nat) : nat :=
  if i =? start_idx then S i else i.

(** The outer loop [while i < len(seams_data)], from index [i] on. *)
Equations? boundaries_from (seams_data : list SeamsSentence) (i : nat)
    : list (nat * nat) by wf (length seams_data - i) lt :=
  boundaries_from seams_data i with lt_dec i (length seams_data) => {
    | left _ =>
        (i, at_least_one i (advance (skipn i seams_data) i i))
        :: boundaries_from seams_data
             (at_least_one i (advance (skipn i seams_data) i i));
    | right _ => [] }.
Proof.
  assert (Hge : forall rest k s, k <= advance rest k s).
  { induction rest as [|c rest IH]; intros k s; [simpl; lia|].
    destruct rest as [|n r]; [simpl; lia|].
    change (advance (c :: n :: r) k s)
      with (if natural_break c n then k
            else if 10 <=? k - s then k else advance (n :: r) (S k) s).
    destruct (natural_break c n); [lia|].
    destruct (10 <=? k - s); [lia|].
    specialize (IH (S k) s). lia. }
  specialize (Hge (skipn i seams_data) i i).
  unfold at_least_one.
  destruct (Nat.eqb_spec (advance (skipn i seams_data) i i) i); lia.
Qed.

(** [find_natural_text_boundaries] *)
Definition find_natural_text_boundaries (seams_data : list SeamsSentence)
    : list (nat * nat) :=
  boundaries_from seams_data 0.

Section WithSegmenters.

Variable env : Segmenters.

(** One iteration of the loop of [find_differences_in_file_pair]: the
    records appended for the chunk [(start_idx, end_idx)]; [None] is the
    IndexError of [chunk_sentences[0]] on an empty chunk. *)
Definition chunk_differences (original_file : option str) (source_name : str)
    (seams_data : list SeamsSentence) (boundary : nat * nat)
    : option (list SeamsDifference) :=
  let '(start_idx, end_idx) := boundary in
  let chunk_sentences :=
    firstn (end_idx - start_idx) (skipn start_idx seams_data) in
  match chunk_sentences with
  | [] => None
  | first_sentence :: _ =>
      let last_sentence := last chunk_sentences first_sentence in
      let original_text :=
        extract_original_text_from_coordinates original_file
          (s_start_line first_sentence) (s_start_col first_sentence)
          (s_end_line last_sentence) (s_end_col last_sentence) in
      if str_eqb original_text [] || (len (strip original_text) <? 10)%Z
      then Some []
      else
        let seams_sentences := map s_text chunk_sentences in
        let pysbd_sentences := segment_with_pysbd env original_text in
        let nupunkt_sentences := segment_with_nupunkt env original_text in
        if (length pysbd_sentences =? 0) || (length nupunkt_sentences =? 0)
        then Some []
        else
          let differs_from_pysbd :=
            segmentations_differ seams_sentences pysbd_sentences in
          let differs_from_nupunkt :=
            segmentations_differ seams_sentences nupunkt_sentences in
          if differs_from_pysbd || differs_from_nupunkt
          then Some [ {| original_text := original_text;
                         seams_sentences := seams_sentences;
                         pysbd_sentences := pysbd_sentences;
                         nupunkt_sentences := nupunkt_sentences;
                         source_file := source_name;
                         text_start_line := s_start_line first_sentence;
                         text_start_col := s_start_col first_sentence;
                         text_end_line := s_end_line last_sentence;
                         text_end_col := s_end_col last_sentence;
                         differs_from_pysbd := differs_from_pysbd;
                         differs_from_nupunkt := differs_from_nupunkt |} ]
          else Some []
  end.

(** [find_differences_in_file_pair], from the parsed seams file on. *)
Definition find_differences_in_file_pair (original_file : option str)
    (source_name : str) (seams_data : list SeamsSentence)
    : option (list SeamsDifference) :=
  match seams_data with
  | [] => Some []
  | _ :: _ =>
      option_map (@concat _)
        (mapM (chunk_differences original_file source_name seams_data)
              (find_natural_text_boundaries seams_data))
  end.

End WithSegmenters.

End SeamsDifferences.

(** ** Concrete inputs used to exercise the definitions *)

Module Scenarios.
Import Py.

Local Open Scope string_scope.
Local Open Scope list_scope.

(** Two references that agree with each other at similarity 0.97, and a
    primary that cuts the same text in two. *)
Definition hall_a : list str :=
  [lit "The committee met again on Monday in the hall to settle the question of the roof of the new library."].
Definition hall_b : list str :=
  [lit "The committee met again on Monday in the yard to settle the question of the roof of the new library."].
Definition hall_primary : list str :=
  [lit "The committee met again on Monday.";
   lit "In the hall they settled the question of the roof of the new library."].

(** A document whose third line is "The quick brown fox". *)
Definition fox_document : str :=
  lit "Chapter One" ++ [newline] ++ [newline]
  ++ lit "The quick brown fox" ++ [newline]
  ++ lit "jumps over the lazy dog." ++ [newline].

(** A two-line document with its seams file, which has five sentences, the
    first one tagged with a line far past the end of the document, and the
    sentences of the fast extraction, which joins two of them. *)
Definition rain_document : str :=
  lit "It was late in the autumn of that year. Nobody was about." ++ [newline]
  ++ lit "The rain stopped. He said nothing at all. They walked home in silence."
  ++ [newline].

Definition seam (text : string) (sl sc el ec : Z) : SeamsSentence :=
  {| s_text := lit text; s_start_line := sl; s_start_col := sc;
     s_end_line := el; s_end_col := ec |}.

Definition rain_seams : list SeamsSentence :=
  [seam "It was late in the autumn of that year." 99 1 99 40;
   seam "Nobody was about." 1 41 1 58;
   seam "The rain stopped." 2 1 2 18;
   seam "He said nothing at all." 2 19 2 42;
   seam "They walked home in silence." 2 43 2 71].

(** The seams file with the right coordinates for its first sentence. *)
Definition rain_seams_ok : list SeamsSentence :=
  seam "It was late in the autumn of that year." 1 1 1 40 :: tl rain_seams.

Definition rain_fast : list str :=
  [lit "It was late in the autumn of that year.";
   lit "Nobody was about.";
   lit "The rain stopped. He said nothing at all.";
   lit "They walked home in silence."].

(** The example that the second window of the seams file gives. *)
Definition rain_example : BoundaryGold.BoundaryExample :=
  {| BoundaryGold.original_text :=
       lit "The rain stopped. He said nothing at all. They walked home in silence.";
     BoundaryGold.seams_sentences :=
       [lit "The rain stopped."; lit "He said nothing at all.";
        lit "They walked home in silence."];
     BoundaryGold.comparison_sentences :=
       [lit "The rain stopped. He said nothing at all.";
        lit "They walked home in silence."];
     BoundaryGold.comparison_method := lit "fast";
     BoundaryGold.nupunkt_sentences :=
       [lit "The rain stopped. He said nothing at all. They walked home in silence."];
     BoundaryGold.pysbd_sentences :=
       [lit "The rain stopped. He said nothing at all. They walked home in silence."];
     BoundaryGold.source_file := [];
     BoundaryGold.start_line := 2;
     BoundaryGold.end_line := 2;
     BoundaryGold.complexity := lit "dialog";
     BoundaryGold.disagreement_type := lit "under_split" |}.

(** A reference segmenter that returns its text as one sentence. *)
Definition one_sentence : Segmenters :=
  {| NUPUNKT_AVAILABLE := true;
     PYSBD_AVAILABLE := true;
     nupunkt_sent_tokenize := fun text => Some [text];
     pysbd_segment := fun text => Some [text] |}.

(** Twelve sentences on twelve consecutive lines, with no natural break
    between them. *)
Definition twelve_lines : list SeamsSentence :=
  map (fun k => seam "The clock struck again." (Z.of_nat k) 1 (Z.of_nat k) 24)
      (seq 1 12).

(** The same words cut once and cut twice. *)
Definition left_one : list str := [lit "He said hi. She left."].
Definition left_two : list str := [lit "He said hi."; lit "She left."].

End Scenarios.

(** ** The shape of the lines of a document *)

Module LineShape.
Import Py.

(** No line separator inside. *)
Definition clean (s : str) : Prop := Forall (fun c => is_nl_cr c = false) s.

(** A line that ends with its newline. *)
Definition terminated (l : str) : Prop :=
  exists c, clean c /\ l = c ++ [newline].

(** What [readlines] returns: lines that end with a newline, but possibly
    the last, which is then not empty. *)
Inductive lines_ok : list str -> Prop :=
| lines_none : lines_ok []
| lines_last (c : str) : clean c -> c <> [] -> lines_ok [c]
| lines_cons (c : str) (ls : list str) :
    clean c -> lines_ok ls -> lines_ok ((c ++ [newline]) :: ls).

End LineShape.

(** ** Chunk boundaries as a partition *)

Module Partition.

(** [(start, end)] pairs that follow one another from [first] to [stop]:
    each pair begins where the one before it ended, and none is empty. *)
Fixpoint chain (first stop : nat) (boundaries : list (nat * nat)) : Prop :=
  match boundaries with
  | [] => first = stop
  | (s, e) :: rest => s = first /\ s < e /\ chain e stop rest
  end.

(** The chunks that hold the sentence of index [k]. *)
Definition chunks_of (k : nat) (boundaries : list (nat * nat))
    : list (nat * nat) :=
  filter (fun b => (fst b <=? k) && (k <? snd b)) boundaries.

End Partition.

(** ** A small random source and a few examples for the sampler *)

Module ToyRandom.
Import Py.

Definition next_state (st : Z) : Z :=
  ((st * 1103515245 + 12345) mod 2147483648)%Z.

(** [k] consecutive positions from a start that the state chooses. *)
Definition window_sample (st : Z) (n k : nat) : list nat * Z :=
  (seq (Z.to_nat (st mod Z.of_nat (n - k + 1))) k, next_state st).

(** A rotation by an amount that the state chooses. *)
Definition rotation_shuffle (st : Z) (n : nat) : list nat * Z :=
  let r := Z.to_nat (st mod Z.of_nat (n + 1)) in
  (seq r (n - r) ++ seq 0 r, next_state st).

Lemma window_sample_spec (st : Z) (n k : nat) :
  k <= n ->
  let idx := fst (window_sample st n k) in
  NoDup idx /\ length idx = k /\ Forall (fun i => i < n) idx.
Proof.
  intros Hk. cbn [fst window_sample].
  assert (Hr : Z.to_nat (st mod Z.of_nat (n - k + 1)) < n - k + 1).
  { pose proof (Z.mod_pos_bound st (Z.of_nat (n - k + 1)) ltac:(lia)). lia. }
  split; [apply seq_NoDup|]. split; [apply length_seq|].
  apply Forall_forall. intros i Hi. apply in_seq in Hi. lia.
Qed.

Lemma rotation_shuffle_spec (st : Z) (n : nat) :
  Permutation (fst (rotation_shuffle st n)) (seq 0 n).
Proof.
  cbn [fst rotation_shuffle].
  assert (Hr : Z.to_nat (st mod Z.of_nat (n + 1)) <= n).
  { pose proof (Z.mod_pos_bound st (Z.of_nat (n + 1)) ltac:(lia)). lia. }
  set (r := Z.to_nat (st mod Z.of_nat (n + 1))) in *.
  replace n with (r + (n - r)) at 2 by lia.
  rewrite seq_app. apply Permutation_app_comm.
Qed.

Definition source : RandomSource Z :=
  {| sample_positions := window_sample;
     shuffle_positions := rotation_shuffle;
     sample_positions_spec := window_sample_spec;
     shuffle_positions_spec := rotation_shuffle_spec |}.

Local Open Scope string_scope.

Definition example (text method kind tag : string) (line : Z)
    : BoundaryGold.BoundaryExample :=
  {| BoundaryGold.original_text := lit text;
     BoundaryGold.seams_sentences := [lit text];
     BoundaryGold.comparison_sentences := [];
     BoundaryGold.comparison_method := lit method;
     BoundaryGold.nupunkt_sentences := [];
     BoundaryGold.pysbd_sentences := [];
     BoundaryGold.source_file := lit "book-0.txt";
     BoundaryGold.start_line := line;
     BoundaryGold.end_line := line;
     BoundaryGold.complexity := lit tag;
     BoundaryGold.disagreement_type := lit kind |}.

Definition refrain : BoundaryGold.BoundaryExample :=
  example "Row, row. Row, row. Row, row." "fast" "under_split" "normal" 7.
Definition aside : BoundaryGold.BoundaryExample :=
  example "He waited (so he said). Then he left." "fast" "over_split" "dialog" 9.
Definition letter : BoundaryGold.BoundaryExample :=
  example "Dr. Hale wrote. Nobody answered him." "sentences" "over_split"
    "abbreviation" 12.
Definition storm : BoundaryGold.BoundaryExample :=
  example "The storm broke; the road was lost." "fast" "under_split" "normal" 20.

(** Four candidates that differ from one another. *)
Definition four_candidates : list BoundaryGold.BoundaryExample :=
  [refrain; aside; letter; storm].


End ToyRandom.

(** ** The categories of the sampler, read by key *)

Module Strata.
Import Py BoundaryGold.

(** Whether an example is filed under [key]. *)
Definition in_category (key : str) (example : BoundaryExample) : bool :=
  str_eqb (category_key example) key.

(** [examples_by_type[key]] on the insertion-ordered dictionary; a key that
    was never filed has no examples. *)
Fixpoint lookup (key : str) (d : list (str * list BoundaryExample))
    : list BoundaryExample :=
  match d with
  | [] => []
  | (k, examples) :: d' => if str_eqb k key then examples else lookup key d'
  end.

End Strata.

(** ** Words, as [str.split] cuts them *)

Module Words.
Import Py.

(** A run of characters without white space, not empty. *)
Definition word (w : str) : Prop :=
  w <> [] /\ Forall (fun c => isspace c = false) w.

(** The words of a segmentation, sentence after sentence. *)
Definition words_of (sentences : list str) : list str :=
  concat (map split_ws sentences).

(** A sentence that is not empty and has no white space at its ends. *)
Definition stripped (s : str) : Prop := s <> [] /\ strip s = s.

End Words.

(** ** The seams file format, as the parsers of the three scripts read it

    A file is seen through the lines that iterating over it yields before
    the iteration ends or raises; a file that cannot be opened yields
    none.  Each parser runs its loop inside a [try] whose handler prints
    the error and returns what was collected. *)

Module SeamsFormat.
Import Py.

Definition tab : ascii := "009"%char.

(** [\d] on code points below 256. *)
Definition is_digit (c : ascii) : bool :=
  let n := nat_of_ascii c in (48 <=? n) && (n <=? 57).

(** [\d+] at the start of [s], greedy: the digits and what follows them. *)
Fixpoint digits (s : str) : str * str :=
  match s with
  | c :: s' =>
      if is_digit c then let '(ds, rest) := digits s' in (c :: ds, rest)
      else ([], s)
  | [] => ([], [])
  end.

(** A group [(\d+)] and the literal that follows it. *)
Definition group_then (literal : ascii) (s : str) : option (str * str) :=
  match digits s with
  | ((_ :: _) as ds, c :: rest) =>
      if Ascii.eqb c literal then Some (ds, rest) else None
  | _ => None
  end.

(** [re.match(r'\((\d+),(\d+),(\d+),(\d+)\)', s)]: the four groups, or
    [None] when the pattern does not match at the start of [s]. *)
Definition coord_match (s : str) : option (str * str * str * str) :=
  match s with
  | c :: s0 =>
      if Ascii.eqb c "("%char then
        match group_then ","%char s0 with
        | Some (g1, s1) =>
            match group_then ","%char s1 with
            | Some (g2, s2) =>
                match group_then ","%char s2 with
                | Some (g3, s3) =>
                    match group_then ")"%char s3 with
                    | Some (g4, _) => Some (g1, g2, g3, g4)
                    | None => None
                    end
                | None => None
                end
            | None => None
            end
        | None => None
        end
      else None
  | [] => None
  end.

(** [re.search] with the same pattern: the leftmost match. *)
Fixpoint coord_search (s : str) : option (str * str * str * str) :=
  match coord_match s with
  | Some groups => Some groups
  | None =>
      match s with
      | [] => None
      | _ :: s' => coord_search s'
      end
  end.

(** [int(ds)] on a string of digits; [None] is the ValueError that the
    interpreter raises for more than 4300 digits. *)
Definition int (ds : str) : option Z :=
  if 4300 <? length ds then None
  else Some (fold_left (fun acc c =>
                          (10 * acc + Z.of_nat (nat_of_ascii c - 48))%Z)
                       ds 0%Z).

(** The tuple appended for a line: the text and the four groups as
    integers, converted in order. *)
Definition sentence_of (text : str) (groups : str * str * str * str)
    : option SeamsSentence :=
  let '(g1, g2, g3, g4) := groups in
  bind (int g1) (fun start_line =>
  bind (int g2) (fun start_col =>
  bind (int g3) (fun end_line =>
  bind (int g4) (fun end_col =>
  Some {| s_text := text;
          s_start_line := start_line; s_start_col := start_col;
          s_end_line := end_line; s_end_col := end_col |})))).

(** The loop [for line in f] inside the [try]: [process] gives [None] when
    the body raises, which ends the loop; [Some None] when the line adds
    nothing. *)
Fixpoint collect {A : Type} (process : str -> option (option A))
    (lines : list str) : list A :=
  match lines with
  | [] => []
  | line :: rest =>
      match process line with
      | None => []
      | Some None => collect process rest
      | Some (Some x) => x :: collect process rest
      end
  end.

(** The body of the loop of [parse_seams_file] (the same in
    [build_seams_disagreement_set.py] and [find_seams_differences.py]). *)
Definition parse_seams_line (line : str) : option (option SeamsSentence) :=
  let line := strip line in
  if str_eqb line [] then Some None
  else
    match split_on tab line with
    | _ :: sentence_text :: coords_str :: _ =>
        match coord_match coords_str with
        | Some groups => option_map Some (sentence_of sentence_text groups)
        | None => Some None
        end
    | _ => Some None
    end.

(** [parse_seams_file] *)
Definition parse_seams_file (lines : list str) : list SeamsSentence :=
  collect parse_seams_line lines.

End SeamsFormat.

(** ** [build_boundary_gold_set.py]: from the files to the examples *)

Module BoundaryGoldBuilder.
Import Py SeamsFormat BoundaryGold.

(** The body of the loop of [parse_seams_with_coordinates]. *)
Definition parse_seams_line_with_coordinates (line : str)
    : option (option SeamsSentence) :=
  let line := strip line in
  if negb (str_eqb line []) && negb (startswith line (lit "#")) then
    match split_on tab line with
    | _ :: text_part :: coord_part :: _ =>
        match coord_search coord_part with
        | Some groups =>
            option_map Some (sentence_of (strip text_part) groups)
        | None => Some None
        end
    | _ => Some None
    end
  else Some None.

(** [parse_seams_with_coordinates] *)
Definition parse_seams_with_coordinates (lines : list str)
    : list SeamsSentence :=
  collect parse_seams_line_with_coordinates lines.

(** The body of the loop of [parse_comparison_sentences]; nothing in it
    raises. *)
Definition parse_comparison_line (line : str) : option (option str) :=
  let line := strip line in
  if negb (str_eqb line []) && negb (startswith line (lit "#")) then
    match split_on tab line with
    | _ :: sentence :: _ => Some (Some (strip sentence))
    | _ => Some None
    end
  else Some None.

(** [parse_comparison_sentences] *)
Definition parse_comparison_sentences (lines : list str) : list str :=
  collect parse_comparison_line lines.

(** [load_original_lines]; the file is its decoded text, or [None] when it
    cannot be read. *)
Definition load_original_lines (original_file : option str) : list str :=
  match original_file with
  | Some text => readlines text
  | None => []
  end.

(** What [find_file_pairs] found for one pair, with the original file next
    to the seams file: the lines of the two sentence files, the original
    file ([None] when it does not exist or cannot be read), the method of
    the comparison file and the path of the original file relative to the
    corpus root. *)
Record FilePair : Type := {
  seams_file : list str;
  comparison_file : list str;
  original_file : option str;
  pair_method : str;
  original_name : str
}.

(** [example.source_file = ...] *)
Definition with_source_file (name : str) (example : BoundaryExample)
    : BoundaryExample :=
  {| original_text := original_text example;
     seams_sentences := seams_sentences example;
     comparison_sentences := comparison_sentences example;
     comparison_method := comparison_method example;
     nupunkt_sentences := nupunkt_sentences example;
     pysbd_sentences := pysbd_sentences example;
     source_file := name;
     start_line := start_line example;
     end_line := end_line example;
     complexity := complexity example;
     disagreement_type := disagreement_type example |}.

Section WithSegmenters.

Variable env : Segmenters.

(** [analyze_boundary_disagreements]; [None] is an exception that leaves
    the function, which has no handler of its own. *)
Definition analyze_boundary_disagreements (pair : FilePair)
    : option (list BoundaryExample) :=
  match original_file pair with
  | None => Some []
  | Some _ =>
      let seams_sentences := parse_seams_with_coordinates (seams_file pair) in
      let comparison_sentences :=
        parse_comparison_sentences (comparison_file pair) in
      let original_lines := load_original_lines (original_file pair) in
      match seams_sentences, comparison_sentences, original_lines with
      | _ :: _, _ :: _, _ :: _ =>
          bind (find_overlapping_regions env seams_sentences
                  comparison_sentences original_lines (pair_method pair))
               (fun examples =>
          Some (map (with_source_file (original_name pair)) examples))
      | _, _, _ => Some []
      end
  end.

Context {S : Type} {RS : RandomSource S}.

(** [build_boundary_gold_set], whole: the choice of the files, the loop
    over them, and the sampler of lines 408 to 432.  [None] is an
    exception: [random.sample] refuses a negative size, and nothing
    catches what [analyze_boundary_disagreements] lets through. *)
Definition build_boundary_gold_set (st : S) (file_pairs : list FilePair)
    (max_files : Z) (target_size : nat)
    : option (list BoundaryExample * S) :=
  bind (if negb (max_files =? 0)%Z && (len file_pairs >? max_files)%Z
        then if (max_files <? 0)%Z then None
             else Some (random_sample st file_pairs (Z.to_nat max_files))
        else Some (file_pairs, st)) (fun chosen =>
  bind (mapM analyze_boundary_disagreements (fst chosen)) (fun found =>
  Some (BoundaryGold.build_boundary_gold_set (snd chosen) (concat found)
          target_size))).

End WithSegmenters.

End BoundaryGoldBuilder.

(** ** [find_seams_differences.py]: all the files, and the export *)

Module SeamsDifferencesRun.
Import Py SeamsFormat SeamsDifferences.

(** What the walk over the corpus finds for one original file: its decoded
    text ([None] when it cannot be read), its path as a string, and the
    lines of the seams file next to it ([None] when there is none). *)
Record CorpusFile : Type := {
  original_file : option str;
  original_name : str;
  seams_file : option (list str)
}.

Section WithSegmenters.

Variable env : Segmenters.

(** [find_differences_in_file_pair], whole: the seams file is parsed
    first. *)
Definition find_differences_in_file (original_file : option str)
    (original_name : str) (seams_lines : list str)
    : option (list SeamsDifference) :=
  find_differences_in_file_pair env original_file original_name
    (parse_seams_file seams_lines).

(** The loop of [find_all_differences], from [files_processed] on. *)
Fixpoint differences_loop (files : list CorpusFile)
    (files_processed max_files : Z) : option (list SeamsDifference) :=
  match files with
  | [] => Some []
  | file :: rest =>
      if (files_processed >=? max_files)%Z then Some []
      else
        match seams_file file with
        | Some seams_lines =>
            bind (find_differences_in_file (original_file file)
                    (original_name file) seams_lines)
                 (fun file_differences =>
            bind (differences_loop rest (files_processed + 1) max_files)
                 (fun differences =>
            Some (file_differences ++ differences)))
        | None => differences_loop rest files_processed max_files
        end
  end.

(** [find_all_differences] *)
Definition find_all_differences (files : list CorpusFile) (max_files : Z)
    : option (list SeamsDifference) :=
  differences_loop files 0 max_files.

End WithSegmenters.

(** The ["metadata"] object of [export_differences]: its four counts. *)
Record Metadata : Type := {
  total_differences : nat;
  pysbd_differences : nat;
  nupunkt_differences : nat;
  both_differences : nat
}.

Definition metadata (differences : list SeamsDifference) : Metadata :=
  {| total_differences := length differences;
     pysbd_differences := length (filter differs_from_pysbd differences);
     nupunkt_differences := length (filter differs_from_nupunkt differences);
     both_differences :=
       length (filter (fun d => differs_from_pysbd d && differs_from_nupunkt d)
                      differences) |}.

(** An entry of the ["differences"] array: the record with its position and
    its three sentence counts. *)
Record Entry : Type := {
  id : nat;
  difference : SeamsDifference;
  seams_count : nat;
  pysbd_count : nat;
  nupunkt_count : nat
}.

(** The loop [for i, diff in enumerate(differences)], from position [i]. *)
Fixpoint entries_from (i : nat) (differences : list SeamsDifference)
    : list Entry :=
  match differences with
  | [] => []
  | diff :: rest =>
      {| id := i;
         difference := diff;
         seams_count := length (seams_sentences diff);
         pysbd_count := length (pysbd_sentences diff);
         nupunkt_count := length (nupunkt_sentences diff) |}
      :: entries_from (S i) rest
  end.

(** [export_differences]: what is handed to [json.dump]. *)
Definition export_differences (differences : list SeamsDifference)
    : Metadata * list Entry :=
  (metadata differences, entries_from 0 differences).

End SeamsDifferencesRun.

(** ** [build_seams_disagreement_set.py]: all the files *)

Module SeamsDisagreementRun.
Import Py SeamsFormat SeamsDisagreementSet.

(** A valid file pair: the original file (its decoded text, or [None] when
    it cannot be read), its path as a string, and the lines of its seams
    file. *)
Record FilePair : Type := {
  original_file : option str;
  original_name : str;
  seams_file : list str
}.

Section WithCollaborators.

Variable env : Segmenters.
Variable analyze_text_complexity : str -> list str.

(** [find_disagreements_in_file_pair], whole: the seams file is parsed
    first. *)
Definition find_disagreements_in_file (pair : FilePair)
    : list SeamsDisagreement :=
  find_disagreements_in_file_pair env analyze_text_complexity
    (original_file pair) (original_name pair)
    (parse_seams_file (seams_file pair)).

(** The loop of [find_all_disagreements] over the files to process, with
    its [break]. *)
Fixpoint disagreements_loop (files : list FilePair)
    (disagreements : list SeamsDisagreement) (target_size : Z)
    : list SeamsDisagreement :=
  match files with
  | [] => disagreements
  | file_pair :: rest =>
      let disagreements :=
        disagreements ++ find_disagreements_in_file file_pair in
      if (len disagreements >=? target_size)%Z then disagreements
      else disagreements_loop rest disagreements target_size
  end.

Definition high_priority (d : SeamsDisagreement) : bool :=
  str_eqb (disagreement_type d) (lit "seams_vs_both").

Definition medium_priority (d : SeamsDisagreement) : bool :=
  mem str_eqb (disagreement_type d)
      [lit "seams_vs_pysbd"; lit "seams_vs_nupunkt"].

Context {S : Type} {RS : RandomSource S}.

(** [find_all_disagreements], from the valid file pairs on. *)
Definition find_all_disagreements (st : S) (valid_file_pairs : list FilePair)
    (max_files target_size : Z) : list SeamsDisagreement * S :=
  let shuffled := BoundaryGold.random_shuffle st valid_file_pairs in
  let disagreements :=
    disagreements_loop (slice_to (fst shuffled) max_files) [] target_size in
  let prioritized :=
    filter high_priority disagreements
    ++ filter medium_priority disagreements in
  (slice_to prioritized target_size, snd shuffled).

End WithCollaborators.

End SeamsDisagreementRun.

(** ** A corpus of one book, as files *)

Module Corpus.
Import Py SeamsFormat.

Local Open Scope string_scope.
Local Open Scope list_scope.

Definition seams_line (ident text coords : string) : str :=
  lit ident ++ tab :: lit text ++ tab :: lit coords ++ [newline].

(** The seams file of the two-line document. *)
Definition rain_seams_file : list str :=
  [seams_line "1" "It was late in the autumn of that year." "(1,1,1,40)";
   seams_line "2" "Nobody was about." "(1,41,1,58)";
   seams_line "3" "The rain stopped." "(2,1,2,18)";
   seams_line "4" "He said nothing at all." "(2,19,2,42)";
   seams_line "5" "They walked home in silence." "(2,43,2,71)"].

(** Its fast sentence file, with a comment line at the top. *)
Definition rain_fast_file : list str :=
  [lit "# sentence" ++ tab :: lit "text" ++ [newline];
   lit "1" ++ tab :: lit "It was late in the autumn of that year." ++ [newline];
   lit "2" ++ tab :: lit "Nobody was about." ++ [newline];
   lit "3" ++ tab :: lit "The rain stopped. He said nothing at all."
     ++ [newline];
   lit "4" ++ tab :: lit "They walked home in silence." ++ [newline]].

Definition rain_pair : SeamsDisagreementRun.FilePair :=
  {| SeamsDisagreementRun.original_file := Some Scenarios.rain_document;
     SeamsDisagreementRun.original_name := lit "rain-0.txt";
     SeamsDisagreementRun.seams_file := rain_seams_file |}.

Definition rain_corpus_file : SeamsDifferencesRun.CorpusFile :=
  {| SeamsDifferencesRun.original_file := Some Scenarios.rain_document;
     SeamsDifferencesRun.original_name := lit "rain-0.txt";
     SeamsDifferencesRun.seams_file := Some rain_seams_file |}.

Definition rain_file_pair : BoundaryGoldBuilder.FilePair :=
  {| BoundaryGoldBuilder.seams_file := rain_seams_file;
     BoundaryGoldBuilder.comparison_file := rain_fast_file;
     BoundaryGoldBuilder.original_file := Some Scenarios.rain_document;
     BoundaryGoldBuilder.pair_method := lit "fast";
     BoundaryGoldBuilder.original_name := lit "rain.txt" |}.

End Corpus.

(** * Properties *)

Import Py.

Unset Implicit Arguments.

(** ** The classifiers and the equivalence test *)

Section Classifiers.

Import SeamsDisagreementSet.

Lemma similar_needs_equal_counts (threshold : Q) (a b : list str) :
  sentences_are_similar_at threshold a b = true -> length a = length b.
Proof.
  unfold sentences_are_similar_at.
  destruct (Nat.eqb_spec (length a) (length b)) as [E | E]; simpl.
  - intros _. exact E.
  - discriminate.
Qed.

Lemma similar_false_of_counts (threshold : Q) (a b : list str) :
  length a <> length b -> sentences_are_similar_at threshold a b = false.
Proof.
  intros E. destruct (sentences_are_similar_at threshold a b) eqn:H.
  - apply similar_needs_equal_counts in H. contradiction.
  - reflexivity.
Qed.

Lemma len_gtb_length {A B : Type} (x : list A) (y : list B) :
  (len x >? len y)%Z = (length y <? length x).
Proof.
  unfold len. rewrite Z.gtb_ltb.
  destruct (Nat.ltb_spec (length y) (length x));
    [apply Z.ltb_lt | apply Z.ltb_ge]; lia.
Qed.

Lemma len_ltb_length {A B : Type} (x : list A) (y : list B) :
  (len x <? len y)%Z = (length x <? length y).
Proof.
  unfold len.
  destruct (Nat.ltb_spec (length x) (length y));
    [apply Z.ltb_lt | apply Z.ltb_ge]; lia.
Qed.

(** The two-way classifier seen through the two counts alone. *)
Lemma classify_two_way_cases (primary other : list str) :
  (length primary < length other
   /\ BoundaryGold.classify_disagreement primary other = lit "over_split")
  \/ (length other < length primary
      /\ BoundaryGold.classify_disagreement primary other = lit "under_split")
  \/ (length other = length primary
      /\ BoundaryGold.classify_disagreement primary other
         = lit "different_boundaries").
Proof.
  unfold BoundaryGold.classify_disagreement.
  rewrite len_gtb_length, len_ltb_length.
  destruct (Nat.ltb_spec (length primary) (length other)); [left; now split|].
  destruct (Nat.ltb_spec (length other) (length primary)).
  - right; left; now split.
  - right; right; split; [lia | reflexivity].
Qed.

(** C1, as stated, fails: two equivalent lists are not classified
    NO_DISAGREEMENT.  A one-sentence list against itself is equivalent under
    the equivalence test, and the two-way classifier answers
    'different_boundaries'. *)
Lemma classify_two_way_equivalent_lists :
  sentences_are_similar [lit "She left."] [lit "She left."] = true
  /\ BoundaryGold.classify_disagreement [lit "She left."] [lit "She left."]
     = lit "different_boundaries"
  /\ lit "different_boundaries" <> lit "no_disagreement".
Proof.
  split; [vm_compute; reflexivity|].
  split; [vm_compute; reflexivity|].
  discriminate.
Qed.

(** C1 (amended): for every pair of sentence lists the two-way classifier
    returns 'over_split' if and only if [other] has more sentences than
    [primary] and the lists are not equivalent, 'under_split' if and only if
    it has fewer and they are not equivalent, and 'different_boundaries'
    whenever the counts are equal, whether or not the lists are equivalent;
    it never returns 'no_disagreement'. *)
Theorem classify_two_way_by_counts (primary other : list str) :
  (BoundaryGold.classify_disagreement primary other = lit "over_split"
   <-> length other > length primary
       /\ sentences_are_similar primary other = false)
  /\ (BoundaryGold.classify_disagreement primary other = lit "under_split"
      <-> length other < length primary
          /\ sentences_are_similar primary other = false)
  /\ (BoundaryGold.classify_disagreement primary other
        = lit "different_boundaries"
      <-> length other = length primary)
  /\ BoundaryGold.classify_disagreement primary other <> lit "no_disagreement".
Proof.
  destruct (classify_two_way_cases primary other)
    as [[Hn Hc] | [[Hn Hc] | [Hn Hc]]]; rewrite Hc;
    (split; [|split; [|split]]); try discriminate;
    (split;
     [ intros H; try discriminate H;
       try (split; [lia | apply similar_false_of_counts; lia]); lia
     | intros H; try reflexivity;
       match type of H with
       | _ /\ _ => destruct H as [H _]; lia
       | _ => lia
       end ]).
Qed.

(** C2: the three-way classifier answers 'seams_vs_both' (PRIMARY_VS_BOTH)
    exactly when the primary is equivalent to neither reference and the two
    references are equivalent to each other at the default threshold; in
    particular when the references have the same count and a normalized
    similarity of 0.97 and the primary disagrees with both. *)
Theorem classify_three_way_primary_vs_both (primary ref_a ref_b : list str) :
  (classify_disagreement primary ref_a ref_b = lit "seams_vs_both"
   <-> sentences_are_similar primary ref_a = false
       /\ sentences_are_similar primary ref_b = false
       /\ sentences_are_similar ref_a ref_b = true)
  /\ (length ref_a = length ref_b ->
      Qeq (Difflib.ratio
             (join [space] (map normalize_for_comparison ref_a))
             (join [space] (map normalize_for_comparison ref_b)))
          (Qmake 97 100) ->
      sentences_are_similar primary ref_a = false ->
      sentences_are_similar primary ref_b = false ->
      classify_disagreement primary ref_a ref_b = lit "seams_vs_both").
Proof.
  assert (Hiff :
    classify_disagreement primary ref_a ref_b = lit "seams_vs_both"
    <-> sentences_are_similar primary ref_a = false
        /\ sentences_are_similar primary ref_b = false
        /\ sentences_are_similar ref_a ref_b = true).
  { unfold classify_disagreement.
    destruct (sentences_are_similar primary ref_a),
             (sentences_are_similar primary ref_b),
             (sentences_are_similar ref_a ref_b); simpl;
      split; try discriminate; try (intros (? & ? & ?); discriminate);
      auto. }
  split; [exact Hiff|].
  intros Hlen Hratio Ha Hb. apply Hiff. repeat split; trivial.
  unfold sentences_are_similar, sentences_are_similar_at.
  rewrite Hlen, Nat.eqb_refl. simpl.
  unfold Difflib.ge. apply Qle_bool_iff. rewrite Hratio.
  unfold Qle; simpl; lia.
Qed.

End Classifiers.

Section Equivalence.

Import SeamsScripts SeamsDisagreementSet SeamsDifferences.

(** C2, on an instance: two one-sentence references of 100 characters that
    share 97, against a primary of two sentences. *)
Lemma classify_three_way_scenario :
  length Scenarios.hall_a = length Scenarios.hall_b
  /\ Qeq (Difflib.ratio
            (join [space] (map normalize_for_comparison Scenarios.hall_a))
            (join [space] (map normalize_for_comparison Scenarios.hall_b)))
         (Qmake 97 100)
  /\ classify_disagreement Scenarios.hall_primary Scenarios.hall_a
       Scenarios.hall_b = lit "seams_vs_both".
Proof.
  split; [reflexivity|].
  split; [vm_compute; reflexivity|].
  apply (proj2 (classify_three_way_primary_vs_both
                  Scenarios.hall_primary Scenarios.hall_a Scenarios.hall_b)).
  - reflexivity.
  - vm_compute; reflexivity.
  - vm_compute; reflexivity.
  - vm_compute; reflexivity.
Defined.

(** C3: two sentence lists of different counts are never equivalent,
    whatever the threshold and whatever their texts: the count is compared
    first, and the similarity of the texts is not consulted.  The exact
    comparison of [find_seams_differences.py] reports a difference in the
    same case. *)
Theorem count_mismatch_is_decisive (threshold : Q) (a b : list str) :
  length a <> length b ->
  sentences_are_similar_at threshold a b = false
  /\ sentences_are_similar a b = false
  /\ segmentations_differ a b = true.
Proof.
  intros Hne. split; [|split].
  - now apply similar_false_of_counts.
  - now apply similar_false_of_counts.
  - unfold segmentations_differ.
    destruct (Nat.eqb_spec (length a) (length b)); [contradiction | reflexivity].
Qed.

(** C3, on an instance: the same words cut once and cut twice have the same
    normalized text, and still are not equivalent, even at threshold 0. *)
Lemma count_mismatch_same_text :
  join [space] (map normalize_text Scenarios.left_one)
    = join [space] (map normalize_text Scenarios.left_two)
  /\ sentences_are_similar_at (Qmake 0 1) Scenarios.left_one Scenarios.left_two
     = false
  /\ sentences_are_similar Scenarios.left_one Scenarios.left_two = false
  /\ segmentations_differ Scenarios.left_one Scenarios.left_two = true.
Proof.
  split; [reflexivity|].
  apply (count_mismatch_is_decisive (Qmake 0 1)
           Scenarios.left_one Scenarios.left_two).
  simpl. lia.
Defined.

End Equivalence.

(** ** Facts about the built-ins *)

Section Builtins.

Context {A : Type}.

Lemma dropwhile_suffix (p : A -> bool) (l : list A) :
  exists pre, l = pre ++ dropwhile p l.
Proof.
  induction l as [|x l [pre IH]]; simpl.
  - exists []. reflexivity.
  - destruct (p x).
    + exists (x :: pre). simpl. now rewrite <- IH.
    + exists []. reflexivity.
Qed.

Lemma dropwhile_head_false (p : A -> bool) (x : A) (l : list A) :
  p x = false -> dropwhile p (x :: l) = x :: l.
Proof. intros H. simpl. now rewrite H. Qed.

Lemma len_nonneg (l : list A) : (0 <= len l)%Z.
Proof. unfold len. lia. Qed.

Lemma len_app (l1 l2 : list A) : len (l1 ++ l2) = (len l1 + len l2)%Z.
Proof. unfold len. rewrite length_app. lia. Qed.

Lemma len_cons (x : A) (l : list A) : len (x :: l) = (1 + len l)%Z.
Proof. unfold len. cbn [length]. lia. Qed.

Lemma len_nil : len (@nil A) = 0%Z.
Proof. reflexivity. Qed.

Lemma getitem_nonneg (l : list A) (i : Z) :
  (0 <= i)%Z -> getitem l i = nth_error l (Z.to_nat i).
Proof.
  intros Hi. unfold getitem.
  destruct (Z.ltb_spec i 0); [lia|].
  destruct (Z.ltb_spec i 0); [lia|]. reflexivity.
Qed.

Lemma getitem_Some_lt (l : list A) (i : Z) (x : A) :
  (0 <= i)%Z -> getitem l i = Some x -> (i < len l)%Z.
Proof.
  intros Hi H. rewrite getitem_nonneg in H by exact Hi.
  assert (Z.to_nat i < length l) by (apply nth_error_Some; congruence).
  unfold len. lia.
Qed.

Lemma clamp_nonneg (n i : Z) : (0 <= i)%Z -> clamp n i = Z.min i n.
Proof. intros Hi. unfold clamp. destruct (Z.ltb_spec i 0); [lia | reflexivity]. Qed.

(** Within the first part of a concatenation, a slice with bounds counted
    from the left does not see the second part. *)
Lemma slice_app_l (x t : list A) (i j : Z) :
  (0 <= i)%Z -> (0 <= j <= len x)%Z -> slice (x ++ t) i j = slice x i j.
Proof.
  intros Hi Hj. unfold slice.
  rewrite !clamp_nonneg by lia. rewrite len_app.
  pose proof (len_nonneg t) as Ht.
  replace (Z.min j (len x + len t)) with j by lia.
  replace (Z.min j (len x)) with j by lia.
  destruct (Z.le_gt_cases i (len x)) as [Hle | Hgt].
  - replace (Z.min i (len x + len t)) with i by lia.
    replace (Z.min i (len x)) with i by lia.
    rewrite skipn_app, firstn_app.
    replace (Z.to_nat (j - i) - length (skipn (Z.to_nat i) x)) with 0.
    + simpl. now rewrite app_nil_r.
    + rewrite length_skipn. unfold len in *. lia.
  - replace (Z.to_nat (j - Z.min i (len x + len t))) with 0 by lia.
    replace (Z.to_nat (j - Z.min i (len x))) with 0 by lia.
    reflexivity.
Qed.

Lemma slice_from_app_l (x t : list A) (i : Z) :
  (0 <= i <= len x)%Z -> slice_from (x ++ t) i = slice_from x i ++ t.
Proof.
  intros Hi. unfold slice_from. rewrite !clamp_nonneg by lia.
  rewrite len_app. pose proof (len_nonneg t).
  replace (Z.min i (len x + len t)) with i by lia.
  replace (Z.min i (len x)) with i by lia.
  rewrite skipn_app.
  replace (Z.to_nat i - length x) with 0 by (unfold len in *; lia).
  reflexivity.
Qed.

Lemma slice_to_app_l (x t : list A) (j : Z) :
  (0 <= j <= len x)%Z -> slice_to (x ++ t) j = slice_to x j.
Proof.
  intros Hj. unfold slice_to. rewrite !clamp_nonneg by lia.
  rewrite len_app. pose proof (len_nonneg t).
  replace (Z.min j (len x + len t)) with j by lia.
  replace (Z.min j (len x)) with j by lia.
  rewrite firstn_app.
  replace (Z.to_nat j - length x) with 0 by (unfold len in *; lia).
  simpl. now rewrite app_nil_r.
Qed.

End Builtins.

Lemma rstrip_by_prefix (p : ascii -> bool) (s : str) :
  exists t, s = rstrip_by p s ++ t.
Proof.
  unfold rstrip_by.
  destruct (dropwhile_suffix p (rev s)) as [pre H].
  exists (rev pre).
  rewrite <- rev_app_distr, <- H. now rewrite rev_involutive.
Qed.

(** ** The lines of a document *)

Section Lines.

Import LineShape.

Lemma universal_newlines_no_cr (s : str) :
  Forall (fun c => Ascii.eqb c carriage_return = false) (universal_newlines s).
Proof.
  assert (H : forall n t, length t <= n ->
            Forall (fun c => Ascii.eqb c carriage_return = false)
                   (universal_newlines t)).
  { induction n as [|n IH]; intros t Hn.
    - destruct t; [constructor | simpl in Hn; lia].
    - destruct t as [|c t']; [constructor|].
      cbn [universal_newlines].
      destruct (Ascii.eqb c carriage_return) eqn:E.
      + constructor; [reflexivity|].
        destruct t' as [|c' t'']; [constructor|].
        destruct (Ascii.eqb c' newline); apply IH; simpl in Hn |- *; lia.
      + constructor; [exact E|]. apply IH. simpl in Hn; lia. }
  apply (H (length s)). lia.
Qed.

Lemma split_lines_ok (s : str) :
  Forall (fun c => Ascii.eqb c carriage_return = false) s ->
  lines_ok (split_lines s).
Proof.
  induction s as [|c t IH]; intros Hs; [constructor|].
  inversion Hs as [|? ? Hc Ht]; subst. specialize (IH Ht).
  cbn [split_lines].
  destruct (Ascii.eqb c newline) eqn:E.
  - apply Ascii.eqb_eq in E. subst c.
    apply (@lines_cons [] (split_lines t)); [constructor | exact IH].
  - assert (Hclean : is_nl_cr c = false)
      by (unfold is_nl_cr; now rewrite E, Hc).
    destruct (split_lines t) as [|l ls].
    + apply lines_last; [repeat constructor; exact Hclean | discriminate].
    + inversion IH as [| c0 Hc0 Hne | c0 ls0 Hc0 Hls]; subst.
      * apply lines_last; [constructor; assumption | discriminate].
      * apply (@lines_cons (c :: c0) ls); [constructor; assumption | exact Hls].
Qed.

Lemma readlines_ok (text : str) : lines_ok (readlines text).
Proof. apply split_lines_ok, universal_newlines_no_cr. Qed.

Lemma lines_ok_app_r (a b : list str) : lines_ok (a ++ b) -> lines_ok b.
Proof.
  induction a as [|x a IH]; simpl; [trivial|].
  intros H. inversion H as [| c Hc Hne Heq | c ls Hc Hls]; subst.
  - destruct a, b; try discriminate. constructor.
  - now apply IH.
Qed.

Lemma lines_ok_app_l (a b : list str) :
  lines_ok (a ++ b) -> b <> [] -> Forall terminated a.
Proof.
  induction a as [|x a IH]; simpl; intros H Hb; [constructor|].
  inversion H as [| c Hc Hne Heq | c ls Hc Hls]; subst.
  - destruct a, b; try discriminate. contradiction.
  - constructor; [exists c; now split | now apply IH].
Qed.

Lemma lines_ok_head (l : str) (ls : list str) :
  lines_ok (l :: ls) ->
  exists c t, l = c ++ t /\ clean c /\ (t = [] \/ t = [newline]).
Proof.
  intros H. inversion H as [| c Hc Hne | c ls0 Hc Hls]; subst.
  - exists l, []. rewrite app_nil_r. auto.
  - exists c, [newline]. auto.
Qed.

Lemma dropwhile_rev_clean (c : str) :
  clean c -> dropwhile is_nl_cr (rev c) = rev c.
Proof.
  intros Hc. destruct (rev c) as [|x r] eqn:E; [reflexivity|].
  apply dropwhile_head_false.
  assert (Hin : In x c) by (apply in_rev; rewrite E; now left).
  unfold clean in Hc. rewrite Forall_forall in Hc. now apply Hc.
Qed.

Lemma rstrip_nl_clean (c : str) : clean c -> rstrip_nl c = c.
Proof.
  intros Hc. unfold rstrip_nl, rstrip_by.
  rewrite dropwhile_rev_clean by exact Hc. apply rev_involutive.
Qed.

Lemma rstrip_nl_terminated (c : str) :
  clean c -> rstrip_nl (c ++ [newline]) = c.
Proof.
  intros Hc. unfold rstrip_nl, rstrip_by.
  rewrite rev_app_distr. cbn [rev app dropwhile].
  change (is_nl_cr newline) with true. cbn iota.
  rewrite dropwhile_rev_clean by exact Hc. apply rev_involutive.
Qed.

Lemma clean_not_newline (c : ascii) :
  is_nl_cr c = false -> Ascii.eqb c newline = false.
Proof.
  unfold is_nl_cr. destruct (Ascii.eqb c newline); [discriminate | reflexivity].
Qed.

Lemma split_on_clean (x : str) : clean x -> split_on newline x = [x].
Proof.
  induction x as [|c x IH]; intros Hx; [reflexivity|].
  inversion Hx; subst. cbn [split_on].
  rewrite clean_not_newline by assumption.
  now rewrite IH.
Qed.

Lemma split_on_terminated (x rest : str) :
  clean x ->
  split_on newline (x ++ newline :: rest) = x :: split_on newline rest.
Proof.
  induction x as [|c x IH]; intros Hx.
  - cbn [app split_on]. now rewrite Ascii.eqb_refl.
  - inversion Hx; subst. cbn [app split_on].
    rewrite clean_not_newline by assumption.
    now rewrite IH.
Qed.

Lemma split_on_lines (mid : list str) (x : str) :
  Forall terminated mid -> clean x ->
  split_on newline (concat mid ++ x) = map rstrip_nl mid ++ [x].
Proof.
  intros Hmid Hx. induction Hmid as [|l mid [c [Hc Hl]] _ IH]; simpl.
  - now apply split_on_clean.
  - subst l. rewrite rstrip_nl_terminated by exact Hc.
    rewrite <- !app_assoc. cbn [app].
    rewrite split_on_terminated by exact Hc. now rewrite IH.
Qed.

Lemma clean_skipn (n : nat) (c : str) : clean c -> clean (skipn n c).
Proof.
  unfold clean. intros H. rewrite <- (firstn_skipn n c) in H.
  now apply Forall_app in H.
Qed.

Lemma clean_firstn (n : nat) (c : str) : clean c -> clean (firstn n c).
Proof.
  unfold clean. intros H. rewrite <- (firstn_skipn n c) in H.
  now apply Forall_app in H.
Qed.

Lemma range_nil (lo hi : Z) : (hi <= lo)%Z -> range lo hi = [].
Proof. intros H. unfold range. now replace (Z.to_nat (hi - lo)) with 0 by lia. Qed.

Lemma range_cons (lo hi : Z) :
  (lo < hi)%Z -> range lo hi = lo :: range (lo + 1) hi.
Proof.
  intros H. unfold range.
  replace (Z.to_nat (hi - lo)) with (S (Z.to_nat (hi - (lo + 1)))) by lia.
  cbn [seq map]. f_equal; [lia|].
  rewrite <- seq_shift, map_map. apply map_ext. intros k. lia.
Qed.

Lemma mapM_getitem_range {A : Type} (mid pre post : list A) :
  mapM (getitem (pre ++ mid ++ post))
       (range (len pre) (len pre + len mid)) = Some mid.
Proof.
  revert pre. induction mid as [|x mid IH]; intros pre.
  - rewrite range_nil by (rewrite len_nil; lia). reflexivity.
  - rewrite range_cons
      by (rewrite len_cons; pose proof (len_nonneg mid); lia).
    cbn [mapM].
    rewrite getitem_nonneg by apply len_nonneg.
    unfold len at 1. rewrite Nat2Z.id.
    rewrite nth_error_app2 by lia. rewrite Nat.sub_diag. cbn [nth_error bind app].
    specialize (IH (pre ++ [x])).
    rewrite <- app_assoc in IH. cbn [app] in IH.
    replace (len (pre ++ [x])) with (len pre + 1)%Z in IH
      by (rewrite len_app, len_cons, len_nil; lia).
    replace (len pre + len (x :: mid))%Z with (len pre + 1 + len mid)%Z
      by (rewrite len_cons; lia).
    now rewrite IH.
Qed.

Lemma nth_error_two {A : Type} (l : list A) (i j : nat) (x y : A) :
  i < j -> nth_error l i = Some x -> nth_error l j = Some y ->
  exists pre mid post,
    l = pre ++ x :: mid ++ y :: post
    /\ length pre = i /\ length mid = j - i - 1.
Proof.
  intros Hij Hx Hy.
  destruct (nth_error_split l i Hx) as (pre & rest & Hl & Hpre).
  subst l.
  rewrite nth_error_app2 in Hy by lia.
  replace (j - length pre) with (S (j - i - 1)) in Hy by lia.
  cbn [nth_error] in Hy.
  destruct (nth_error_split rest (j - i - 1) Hy) as (mid & post & Hr & Hmid).
  subst rest. exists pre, mid, post. auto.
Qed.

Lemma lines_ok_span (pre mid post : list str) (first last : str) :
  lines_ok (pre ++ first :: mid ++ last :: post) ->
  terminated first /\ Forall terminated mid
  /\ exists c t, last = c ++ t /\ clean c /\ (t = [] \/ t = [newline]).
Proof.
  intros H. apply lines_ok_app_r in H.
  change (first :: mid ++ last :: post)
    with ((first :: mid) ++ last :: post) in H.
  assert (Hterm : Forall terminated (first :: mid))
    by (eapply lines_ok_app_l; [exact H | discriminate]).
  apply lines_ok_app_r in H. apply lines_ok_head in H.
  inversion Hterm; subst. auto.
Qed.

Lemma rstrip_nl_line (c t : str) :
  clean c -> t = [] \/ t = [newline] -> rstrip_nl (c ++ t) = c.
Proof.
  intros Hc [Ht | Ht]; subst t.
  - rewrite app_nil_r. now apply rstrip_nl_clean.
  - now apply rstrip_nl_terminated.
Qed.

End Lines.

(** ** The coordinate extractor *)

Section Extractor.

Import SeamsScripts.

Local Open Scope Z_scope.

(** C4: on a span that stays on one line of the document, with 1-based
    columns and an end column that is within the line, the display
    extraction and the verbatim extraction both return
    [line[start_col-1 : end_col-1]], [line] being the line without its
    line separator. *)
Theorem same_line_extraction (text : str) (l sc ec : Z) (raw : str) :
  1 <= l ->
  getitem (readlines text) (l - 1) = Some raw ->
  1 <= sc -> 1 <= ec ->
  ec - 1 <= len (rstrip_nl raw) ->
  BoundaryGold.extract_original_region (readlines text) l sc l ec
    = Some (slice (rstrip_nl raw) (sc - 1) (ec - 1))
  /\ extract_original_text_from_coordinates (Some text) l sc l ec
     = slice (rstrip_nl raw) (sc - 1) (ec - 1).
Proof.
  intros Hl Hraw Hsc Hec Hin.
  assert (Hlt : l - 1 < len (readlines text))
    by (eapply getitem_Some_lt; [lia | exact Hraw]).
  split.
  - unfold BoundaryGold.extract_original_region.
    destruct (Z.gtb_spec l (len (readlines text))); [lia|]. simpl.
    rewrite Z.eqb_refl, Hraw. simpl.
    destruct (Z.leb_spec (ec - 1) (len (rstrip_nl raw))); [reflexivity | lia].
  - unfold extract_original_text_from_coordinates, extract_from_lines.
    rewrite Z.eqb_refl, Hraw. simpl.
    destruct (rstrip_by_prefix is_nl_cr raw) as [t Ht].
    fold (rstrip_nl raw) in Ht.
    rewrite Ht at 1. apply slice_app_l; lia.
Qed.

(** C5: on a span over several lines, within the bounds of the document
    (lines in the document, 1-based columns within their lines), the
    verbatim extraction is the first line from [start_col] on, the interior
    lines in full and the last line up to [end_col], concatenated as they
    stand in the file, line breaks kept and nothing inserted; split again at
    the line breaks it gives the suffix of the first line, the interior
    lines and the prefix of the last line. *)
Theorem multi_line_verbatim_extraction (text : str) (sl sc el ec : Z)
    (first last : str) :
  1 <= sl -> sl < el ->
  getitem (readlines text) (sl - 1) = Some first ->
  getitem (readlines text) (el - 1) = Some last ->
  1 <= sc <= len (rstrip_nl first) + 1 ->
  1 <= ec <= len (rstrip_nl last) + 1 ->
  let interior := slice (readlines text) sl (el - 1) in
  let result :=
    extract_original_text_from_coordinates (Some text) sl sc el ec in
  result = slice_from first (sc - 1) ++ concat interior
           ++ slice_to last (ec - 1)
  /\ split_on newline result
     = slice_from (rstrip_nl first) (sc - 1)
       :: map rstrip_nl interior ++ [slice_to (rstrip_nl last) (ec - 1)].
Proof.
  intros Hsl Hlt Hfirst Hlast Hsc Hec interior result.
  assert (Hfirst' := Hfirst). assert (Hlast' := Hlast).
  rewrite getitem_nonneg in Hfirst', Hlast' by lia.
  destruct (nth_error_two (readlines text) (Z.to_nat (sl - 1))
              (Z.to_nat (el - 1)) first last ltac:(lia) Hfirst' Hlast')
    as (pre & mid & post & Hl & Hpre & Hmid).
  pose proof (readlines_ok text) as Hok. rewrite Hl in Hok.
  apply lines_ok_span in Hok.
  destruct Hok as ((c1 & Hc1 & Hf) & Hterm & (cl & t & Hla & Hcl & Ht)).
  assert (Hr1 : rstrip_nl first = c1)
    by (subst first; now apply rstrip_nl_terminated).
  assert (Hrl : rstrip_nl last = cl)
    by (subst last; now apply rstrip_nl_line).
  rewrite Hr1 in *. rewrite Hrl in *.
  assert (Hlen_pre : len pre = sl - 1) by (unfold len; lia).
  assert (Hlen_mid : len mid = el - 1 - sl) by (unfold len; lia).
  assert (Hint : interior = mid).
  { unfold interior, slice. rewrite Hl.
    rewrite !clamp_nonneg by lia.
    rewrite !len_app. change (len (first :: mid ++ last :: post))
      with (len ((first :: mid) ++ last :: post)).
    rewrite len_app.
    assert (len (first :: mid) = 1 + len mid) by apply len_cons.
    assert (0 < len (last :: post))
      by (rewrite len_cons; pose proof (len_nonneg post); lia).
    replace (Z.min sl (len pre + (len (first :: mid) + len (last :: post))))
      with sl by lia.
    replace (Z.min (el - 1)
               (len pre + (len (first :: mid) + len (last :: post))))
      with (el - 1) by lia.
    replace (pre ++ first :: mid ++ last :: post)
      with ((pre ++ [first]) ++ mid ++ last :: post)
      by (rewrite <- app_assoc; reflexivity).
    rewrite skipn_app.
    rewrite skipn_all2 by (rewrite length_app; simpl; lia).
    replace (Z.to_nat sl - length (pre ++ [first]))%nat with 0%nat
      by (rewrite length_app; simpl; lia).
    cbn [skipn app].
    rewrite firstn_app.
    replace (Z.to_nat (el - 1 - sl)) with (length mid) by lia.
    rewrite firstn_all, Nat.sub_diag. cbn [firstn]. apply app_nil_r. }
  assert (Hres : result = slice_from first (sc - 1) ++ concat mid
                          ++ slice_to last (ec - 1)).
  { unfold result, extract_original_text_from_coordinates, extract_from_lines.
    destruct (Z.eqb_spec (sl - 1) (el - 1)); [lia|].
    rewrite Hfirst, Hlast. cbn [bind].
    replace (readlines text)
      with ((pre ++ [first]) ++ mid ++ last :: post)
      by (rewrite Hl, <- app_assoc; reflexivity).
    replace (sl - 1 + 1) with (len (pre ++ [first]))
      by (rewrite len_app, len_cons, len_nil; lia).
    replace (el - 1) with (len (pre ++ [first]) + len mid)
      by (rewrite len_app, len_cons, len_nil; lia).
    rewrite mapM_getitem_range. reflexivity. }
  rewrite Hint. split; [exact Hres|].
  rewrite Hres. subst first last.
  rewrite slice_from_app_l by lia.
  rewrite slice_to_app_l by lia.
  rewrite <- !app_assoc. cbn [app].
  unfold slice_from at 1.
  rewrite split_on_terminated by (apply clean_skipn; exact Hc1).
  rewrite split_on_lines;
    [reflexivity | exact Hterm | apply clean_firstn; exact Hcl].
Qed.

(** C4, on an instance: line 3 is "The quick brown fox" and the span
    (3,1,3,4) extracts "The". *)
Lemma same_line_extraction_fox :
  getitem (readlines Scenarios.fox_document) 2
    = Some (lit "The quick brown fox" ++ [newline])
  /\ BoundaryGold.extract_original_region
       (readlines Scenarios.fox_document) 3 1 3 4 = Some (lit "The")
  /\ extract_original_text_from_coordinates
       (Some Scenarios.fox_document) 3 1 3 4 = lit "The".
Proof.
  split; [reflexivity|].
  refine (same_line_extraction Scenarios.fox_document 3 1 4
            (lit "The quick brown fox" ++ [newline]) _ _ _ _ _).
  - lia.
  - reflexivity.
  - lia.
  - lia.
  - vm_compute. discriminate.
Defined.

(** C5, on an instance: from column 9 of line 1 to column 6 of line 4. *)
Lemma multi_line_verbatim_extraction_fox :
  extract_original_text_from_coordinates (Some Scenarios.fox_document) 1 9 4 6
    = lit "One" ++ [newline] ++ [newline]
      ++ lit "The quick brown fox" ++ [newline] ++ lit "jumps"
  /\ split_on newline
       (extract_original_text_from_coordinates
          (Some Scenarios.fox_document) 1 9 4 6)
     = [lit "One"; []; lit "The quick brown fox"; lit "jumps"].
Proof.
  refine (multi_line_verbatim_extraction Scenarios.fox_document 1 9 4 6
            (lit "Chapter One" ++ [newline])
            (lit "jumps over the lazy dog." ++ [newline]) _ _ _ _ _ _).
  - lia.
  - lia.
  - reflexivity.
  - reflexivity.
  - vm_compute. split; discriminate.
  - vm_compute. split; discriminate.
Defined.

End Extractor.

(** ** The boundary gold-set builder: chunks and examples *)

Section BoundaryRegions.

Import BoundaryGold.

Variable env : Segmenters.
Variables comparison_sentences_in original_lines : list str.
Variable comparison_method_in : str.

Lemma extract_out_of_range (sl sc el ec : Z) :
  (sl > len original_lines \/ el > len original_lines)%Z ->
  extract_original_region original_lines sl sc el ec = Some [].
Proof.
  intros H. unfold extract_original_region.
  destruct (Z.gtb_spec sl (len original_lines)); [reflexivity|].
  destruct (Z.gtb_spec el (len original_lines)); [reflexivity|].
  lia.
Qed.


Lemma region_step_examples (fast_idx fast_idx' : nat)
    (group : list SeamsSentence) (out : list BoundaryExample) :
  region_step env comparison_sentences_in original_lines comparison_method_in
    fast_idx group = Some (fast_idx', out) ->
  forall ex, In ex out ->
    length (comparison_sentences ex) <> 0
    /\ length (comparison_sentences ex) <> length (seams_sentences ex)
    /\ disagreement_type ex
       = classify_disagreement (seams_sentences ex) (comparison_sentences ex).
Proof.
  unfold region_step.
  destruct group as [|first_sent others];
    [intros E; inversion E; subst; intros ? []|].
  destruct (extract_original_region _ _ _ _ _) as [region|];
    [|discriminate].
  cbn [bind].
  destruct (str_eqb region [] || (len region <? 50)%Z);
    [intros E; inversion E; subst; intros ? []|].
  match goal with
  | |- context [negb (?a =? ?b) && negb (?c =? 0)] =>
      destruct (Nat.eqb_spec a b) as [Hab | Hab];
      destruct (Nat.eqb_spec c 0) as [Hc | Hc]; cbn [negb andb]
  end; try (intros E; inversion E; subst; intros ? []).
  destruct (get_nupunkt_pysbd_segmentations env (strip region)) as [nu py].
  destruct (should_filter_example env _);
    intros E; inversion E; subst; intros ex Hin; [destruct Hin|].
  destruct Hin as [<- | []]. cbn.
  repeat split; assumption.
Qed.



Lemma regions_loop_examples (seams_sentences_in : list SeamsSentence)
    (starts : list nat) :
  forall fast_idx examples,
    regions_loop env seams_sentences_in comparison_sentences_in original_lines
      comparison_method_in starts fast_idx = Some examples ->
    forall ex, In ex examples ->
      length (comparison_sentences ex) <> 0
      /\ length (comparison_sentences ex) <> length (seams_sentences ex)
      /\ disagreement_type ex
         = classify_disagreement (seams_sentences ex)
             (comparison_sentences ex).
Proof.
  induction starts as [|seams_start rest IH]; intros fast_idx examples.
  - cbn [regions_loop]. intros E; inversion E; subst. intros ? [].
  - cbn [regions_loop].
    destruct (region_step _ _ _ _ _ _) as [[fast_idx' out]|] eqn:Hstep;
      [|discriminate].
    cbn [bind fst snd].
    destruct (regions_loop _ _ _ _ _ rest fast_idx') as [more|] eqn:Hrest;
      [|discriminate].
    cbn [bind]. intros E; inversion E; subst. intros ex Hin.
    apply in_app_or in Hin. destruct Hin as [Hin | Hin].
    + eapply region_step_examples; eassumption.
    + eapply IH; eassumption.
Qed.

End BoundaryRegions.

Section BoundaryClaims.

Import BoundaryGold SeamsScripts.

Local Open Scope Z_scope.





(** C10: every example that [find_overlapping_regions] returns has a
    non-empty list of comparison sentences whose length differs from that
    of its seams sentences; its disagreement type is therefore 'over_split'
    or 'under_split', never 'different_boundaries'. *)
Theorem examples_disagree_on_counts (env : Segmenters)
    (seams_sentences_in : list SeamsSentence)
    (comparison_sentences_in original_lines : list str)
    (comparison_method_in : str) (examples : list BoundaryExample) :
  find_overlapping_regions env seams_sentences_in comparison_sentences_in
    original_lines comparison_method_in = Some examples ->
  forall ex, In ex examples ->
    comparison_sentences ex <> []
    /\ length (comparison_sentences ex) <> length (seams_sentences ex)
    /\ (disagreement_type ex = lit "over_split"
        \/ disagreement_type ex = lit "under_split")
    /\ disagreement_type ex <> lit "different_boundaries".
Proof.
  intros Hrun ex Hin. unfold find_overlapping_regions in Hrun.
  destruct (regions_loop_examples env comparison_sentences_in original_lines
              comparison_method_in seams_sentences_in _ _ _ Hrun ex Hin)
    as (Hne & Hlen & Htype).
  split; [intros E; rewrite E in Hne; now apply Hne|].
  split; [exact Hlen|].
  rewrite Htype.
  destruct (classify_two_way_cases (seams_sentences ex)
              (comparison_sentences ex))
    as [[Hn Hc] | [[Hn Hc] | [Hn Hc]]]; rewrite Hc.
  - split; [now left | discriminate].
  - split; [now right | discriminate].
  - contradiction.
Qed.

(** C10, on an instance: the example of the two-line document. *)
Lemma examples_disagree_on_counts_rain :
  find_overlapping_regions Scenarios.one_sentence Scenarios.rain_seams
    Scenarios.rain_fast (readlines Scenarios.rain_document) (lit "fast")
  = Some [Scenarios.rain_example]
  /\ (comparison_sentences Scenarios.rain_example <> []
      /\ length (comparison_sentences Scenarios.rain_example)
         <> length (seams_sentences Scenarios.rain_example)
      /\ (disagreement_type Scenarios.rain_example = lit "over_split"
          \/ disagreement_type Scenarios.rain_example = lit "under_split")
      /\ disagreement_type Scenarios.rain_example
         <> lit "different_boundaries").
Proof.
  split; [vm_compute; reflexivity|].
  apply (examples_disagree_on_counts Scenarios.one_sentence
           Scenarios.rain_seams Scenarios.rain_fast
           (readlines Scenarios.rain_document) (lit "fast")
           [Scenarios.rain_example]).
  - vm_compute. reflexivity.
  - left. reflexivity.
Defined.

End BoundaryClaims.

(** ** Which chunks leave a record *)

Section Retention.

Import SeamsScripts.

Variable env : Segmenters.
Variable analyze_text_complexity : str -> list str.
Variable original_file : option str.
Variable source_name : str.
Variable seams_data : list SeamsSentence.

Lemma chunk_differences_record (boundary : nat * nat)
    (records : list SeamsDifferences.SeamsDifference)
    (r : SeamsDifferences.SeamsDifference) :
  SeamsDifferences.chunk_differences env original_file source_name seams_data
    boundary = Some records ->
  In r records ->
  records = [r]
  /\ SeamsDifferences.seams_sentences r
     = map s_text (firstn (snd boundary - fst boundary)
                          (skipn (fst boundary) seams_data))
  /\ SeamsDifferences.pysbd_sentences r
     = segment_with_pysbd env (SeamsDifferences.original_text r)
  /\ SeamsDifferences.nupunkt_sentences r
     = segment_with_nupunkt env (SeamsDifferences.original_text r)
  /\ (SeamsDifferences.segmentations_differ
        (SeamsDifferences.seams_sentences r)
        (SeamsDifferences.pysbd_sentences r) = true
      \/ SeamsDifferences.segmentations_differ
           (SeamsDifferences.seams_sentences r)
           (SeamsDifferences.nupunkt_sentences r) = true).
Proof.
  destruct boundary as [start_idx end_idx].
  unfold SeamsDifferences.chunk_differences. cbn [fst snd].
  destruct (firstn (end_idx - start_idx) (skipn start_idx seams_data))
    as [|first_sentence others] eqn:Hchunk; [discriminate|].
  set (text := extract_original_text_from_coordinates _ _ _ _ _).
  destruct (str_eqb text [] || (len (strip text) <? 10)%Z);
    [intros E; inversion E; subst; intros []|].
  destruct ((length (segment_with_pysbd env text) =? 0)
            || (length (segment_with_nupunkt env text) =? 0));
    [intros E; inversion E; subst; intros []|].
  destruct (SeamsDifferences.segmentations_differ _ _
            || SeamsDifferences.segmentations_differ _ _) eqn:Hd;
    intros E; inversion E; subst; intros Hin; [|destruct Hin].
  destruct Hin as [<- | []]. cbn.
  repeat split. now apply orb_true_iff.
Qed.

Lemma mapM_Some_In {A B : Type} (f : A -> option B) (l : list A)
    (ys : list B) (y : B) :
  mapM f l = Some ys -> In y ys -> exists x, In x l /\ f x = Some y.
Proof.
  revert ys. induction l as [|x l IH]; intros ys; cbn [mapM].
  - intros E; inversion E; subst. intros [].
  - destruct (f x) as [y0|] eqn:Hx; [|discriminate]. cbn [bind].
    destruct (mapM f l) as [ys0|]; [|discriminate]. cbn [bind].
    intros E; inversion E; subst. intros [<- | Hin].
    + exists x. split; [now left | exact Hx].
    + destruct (IH ys0 eq_refl Hin) as (x' & Hin' & Hx').
      exists x'. split; [now right | exact Hx'].
Qed.

Lemma region_disagreements_record (i : nat)
    (r : SeamsDisagreementSet.SeamsDisagreement) :
  In r (SeamsDisagreementSet.region_disagreements env analyze_text_complexity
          original_file source_name seams_data i) ->
  SeamsDisagreementSet.seams_sentences r
    = map s_text (firstn SeamsDisagreementSet.region_size (skipn i seams_data))
  /\ SeamsDisagreementSet.pysbd_sentences r
     = segment_with_pysbd env (SeamsDisagreementSet.original_text r)
  /\ SeamsDisagreementSet.nupunkt_sentences r
     = segment_with_nupunkt env (SeamsDisagreementSet.original_text r)
  /\ (SeamsDisagreementSet.sentences_are_similar
        (SeamsDisagreementSet.seams_sentences r)
        (SeamsDisagreementSet.pysbd_sentences r) = false
      \/ SeamsDisagreementSet.sentences_are_similar
           (SeamsDisagreementSet.seams_sentences r)
           (SeamsDisagreementSet.nupunkt_sentences r) = false).
Proof.
  unfold SeamsDisagreementSet.region_disagreements.
  destruct (firstn SeamsDisagreementSet.region_size (skipn i seams_data))
    as [|first_sentence others] eqn:Hregion; [intros []|].
  set (text := extract_original_text_from_coordinates _ _ _ _ _).
  destruct (str_eqb text [] || (len (strip text) <? 20)%Z); [intros []|].
  destruct ((length (segment_with_pysbd env text) =? 0)
            || (length (segment_with_nupunkt env text) =? 0)); [intros []|].
  set (seams := map s_text (first_sentence :: others)).
  destruct (mem str_eqb _ _) eqn:Hmem; [|intros []].
  intros [<- | []]. cbn.
  repeat split.
  change (s_text first_sentence :: map s_text others) with seams.
  unfold SeamsDisagreementSet.classify_disagreement in Hmem.
  destruct (SeamsDisagreementSet.sentences_are_similar seams
              (segment_with_pysbd env text)); [|now left].
  destruct (SeamsDisagreementSet.sentences_are_similar seams
              (segment_with_nupunkt env text)); [|now right].
  destruct (SeamsDisagreementSet.sentences_are_similar
              (segment_with_pysbd env text) (segment_with_nupunkt env text));
    vm_compute in Hmem; discriminate.
Qed.

End Retention.

Section RetentionClaim.

Import SeamsScripts.

(** C6: a record is kept only for a chunk on which at least one reference
    segmenter is judged to differ from the seams segmentation.  In
    [find_seams_differences.py] the judgement is [segmentations_differ], in
    [build_seams_disagreement_set.py] it is [sentences_are_similar]; in both
    the record carries the seams sentences of its chunk and what the two
    segmenters return on its text, and a chunk on which both references are
    judged equivalent to seams leaves no record. *)
Theorem records_need_a_disagreement (env : Segmenters)
    (analyze_text_complexity : str -> list str) (original_file : option str)
    (source_name : str) (seams_data : list SeamsSentence) :
  (forall boundary records r,
      SeamsDifferences.chunk_differences env original_file source_name
        seams_data boundary = Some records ->
      In r records ->
      records = [r]
      /\ SeamsDifferences.seams_sentences r
         = map s_text (firstn (snd boundary - fst boundary)
                              (skipn (fst boundary) seams_data))
      /\ SeamsDifferences.pysbd_sentences r
         = segment_with_pysbd env (SeamsDifferences.original_text r)
      /\ SeamsDifferences.nupunkt_sentences r
         = segment_with_nupunkt env (SeamsDifferences.original_text r)
      /\ (SeamsDifferences.segmentations_differ
            (SeamsDifferences.seams_sentences r)
            (SeamsDifferences.pysbd_sentences r) = true
          \/ SeamsDifferences.segmentations_differ
               (SeamsDifferences.seams_sentences r)
               (SeamsDifferences.nupunkt_sentences r) = true))
  /\ (forall records r,
         SeamsDifferences.find_differences_in_file_pair env original_file
           source_name seams_data = Some records ->
         In r records ->
         SeamsDifferences.segmentations_differ
           (SeamsDifferences.seams_sentences r)
           (SeamsDifferences.pysbd_sentences r) = true
         \/ SeamsDifferences.segmentations_differ
              (SeamsDifferences.seams_sentences r)
              (SeamsDifferences.nupunkt_sentences r) = true)
  /\ (forall i r,
         In r (SeamsDisagreementSet.region_disagreements env
                 analyze_text_complexity original_file source_name
                 seams_data i) ->
         SeamsDisagreementSet.seams_sentences r
           = map s_text (firstn SeamsDisagreementSet.region_size
                                (skipn i seams_data))
         /\ SeamsDisagreementSet.pysbd_sentences r
            = segment_with_pysbd env (SeamsDisagreementSet.original_text r)
         /\ SeamsDisagreementSet.nupunkt_sentences r
            = segment_with_nupunkt env (SeamsDisagreementSet.original_text r)
         /\ (SeamsDisagreementSet.sentences_are_similar
               (SeamsDisagreementSet.seams_sentences r)
               (SeamsDisagreementSet.pysbd_sentences r) = false
             \/ SeamsDisagreementSet.sentences_are_similar
                  (SeamsDisagreementSet.seams_sentences r)
                  (SeamsDisagreementSet.nupunkt_sentences r) = false))
  /\ (forall r,
         In r (SeamsDisagreementSet.find_disagreements_in_file_pair env
                 analyze_text_complexity original_file source_name
                 seams_data) ->
         SeamsDisagreementSet.sentences_are_similar
           (SeamsDisagreementSet.seams_sentences r)
           (SeamsDisagreementSet.pysbd_sentences r) = false
         \/ SeamsDisagreementSet.sentences_are_similar
              (SeamsDisagreementSet.seams_sentences r)
              (SeamsDisagreementSet.nupunkt_sentences r) = false).
Proof.
  split; [|split; [|split]].
  - intros boundary records r. apply chunk_differences_record.
  - intros records r Hrun Hin.
    unfold SeamsDifferences.find_differences_in_file_pair in Hrun.
    destruct seams_data as [|s0 rest] eqn:Hdata;
      [inversion Hrun; subst; destruct Hin|].
    rewrite <- Hdata in Hrun.
    destruct (mapM _ _) as [chunks|] eqn:Hmap; [|discriminate].
    cbn [option_map] in Hrun. inversion Hrun; subst records.
    apply in_concat in Hin. destruct Hin as (rs & Hrs & Hin).
    destruct (mapM_Some_In _ _ _ _ Hmap Hrs) as (boundary & _ & Hchunk).
    now destruct (chunk_differences_record env original_file source_name
                    _ boundary rs r Hchunk Hin) as (_ & _ & _ & _ & Hd).
  - intros i r. apply region_disagreements_record.
  - intros r Hin.
    unfold SeamsDisagreementSet.find_disagreements_in_file_pair in Hin.
    apply in_flat_map in Hin. destruct Hin as (i & _ & Hin).
    now destruct (region_disagreements_record env analyze_text_complexity
                    original_file source_name seams_data i r Hin)
      as (_ & _ & _ & Hd).
Qed.

(** C6, on an instance: the chunker cuts the five sentences of the two-line
    document into a chunk of four and a chunk of one; the segmenter that
    returns one sentence agrees with seams on the second and not on the
    first, and one record is kept. *)
Lemma records_need_a_disagreement_rain :
  SeamsDifferences.chunk_differences Scenarios.one_sentence
    (Some Scenarios.rain_document) (lit "rain-0.txt")
    Scenarios.rain_seams_ok (4, 5) = Some []
  /\ exists records,
       SeamsDifferences.find_differences_in_file_pair Scenarios.one_sentence
         (Some Scenarios.rain_document) (lit "rain-0.txt")
         Scenarios.rain_seams_ok = Some records
       /\ length records = 1
       /\ forall r, In r records ->
            SeamsDifferences.segmentations_differ
              (SeamsDifferences.seams_sentences r)
              (SeamsDifferences.pysbd_sentences r) = true
            \/ SeamsDifferences.segmentations_differ
                 (SeamsDifferences.seams_sentences r)
                 (SeamsDifferences.nupunkt_sentences r) = true.
Proof.
  split; [vm_compute; reflexivity|].
  destruct (SeamsDifferences.find_differences_in_file_pair
              Scenarios.one_sentence (Some Scenarios.rain_document)
              (lit "rain-0.txt") Scenarios.rain_seams_ok)
    as [records|] eqn:Hrun; [|vm_compute in Hrun; discriminate].
  exists records. split; [reflexivity|]. split.
  - vm_compute in Hrun. inversion Hrun. reflexivity.
  - intros r Hin.
    exact (proj1 (proj2 (records_need_a_disagreement Scenarios.one_sentence
                           (fun _ => []) (Some Scenarios.rain_document)
                           (lit "rain-0.txt") Scenarios.rain_seams_ok))
                 records r Hrun Hin).
Defined.

End RetentionClaim.

(** ** The boundary chunker *)

Section Chunker.

Import SeamsDifferences Partition.

Lemma boundaries_from_unfold (seams_data : list SeamsSentence) (i : nat) :
  boundaries_from seams_data i
  = if lt_dec i (length seams_data)
    then (i, at_least_one i (advance (skipn i seams_data) i i))
         :: boundaries_from seams_data
              (at_least_one i (advance (skipn i seams_data) i i))
    else [].
Proof.
  rewrite boundaries_from_equation_1.
  destruct (lt_dec i (length seams_data)); reflexivity.
Qed.

Lemma advance_unfold (current next : SeamsSentence)
    (rest : list SeamsSentence) (i start_idx : nat) :
  advance (current :: next :: rest) i start_idx
  = if natural_break current next then i
    else if 10 <=? i - start_idx then i
    else advance (next :: rest) (S i) start_idx.
Proof. reflexivity. Qed.

(** The inner loop moves forward, stays within ten sentences of the start
    of the chunk, and stops at the last sentence at the latest. *)
Lemma advance_bounds (rest : list SeamsSentence) :
  forall i start_idx,
    start_idx <= i -> i - start_idx <= 10 ->
    i <= advance rest i start_idx
    /\ advance rest i start_idx - start_idx <= 10
    /\ advance rest i start_idx <= i + (length rest - 1).
Proof.
  induction rest as [|current rest IH]; intros i start_idx Hs Hi.
  - cbn. lia.
  - destruct rest as [|next rest].
    + cbn. lia.
    + rewrite advance_unfold.
      destruct (natural_break current next); [cbn [length]; lia|].
      destruct (Nat.leb_spec 10 (i - start_idx)); [cbn [length]; lia|].
      specialize (IH (S i) start_idx ltac:(lia) ltac:(lia)).
      cbn [length] in IH |- *. lia.
Qed.

Lemma next_boundary_bounds (seams_data : list SeamsSentence) (i : nat) :
  i < length seams_data ->
  let j := at_least_one i (advance (skipn i seams_data) i i) in
  i < j /\ j - i <= 10 /\ j <= length seams_data.
Proof.
  intros Hi j.
  destruct (advance_bounds (skipn i seams_data) i i ltac:(lia) ltac:(lia))
    as (H1 & H2 & H3).
  rewrite length_skipn in H3.
  unfold j, at_least_one.
  destruct (Nat.eqb_spec (advance (skipn i seams_data) i i) i); lia.
Qed.

Lemma boundaries_from_chain (seams_data : list SeamsSentence) :
  forall n i,
    length seams_data - i <= n -> i <= length seams_data ->
    chain i (length seams_data) (boundaries_from seams_data i)
    /\ Forall (fun b => 1 <= snd b - fst b <= 10)
              (boundaries_from seams_data i).
Proof.
  induction n as [|n IH]; intros i Hn Hi;
    rewrite boundaries_from_unfold;
    destruct (lt_dec i (length seams_data)) as [Hlt | Hge];
    try lia; try (split; [cbn; lia | constructor]).
  destruct (next_boundary_bounds seams_data i Hlt) as (H1 & H2 & H3).
  destruct (IH (at_least_one i (advance (skipn i seams_data) i i))
              ltac:(lia) H3) as [Hc Hf].
  split.
  - cbn [chain]. auto.
  - constructor; [cbn [fst snd]; lia | exact Hf].
Qed.

Lemma chunks_of_before (stop : nat) (boundaries : list (nat * nat)) :
  forall first k, chain first stop boundaries -> k < first ->
                  chunks_of k boundaries = [].
Proof.
  induction boundaries as [|[s e] rest IH]; intros first k Hc Hk;
    [reflexivity|].
  destruct Hc as (-> & Hse & Hc). unfold chunks_of. cbn [filter fst snd].
  destruct (Nat.leb_spec first k); [lia|]. cbn [andb].
  apply (IH e); [exact Hc | lia].
Qed.

Lemma chunks_of_within (stop : nat) (boundaries : list (nat * nat)) :
  forall first k, chain first stop boundaries -> first <= k < stop ->
                  length (chunks_of k boundaries) = 1.
Proof.
  induction boundaries as [|[s e] rest IH]; intros first k Hc Hk.
  - cbn in Hc. lia.
  - destruct Hc as (-> & Hse & Hc). unfold chunks_of. cbn [filter fst snd].
    destruct (Nat.leb_spec first k); [|lia]. cbn [andb].
    destruct (Nat.ltb_spec k e).
    + cbn [length]. f_equal.
      change (filter _ rest) with (chunks_of k rest).
      now rewrite (chunks_of_before stop rest e k Hc).
    + apply (IH e); [exact Hc | lia].
Qed.

Lemma chain_concat {A : Type} (l : list A) (boundaries : list (nat * nat)) :
  forall first, chain first (length l) boundaries ->
    concat (map (fun b => firstn (snd b - fst b) (skipn (fst b) l))
                boundaries)
    = skipn first l.
Proof.
  induction boundaries as [|[s e] rest IH]; intros first Hc.
  - cbn in Hc. subst first. cbn. now rewrite skipn_all.
  - destruct Hc as (-> & Hse & Hc). cbn [map concat fst snd].
    rewrite (IH e Hc).
    replace (skipn e l) with (skipn (e - first) (skipn first l))
      by (rewrite skipn_skipn; f_equal; lia).
    apply firstn_skipn.
Qed.

(** C7: on every list of coordinate-tagged sentences (the empty list has
    no chunk) the chunker returns boundaries that begin at 0, follow one another without gap or
    overlap in the order of the input, and end at the length of the list;
    every sentence index lies in exactly one chunk, the chunks put together
    are the input list, and every chunk holds at least 1 and at most 10
    sentences. *)
Theorem chunks_partition_the_sentences (seams_data : list SeamsSentence) :
  let boundaries := find_natural_text_boundaries seams_data in
  chain 0 (length seams_data) boundaries
  /\ (forall k, k < length seams_data ->
                length (chunks_of k boundaries) = 1)
  /\ concat (map (fun b => firstn (snd b - fst b) (skipn (fst b) seams_data))
                 boundaries) = seams_data
  /\ Forall (fun b => 1 <= snd b - fst b <= 10) boundaries.
Proof.
  intros boundaries. unfold boundaries, find_natural_text_boundaries.
  destruct (boundaries_from_chain seams_data (length seams_data) 0
              ltac:(lia) ltac:(lia)) as [Hc Hf].
  split; [exact Hc|]. split; [|split; [|exact Hf]].
  - intros k Hk.
    apply (chunks_of_within (length seams_data) _ 0); [exact Hc | lia].
  - now rewrite (chain_concat seams_data _ 0 Hc).
Qed.

(** C7, on an instance: twelve sentences without a natural break are cut
    into chunks of ten, one and one. *)
Lemma chunks_partition_twelve_lines :
  find_natural_text_boundaries Scenarios.twelve_lines
    = [(0, 10); (10, 11); (11, 12)]
  /\ chain 0 12 (find_natural_text_boundaries Scenarios.twelve_lines)
  /\ Forall (fun b => 1 <= snd b - fst b <= 10)
            (find_natural_text_boundaries Scenarios.twelve_lines).
Proof.
  split; [vm_compute; reflexivity|].
  pose proof (chunks_partition_the_sentences Scenarios.twelve_lines)
    as (Hc & _ & _ & Hf).
  split; [exact Hc | exact Hf].
Defined.

End Chunker.

(** ** The stratified sampler *)

Section SamplerFacts.

Import BoundaryGold.

Context {S : Type} {RS : RandomSource S}.

Lemma pick_as_map {A : Type} (d : A) (population : list A)
    (positions : list nat) :
  Forall (fun i => i < length population) positions ->
  pick population positions = map (fun i => nth i population d) positions.
Proof.
  induction 1 as [|i positions Hi _ IH]; [reflexivity|].
  unfold pick in *. cbn [flat_map map]. rewrite IH.
  destruct (nth_error population i) as [x|] eqn:E.
  - now rewrite (nth_error_nth _ _ d E).
  - apply nth_error_None in E. lia.
Qed.

Lemma pick_length {A : Type} (population : list A) (positions : list nat) :
  Forall (fun i => i < length population) positions ->
  length (pick population positions) = length positions.
Proof.
  destruct population as [|d population].
  - intros H. destruct positions as [|i positions]; [reflexivity|].
    inversion H; subst. cbn in *. lia.
  - intros H. rewrite (pick_as_map d) by exact H. apply length_map.
Qed.

Lemma pick_incl {A : Type} (population : list A) (positions : list nat) :
  incl (pick population positions) population.
Proof.
  intros x Hx. unfold pick in Hx. apply in_flat_map in Hx.
  destruct Hx as (i & _ & Hx).
  destruct (nth_error population i) as [y|] eqn:E; [|destruct Hx].
  destruct Hx as [<- | []]. eapply nth_error_In. exact E.
Qed.

Lemma pick_NoDup {A : Type} (population : list A) (positions : list nat) :
  NoDup population -> NoDup positions ->
  Forall (fun i => i < length population) positions ->
  NoDup (pick population positions).
Proof.
  intros Hpop Hpos Hlt.
  destruct population as [|d population].
  - destruct positions as [|i positions]; [constructor|].
    inversion Hlt; subst. cbn in *. lia.
  - rewrite (pick_as_map d) by exact Hlt.
    apply Finite.Injective_map_NoDup_in; [|exact Hpos].
    intros i j Hi Hj E. rewrite Forall_forall in Hlt.
    apply (proj1 (NoDup_nth (d :: population) d) Hpop); auto.
Qed.

Lemma pick_all {A : Type} (l : list A) : pick l (seq 0 (length l)) = l.
Proof.
  assert (H : forall pre, pick (pre ++ l) (seq (length pre) (length l)) = l).
  { induction l as [|x l IH]; intros pre; [reflexivity|].
    cbn [length seq]. unfold pick in *. cbn [flat_map].
    rewrite nth_error_app2 by lia. rewrite Nat.sub_diag. cbn [nth_error app].
    f_equal. specialize (IH (pre ++ [x])).
    rewrite <- app_assoc, length_app in IH. cbn [app length] in IH.
    now rewrite Nat.add_1_r in IH. }
  apply (H []).
Qed.

(** [random.sample] returns [k] distinct members of a duplicate-free
    population. *)
Lemma random_sample_spec {A : Type} (st : S) (population : list A) (k : nat) :
  k <= length population -> NoDup population ->
  length (fst (random_sample st population k)) = k
  /\ NoDup (fst (random_sample st population k))
  /\ incl (fst (random_sample st population k)) population.
Proof.
  intros Hk Hpop. unfold random_sample. cbn [fst].
  destruct (@sample_positions_spec _ _ st (length population) k Hk)
    as (Hnd & Hlen & Hlt).
  split; [|split].
  - rewrite pick_length by exact Hlt. exact Hlen.
  - now apply pick_NoDup.
  - apply pick_incl.
Qed.

(** [random.shuffle] rearranges. *)
Lemma random_shuffle_spec {A : Type} (st : S) (x : list A) :
  Permutation (fst (random_shuffle st x)) x.
Proof.
  unfold random_shuffle. cbn [fst].
  apply Permutation_trans with (pick x (seq 0 (length x))).
  - unfold pick. apply Permutation_flat_map. apply shuffle_positions_spec.
  - now rewrite pick_all.
Qed.

Lemma mem_In (ex : BoundaryExample) (l : list BoundaryExample) :
  mem BoundaryExample_eqb ex l = true <-> In ex l.
Proof.
  unfold mem. rewrite existsb_exists. split.
  - intros (y & Hy & E). unfold BoundaryExample_eqb in E.
    destruct (BoundaryExample_eq_dec ex y); [now subst | discriminate].
  - intros H. exists ex. split; [exact H|].
    unfold BoundaryExample_eqb.
    destruct (BoundaryExample_eq_dec ex ex); [reflexivity | contradiction].
Qed.

Lemma append_to_category_members (key : str) (example : BoundaryExample)
    (d : list (str * list BoundaryExample)) :
  Permutation (concat (map snd (append_to_category key example d)))
              (concat (map snd d) ++ [example]).
Proof.
  induction d as [|[k examples] d IH]; [reflexivity|].
  cbn [append_to_category]. destruct (str_eqb k key); cbn [map concat snd].
  - rewrite <- !app_assoc. apply Permutation_app_head.
    apply Permutation_app_comm.
  - rewrite IH. now rewrite app_assoc.
Qed.

Lemma examples_by_type_members (all_examples : list BoundaryExample) :
  Permutation (concat (map snd (examples_by_type all_examples))) all_examples.
Proof.
  unfold examples_by_type.
  assert (H : forall d,
            Permutation
              (concat (map snd
                 (fold_left (fun d example =>
                    append_to_category (category_key example) example d)
                    all_examples d)))
              (concat (map snd d) ++ all_examples)).
  { induction all_examples as [|x l IH]; intros d; cbn [fold_left].
    - now rewrite app_nil_r.
    - rewrite IH, append_to_category_members.
      now rewrite <- app_assoc. }
  apply (H []).
Qed.

Lemma NoDup_app_disjoint {A : Type} (l1 l2 : list A) :
  NoDup (l1 ++ l2) -> forall a, In a l1 -> ~ In a l2.
Proof.
  induction l1 as [|x l1 IH]; intros H a Ha; [destruct Ha|].
  cbn [app] in H. inversion H as [|? ? Hx Hrest]; subst.
  destruct Ha as [<- | Ha].
  - intros Hin. apply Hx. apply in_or_app. now right.
  - now apply IH.
Qed.

(** The loop over the categories draws distinct examples, at most [quota]
    from each category. *)
Lemma sample_categories_spec (categories : list (str * list BoundaryExample))
    (quota : nat) :
  forall st,
    NoDup (concat (map snd categories)) ->
    NoDup (fst (sample_categories categories quota st))
    /\ incl (fst (sample_categories categories quota st))
            (concat (map snd categories))
    /\ length (fst (sample_categories categories quota st))
       <= quota * length categories.
Proof.
  induction categories as [|[key examples] rest IH]; intros st Hnd.
  - cbn. repeat split; [constructor | intros ? [] | lia].
  - cbn [map concat snd] in Hnd.
    cbn [sample_categories map concat snd fst length].
    set (r := match examples with
              | [] => ([], st)
              | _ :: _ =>
                  random_sample st examples
                    (Nat.min (Nat.min (length examples) quota)
                             (length examples))
              end).
    assert (Hr : length (fst r) <= quota /\ NoDup (fst r)
                 /\ incl (fst r) examples).
    { unfold r. destruct examples as [|e examples'].
      - cbn. repeat split; [lia | constructor | intros ? []].
      - destruct (random_sample_spec st (e :: examples')
                    (Nat.min (Nat.min (length (e :: examples')) quota)
                             (length (e :: examples')))
                    ltac:(lia)
                    (NoDup_app_remove_r _ _ Hnd)) as (H1 & H2 & H3).
        repeat split; [lia | exact H2 | exact H3]. }
    destruct Hr as (Hlen & Hnd1 & Hincl1).
    destruct (IH (snd r) (NoDup_app_remove_l _ _ Hnd)) as (Hnd2 & Hincl2 & Hlen2).
    split; [|split].
    + apply NoDup_app; [exact Hnd1 | exact Hnd2|].
      intros a Ha Hb. apply (NoDup_app_disjoint _ _ Hnd a); auto.
    + intros a Ha. apply in_app_or in Ha. apply in_or_app.
      destruct Ha; [left | right]; auto.
    + rewrite length_app. lia.
Qed.

Lemma remaining_length (all_examples selected : list BoundaryExample) :
  NoDup all_examples -> NoDup selected -> incl selected all_examples ->
  length (filter (fun ex => negb (mem BoundaryExample_eqb ex selected))
                 all_examples)
  = length all_examples - length selected.
Proof.
  intros Hall Hsel Hincl.
  pose proof (filter_length (fun ex => mem BoundaryExample_eqb ex selected)
                all_examples) as Hsum.
  assert (Hperm : Permutation
                    (filter (fun ex => mem BoundaryExample_eqb ex selected)
                            all_examples) selected).
  { apply NoDup_Permutation; [now apply NoDup_filter | exact Hsel|].
    intros x. rewrite filter_In, mem_In. split; [now intros []|].
    intros Hx. split; [now apply Hincl | exact Hx]. }
  apply Permutation_length in Hperm. lia.
Qed.

End SamplerFacts.

Section SamplerClaim.

Import BoundaryGold.





Lemma four_candidates_differ : NoDup ToyRandom.four_candidates.
Proof.
  apply (NoDup_map_inv start_line). cbn.
  repeat constructor; cbn; intuition discriminate.
Qed.


End SamplerClaim.

(** ** The matcher always has fuel enough *)

Section MatcherFuel.

Import Difflib.

Variables a b : str.

(** A candidate block starts at or after [alo]; it ends at or before [hi],
    or it is the empty block at [alo]. *)
Let within (alo hi : nat) (best : nat * nat * nat) : Prop :=
  alo <= fst (fst best)
  /\ ((snd best = 0 /\ fst (fst best) = alo)
      \/ fst (fst best) + snd best <= hi).

Lemma j2len_get_bound (m : nat) (j2len : list (nat * nat)) (j : nat) :
  Forall (fun e => snd e <= m) j2len -> j2len_get j2len j <= m.
Proof.
  induction 1 as [|[j' k] j2len Hk _ IH]; cbn [j2len_get]; [lia|].
  destruct (j' =? j); [exact Hk | exact IH].
Qed.

Lemma scan_row_within (alo blo bhi i : nat) (j2len : list (nat * nat))
    (js : list nat) :
  alo <= i ->
  Forall (fun e => snd e <= i - alo) j2len ->
  forall newj2len best,
    Forall (fun e => snd e <= i - alo + 1) newj2len ->
    within alo (i + 1) best ->
    Forall (fun e => snd e <= i - alo + 1)
           (fst (scan_row js blo bhi i j2len newj2len best))
    /\ within alo (i + 1) (snd (scan_row js blo bhi i j2len newj2len best)).
Proof.
  intros Hi Hold. induction js as [|j js IH]; intros newj2len best Hnew Hbest;
    cbn [scan_row]; [now split|].
  destruct (j <? blo); [now apply IH|].
  destruct (bhi <=? j); [now split|].
  set (k := match j with 0 => 0 | Datatypes.S j' => j2len_get j2len j' end + 1).
  assert (Hk : 1 <= k <= i - alo + 1).
  { unfold k. destruct j as [|j']; [lia|].
    pose proof (j2len_get_bound (i - alo) j2len j' Hold). lia. }
  destruct best as [[besti bestj] bestsize].
  apply IH.
  - constructor; [cbn [snd]; lia | exact Hnew].
  - destruct (bestsize <? k); [|exact Hbest].
    unfold within. cbn [fst snd]. lia.
Qed.

Lemma scan_rows_within (alo blo bhi : nat) (n : nat) :
  forall r j2len best,
    alo <= r ->
    Forall (fun e => snd e <= r - alo) j2len ->
    within alo r best ->
    within alo (r + n) (scan_rows a b (seq r n) blo bhi j2len best).
Proof.
  induction n as [|n IH]; intros r j2len best Hr Hold Hbest;
    cbn [seq scan_rows].
  - now rewrite Nat.add_0_r.
  - set (js := match nth_error a r with Some c => b2j b c | None => [] end).
    assert (Hb : within alo (r + 1) best)
      by (destruct Hbest as [H1 [H2 | H2]]; split; auto; right; lia).
    destruct (scan_row_within alo blo bhi r j2len js Hr Hold [] best
                (Forall_nil _) Hb) as [Hnew Hbest'].
    destruct (scan_row js blo bhi r j2len [] best) as [newj2len best'].
    cbn [fst snd] in Hnew, Hbest'.
    replace (r + Datatypes.S n) with (Datatypes.S r + n) by lia.
    apply IH; [lia | | now replace (Datatypes.S r) with (r + 1) by lia].
    eapply Forall_impl; [|exact Hnew]. intros e He. cbv beta in He |- *. lia.
Qed.

Lemma extend_left_within (alo blo hi : nat) :
  forall besti bestj bestsize,
    within alo hi (besti, bestj, bestsize) ->
    within alo hi (extend_left a b alo blo besti bestj bestsize).
Proof.
  induction besti as [|i' IH]; intros bestj bestsize Hw; cbn [extend_left];
    [exact Hw|].
  destruct ((alo <? Datatypes.S i') && (blo <? bestj)
            && eq_at a b i' (bestj - 1)) eqn:E; [|exact Hw].
  apply andb_true_iff in E. destruct E as [E _].
  apply andb_true_iff in E. destruct E as [E _].
  apply Nat.ltb_lt in E.
  apply IH. destruct Hw as [Hw1 Hw2]. cbn [fst snd] in *.
  split; cbn [fst snd]; [lia|]. right. lia.
Qed.

Lemma extend_right_bound (bhi besti bestj : nat) :
  forall gap bestsize,
    bestsize <= extend_right a b gap bhi besti bestj bestsize
    /\ extend_right a b gap bhi besti bestj bestsize <= bestsize + gap.
Proof.
  induction gap as [|g IH]; intros bestsize; cbn [extend_right]; [lia|].
  destruct ((bestj + bestsize <? bhi)
            && eq_at a b (besti + bestsize) (bestj + bestsize)); [|lia].
  specialize (IH (bestsize + 1)). lia.
Qed.

(** A match that is not empty lies within the range it was sought in. *)
Lemma find_longest_match_within (alo ahi blo bhi : nat) :
  within alo ahi (find_longest_match a b alo ahi blo bhi).
Proof.
  unfold find_longest_match.
  assert (H0 : within alo ahi
                 (scan_rows a b (seq alo (ahi - alo)) blo bhi []
                            (alo, blo, 0))).
  { destruct (Nat.le_gt_cases alo ahi) as [Hle | Hgt].
    - replace ahi with (alo + (ahi - alo)) at 1 by lia.
      apply scan_rows_within; [lia | constructor|].
      split; cbn [fst snd]; [lia | now left].
    - replace (ahi - alo) with 0 by lia. cbn [seq scan_rows].
      split; cbn [fst snd]; [lia | now left]. }
  destruct (scan_rows a b (seq alo (ahi - alo)) blo bhi [] (alo, blo, 0))
    as [[i0 j0] k0].
  pose proof (extend_left_within alo blo ahi i0 j0 k0 H0) as [H1 H2].
  destruct (extend_left a b alo blo i0 j0 k0) as [[i1 j1] k1].
  cbn [fst snd] in *.
  pose proof (extend_right_bound bhi i1 j1 (ahi - (i1 + k1)) k1) as [H3 H4].
  split; cbn [fst snd]; [exact H1|].
  destruct H2 as [[H2 H2'] | H2].
  - subst k1 i1. destruct (Nat.le_gt_cases alo ahi); [right; lia | left; lia].
  - right. lia.
Qed.

Lemma matches_aux_fuel (fuel : nat) :
  forall alo ahi blo bhi,
    ahi - alo < fuel -> matches_aux a b fuel alo ahi blo bhi <> None.
Proof.
  induction fuel as [|fuel IH]; intros alo ahi blo bhi Hf; [lia|].
  cbn [matches_aux].
  pose proof (find_longest_match_within alo ahi blo bhi) as Hw.
  destruct (find_longest_match a b alo ahi blo bhi) as [[i j] k].
  destruct Hw as [Hw1 Hw2]. cbn [fst snd] in Hw1, Hw2.
  destruct (Nat.eqb_spec k 0) as [Hk | Hk]; [discriminate|].
  destruct Hw2 as [[Hw2 _] | Hw2]; [contradiction|].
  assert (Hl : (if (alo <? i) && (blo <? j)
                then matches_aux a b fuel alo i blo j else Some 0) <> None).
  { destruct ((alo <? i) && (blo <? j)); [apply IH; lia | discriminate]. }
  assert (Hr : (if (i + k <? ahi) && (j + k <? bhi)
                then matches_aux a b fuel (i + k) ahi (j + k) bhi
                else Some 0) <> None).
  { destruct ((i + k <? ahi) && (j + k <? bhi)); [apply IH; lia | discriminate]. }
  destruct (if (alo <? i) && (blo <? j) then _ else _); [|contradiction].
  destruct (if (i + k <? ahi) && (j + k <? bhi) then _ else _);
    [discriminate | contradiction].
Qed.

(** [matches] is the sum that the matcher computes: its fuel does not run
    out. *)
Lemma matches_is_total :
  matches_aux a b (Datatypes.S (length a)) 0 (length a) 0 (length b)
  = Some (matches a b).
Proof.
  unfold matches.
  pose proof (matches_aux_fuel (Datatypes.S (length a)) 0 (length a) 0
                (length b) ltac:(lia)) as H.
  destruct (matches_aux a b (Datatypes.S (length a)) 0 (length a) 0 (length b));
    [reflexivity | contradiction].
Qed.

End MatcherFuel.

(** * Further properties of the scripts *)

(** ** The three-way classifier, label by label *)

Section ThreeWayTable.

Import SeamsDisagreementSet.

(** X1: the other four labels of the three-way classifier.  It answers
    'no_disagreement' exactly when seams is similar to both references,
    whether or not the references are similar to each other;
    'seams_vs_pysbd' and 'seams_vs_nupunkt' exactly when seams differs from
    that one reference alone; 'all_disagree' exactly when no pair is
    similar. *)
Theorem classify_three_way_table (seams pysbd nupunkt : list str) :
  (classify_disagreement seams pysbd nupunkt = lit "no_disagreement"
   <-> sentences_are_similar seams pysbd = true
       /\ sentences_are_similar seams nupunkt = true)
  /\ (classify_disagreement seams pysbd nupunkt = lit "seams_vs_pysbd"
      <-> sentences_are_similar seams pysbd = false
          /\ sentences_are_similar seams nupunkt = true)
  /\ (classify_disagreement seams pysbd nupunkt = lit "seams_vs_nupunkt"
      <-> sentences_are_similar seams pysbd = true
          /\ sentences_are_similar seams nupunkt = false)
  /\ (classify_disagreement seams pysbd nupunkt = lit "all_disagree"
      <-> sentences_are_similar seams pysbd = false
          /\ sentences_are_similar seams nupunkt = false
          /\ sentences_are_similar pysbd nupunkt = false).
Proof.
  unfold classify_disagreement.
  destruct (sentences_are_similar seams pysbd),
           (sentences_are_similar seams nupunkt),
           (sentences_are_similar pysbd nupunkt); cbn [negb andb];
    repeat split; intros; try discriminate; try reflexivity;
    repeat match goal with
           | H : _ /\ _ |- _ => destruct H
           end; discriminate.
Qed.

End ThreeWayTable.

(** ** The chunker at a natural break *)

(** One turn of the outer loop of the chunker, under a name of its own. *)
Lemma chunker_turn (seams_data : list SeamsSentence) (i : nat) :
  SeamsDifferences.boundaries_from seams_data i
  = if lt_dec i (length seams_data)
    then (i, SeamsDifferences.at_least_one i
               (SeamsDifferences.advance (skipn i seams_data) i i))
         :: SeamsDifferences.boundaries_from seams_data
              (SeamsDifferences.at_least_one i
                 (SeamsDifferences.advance (skipn i seams_data) i i))
    else [].
Proof. apply boundaries_from_unfold. Qed.

Section ChunkerBreaks.

Import SeamsDifferences Partition.

(** While the inner loop moves on, no natural break was seen. *)
Lemma advance_no_break (rest : list SeamsSentence) :
  forall i start_idx m,
    i <= m < advance rest i start_idx ->
    exists current next,
      nth_error rest (m - i) = Some current
      /\ nth_error rest (Datatypes.S (m - i)) = Some next
      /\ natural_break current next = false.
Proof.
  induction rest as [|current rest IH]; intros i start_idx m Hm.
  - cbn in Hm. lia.
  - destruct rest as [|next rest]; [cbn in Hm; lia|].
    rewrite advance_unfold in Hm.
    destruct (natural_break current next) eqn:Hb; [lia|].
    destruct (10 <=? i - start_idx); [lia|].
    destruct (Nat.eq_dec m i) as [-> | Hne].
    + rewrite Nat.sub_diag. exists current, next. auto.
    + destruct (IH (Datatypes.S i) start_idx m ltac:(lia))
        as (c & n & Hc & Hn & Hcn).
      exists c, n.
      replace (m - i) with (Datatypes.S (m - Datatypes.S i)) by lia.
      auto.
Qed.

(** Every chunk is cut by one run of the inner loop. *)
Lemma boundaries_from_members (seams_data : list SeamsSentence) :
  forall n i,
    length seams_data - i <= n ->
    forall s e, In (s, e) (boundaries_from seams_data i) ->
      i <= s < length seams_data
      /\ e = at_least_one s (advance (skipn s seams_data) s s).
Proof.
  induction n as [|n IH]; intros i Hn s e Hin;
    rewrite chunker_turn in Hin;
    destruct (lt_dec i (length seams_data)) as [Hlt | Hge];
    try lia; try (now destruct Hin).
  destruct (next_boundary_bounds seams_data i Hlt) as (H1 & H2 & H3).
  destruct Hin as [E | Hin].
  - inversion E; subst. split; [lia | reflexivity].
  - destruct (IH (at_least_one i (advance (skipn i seams_data) i i))
                ltac:(lia) s e Hin) as [Hs He].
    split; [lia | exact He].
Qed.

Lemma chain_covers (stop : nat) (boundaries : list (nat * nat)) :
  forall first k, chain first stop boundaries -> first <= k < stop ->
    exists s e, In (s, e) boundaries /\ s <= k < e.
Proof.
  induction boundaries as [|[s e] rest IH]; intros first k Hc Hk.
  - cbn in Hc. lia.
  - destruct Hc as (-> & Hse & Hc).
    destruct (Nat.lt_ge_cases k e) as [Hlt | Hge].
    + exists first, e. split; [now left | lia].
    + destruct (IH e k Hc ltac:(lia)) as (s' & e' & Hin & Hr).
      exists s', e'. split; [now right | exact Hr].
Qed.

(** X2: a sentence after which the chunker sees a natural break (a
    paragraph gap, a dialog attribution at its end, or a closing quote not
    followed by an opening one) is a chunk of its own: the chunk that ends
    there ends before it, and the next one starts after it. *)
Theorem break_sentence_is_its_own_chunk (seams_data : list SeamsSentence)
    (j : nat) (current next : SeamsSentence) :
  nth_error seams_data j = Some current ->
  nth_error seams_data (j + 1) = Some next ->
  natural_break current next = true ->
  In (j, j + 1) (find_natural_text_boundaries seams_data).
Proof.
  intros Hc Hn Hb.
  assert (Hj : j + 1 < length seams_data)
    by (apply nth_error_Some; congruence).
  destruct (boundaries_from_chain seams_data (length seams_data) 0
              ltac:(lia) ltac:(lia)) as [Hchain _].
  destruct (chain_covers _ _ 0 j Hchain ltac:(lia)) as (s & e & Hin & Hse).
  destruct (boundaries_from_members seams_data (length seams_data) 0
              ltac:(lia) s e Hin) as [Hs He].
  assert (Hadv : advance (skipn s seams_data) s s <= j).
  { destruct (Nat.le_gt_cases (advance (skipn s seams_data) s s) j)
      as [Hle | Hgt]; [exact Hle|].
    destruct (advance_no_break (skipn s seams_data) s s j ltac:(lia))
      as (c & n & Hc' & Hn' & Hcn).
    rewrite nth_error_skipn in Hc', Hn'.
    replace (s + (j - s)) with j in Hc' by lia.
    replace (s + Datatypes.S (j - s)) with (j + 1) in Hn' by lia.
    congruence. }
  unfold at_least_one in He.
  destruct (Nat.eqb_spec (advance (skipn s seams_data) s s) s) as [E | E].
  - rewrite E in He. assert (s = j) by lia. subst s e.
    unfold find_natural_text_boundaries.
    now replace (j + 1) with (Datatypes.S j) by lia.
  - pose proof (advance_bounds (skipn s seams_data) s s ltac:(lia) ltac:(lia)).
    lia.
Qed.

(** X2, on an instance: "she said." in the middle of five sentences. *)
Lemma break_sentence_said :
  find_natural_text_boundaries
    [Scenarios.seam "The door opened." 1 1 1 17;
     Scenarios.seam "Come in, she said." 1 18 1 36;
     Scenarios.seam "He came in." 1 37 1 48;
     Scenarios.seam "He sat down." 2 1 2 13]
  = [(0, 1); (1, 2); (2, 3); (3, 4)]
  /\ In (1, 1 + 1)
        (find_natural_text_boundaries
           [Scenarios.seam "The door opened." 1 1 1 17;
            Scenarios.seam "Come in, she said." 1 18 1 36;
            Scenarios.seam "He came in." 1 37 1 48;
            Scenarios.seam "He sat down." 2 1 2 13]).
Proof.
  split; [vm_compute; reflexivity|].
  apply (break_sentence_is_its_own_chunk _ 1
           (Scenarios.seam "Come in, she said." 1 18 1 36)
           (Scenarios.seam "He came in." 1 37 1 48));
    vm_compute; reflexivity.
Defined.

(** X3: the last sentence is always a chunk of its own: the inner loop
    stops one short of the end of the list, and the chunk it closes leaves
    the sentence it stopped at to the next chunk. *)
Theorem last_sentence_is_its_own_chunk (seams_data : list SeamsSentence) :
  seams_data <> [] ->
  In (length seams_data - 1, length seams_data)
     (find_natural_text_boundaries seams_data).
Proof.
  intros Hne.
  assert (Hlen : 0 < length seams_data)
    by (destruct seams_data; [contradiction | cbn; lia]).
  destruct (boundaries_from_chain seams_data (length seams_data) 0
              ltac:(lia) ltac:(lia)) as [Hchain _].
  destruct (chain_covers _ _ 0 (length seams_data - 1) Hchain ltac:(lia))
    as (s & e & Hin & Hse).
  destruct (boundaries_from_members seams_data (length seams_data) 0
              ltac:(lia) s e Hin) as [Hs He].
  pose proof (advance_bounds (skipn s seams_data) s s ltac:(lia) ltac:(lia))
    as (H1 & _ & H3).
  rewrite length_skipn in H3.
  unfold at_least_one in He.
  destruct (Nat.eqb_spec (advance (skipn s seams_data) s s) s) as [E | E].
  - rewrite E in He.
    destruct (next_boundary_bounds seams_data s ltac:(lia)) as (_ & _ & Hb).
    unfold at_least_one in Hb. rewrite E, Nat.eqb_refl in Hb.
    assert (Hs' : s = length seams_data - 1) by lia.
    assert (He' : Datatypes.S s = length seams_data) by lia.
    rewrite He in Hin. rewrite He' in Hin. rewrite Hs' in Hin. exact Hin.
  - lia.
Qed.

(** X3, on an instance: the twelfth of twelve sentences. *)
Lemma last_sentence_of_twelve :
  In (11, 12) (find_natural_text_boundaries Scenarios.twelve_lines).
Proof.
  apply (last_sentence_is_its_own_chunk Scenarios.twelve_lines).
  discriminate.
Defined.

End ChunkerBreaks.

(** ** What cannot raise *)

Section NoException.

Import BoundaryGold.

Lemma mapM_defined {A B : Type} (f : A -> option B) (l : list A) :
  (forall x, In x l -> f x <> None) -> mapM f l <> None.
Proof.
  induction l as [|x l IH]; intros H; cbn [mapM]; [discriminate|].
  destruct (f x) as [y|] eqn:E;
    [|exfalso; exact (H x (or_introl eq_refl) E)].
  cbn [bind].
  destruct (mapM f l); [discriminate|].
  apply IH. intros z Hz. apply H. now right.
Qed.

(** X4: [find_differences_in_file_pair] never raises: every chunk that the
    chunker cuts has a first sentence, so the unguarded
    [chunk_sentences[0]] is always defined. *)
Theorem find_differences_never_raises (env : Segmenters)
    (original_file : option str) (source_name : str)
    (seams_data : list SeamsSentence) :
  exists differences,
    SeamsDifferences.find_differences_in_file_pair env original_file
      source_name seams_data = Some differences.
Proof.
  unfold SeamsDifferences.find_differences_in_file_pair.
  destruct seams_data as [|s0 rest] eqn:Hdata; [now exists []|].
  rewrite <- Hdata.
  assert (H : mapM (SeamsDifferences.chunk_differences env original_file
                      source_name seams_data)
                   (SeamsDifferences.find_natural_text_boundaries seams_data)
              <> None).
  { apply mapM_defined. intros [s e] Hin.
    destruct (boundaries_from_members seams_data (length seams_data) 0
                ltac:(lia) s e Hin) as [Hs He].
    destruct (next_boundary_bounds seams_data s ltac:(lia)) as (H1 & _ & H3).
    rewrite <- He in H1, H3.
    unfold SeamsDifferences.chunk_differences.
    destruct (firstn (e - s) (skipn s seams_data)) as [|first others] eqn:Hc.
    - apply (f_equal (@length _)) in Hc.
      rewrite length_firstn, length_skipn in Hc. cbn [length] in Hc. lia.
    - destruct (str_eqb _ [] || _); [discriminate|].
      destruct ((_ =? 0) || _); [discriminate|].
      destruct (_ || _); discriminate. }
  destruct (mapM _ _) as [chunks|]; [|contradiction].
  now exists (concat chunks).
Qed.

Lemma getitem_defined {A : Type} (l : list A) (i : Z) :
  (- len l <= i < len l)%Z -> getitem l i <> None.
Proof.
  intros Hi. unfold getitem.
  destruct (Z.ltb_spec i 0).
  - destruct (Z.ltb_spec (i + len l) 0); [lia|].
    apply nth_error_Some. unfold len in *. lia.
  - destruct (Z.ltb_spec i 0); [lia|].
    apply nth_error_Some. unfold len in *. lia.
Qed.

(** The display extraction on a document that has a line, at line numbers
    that are not negative. *)
Lemma extract_original_region_defined (original_lines : list str)
    (sl sc el ec : Z) :
  original_lines <> [] -> (0 <= sl)%Z -> (0 <= el)%Z ->
  extract_original_region original_lines sl sc el ec <> None.
Proof.
  intros Hne Hsl Hel.
  assert (Hlen : (0 < len original_lines)%Z)
    by (destruct original_lines; [contradiction | rewrite len_cons;
        pose proof (len_nonneg original_lines); lia]).
  unfold extract_original_region.
  destruct (Z.gtb_spec sl (len original_lines)); [discriminate|].
  destruct (Z.gtb_spec el (len original_lines)); [discriminate|].
  cbn [orb].
  assert (Hfirst : getitem original_lines (sl - 1) <> None)
    by (apply getitem_defined; lia).
  assert (Hlast : getitem original_lines (el - 1) <> None)
    by (apply getitem_defined; lia).
  destruct (getitem original_lines (sl - 1)) as [first|]; [|contradiction].
  destruct (Z.eqb_spec (sl - 1) (el - 1)).
  - cbn [bind]. destruct (_ <=? _)%Z; discriminate.
  - cbn [bind].
    assert (Hmid : mapM (fun line_idx =>
                           option_map rstrip_nl
                             (getitem original_lines line_idx))
                        (range (sl - 1 + 1) (el - 1)) <> None).
    { apply mapM_defined. intros k Hk. unfold range in Hk.
      apply in_map_iff in Hk. destruct Hk as (m & <- & Hm).
      apply in_seq in Hm.
      assert (Hg : getitem original_lines (sl - 1 + 1 + Z.of_nat m) <> None)
        by (apply getitem_defined; lia).
      destruct (getitem original_lines (sl - 1 + 1 + Z.of_nat m));
        [discriminate | contradiction]. }
    destruct (mapM _ _) as [middle|]; [|contradiction]. cbn [bind].
    destruct (Z.ltb_spec (el - 1) (len original_lines)); [|discriminate].
    destruct (getitem original_lines (el - 1)) as [last|]; [|contradiction].
    cbn [bind]. destruct (_ <=? _)%Z; discriminate.
Qed.

Lemma regions_loop_defined (env : Segmenters)
    (seams_sentences_in : list SeamsSentence)
    (comparison_sentences_in original_lines : list str)
    (comparison_method_in : str) (starts : list nat) :
  original_lines <> [] ->
  Forall (fun s => (0 <= s_start_line s)%Z /\ (0 <= s_end_line s)%Z)
         seams_sentences_in ->
  forall fast_idx,
    regions_loop env seams_sentences_in comparison_sentences_in original_lines
      comparison_method_in starts fast_idx <> None.
Proof.
  intros Hne Hcoords.
  induction starts as [|seams_start rest IH]; intros fast_idx;
    cbn [regions_loop]; [discriminate|].
  set (group := firstn 3 (skipn seams_start seams_sentences_in)).
  assert (Hgroup : Forall (fun s => (0 <= s_start_line s)%Z
                                    /\ (0 <= s_end_line s)%Z) group).
  { unfold group. rewrite Forall_forall in *. intros x Hx.
    apply Hcoords.
    rewrite <- (firstn_skipn seams_start seams_sentences_in).
    apply in_or_app. right.
    rewrite <- (firstn_skipn 3 (skipn seams_start seams_sentences_in)).
    apply in_or_app. now left. }
  assert (Hstep : region_step env comparison_sentences_in original_lines
                    comparison_method_in fast_idx group <> None).
  { unfold region_step. destruct group as [|first_sent others] eqn:Hg;
      [discriminate|].
    assert (Hlast : In (last (first_sent :: others) first_sent)
                       (first_sent :: others)).
    { destruct (exists_last (l := first_sent :: others) ltac:(discriminate))
        as (l' & x & E).
      rewrite E, last_last. apply in_or_app. right. now left. }
    rewrite Forall_forall in Hgroup.
    pose proof (extract_original_region_defined original_lines
                  (s_start_line first_sent) (s_start_col first_sent)
                  (s_end_line (last (first_sent :: others) first_sent))
                  (s_end_col (last (first_sent :: others) first_sent))
                  Hne
                  (proj1 (Hgroup first_sent (or_introl eq_refl)))
                  (proj2 (Hgroup _ Hlast))) as Hex.
    destruct (extract_original_region _ _ _ _ _) as [region|];
      [|contradiction].
    cbn [bind].
    destruct (str_eqb region [] || _); [discriminate|].
    destruct (negb _ && negb _); [|discriminate].
    destruct (get_nupunkt_pysbd_segmentations env (strip region)).
    destruct (should_filter_example env _); discriminate. }
  destruct (region_step _ _ _ _ _ _) as [r|]; [|contradiction].
  cbn [bind].
  specialize (IH (fst r)).
  destruct (regions_loop _ _ _ _ _ rest (fst r)); [discriminate | contradiction].
Qed.

(** X5: on a document that has at least one line, with seams sentences
    whose line numbers are not negative (as the parser yields them),
    [find_overlapping_regions] never raises; on a document without lines,
    the extraction raises for every span that passes its range test. *)
Theorem find_overlapping_regions_never_raises (env : Segmenters)
    (seams_sentences_in : list SeamsSentence)
    (comparison_sentences_in original_lines : list str)
    (comparison_method_in : str) :
  original_lines <> [] ->
  Forall (fun s => (0 <= s_start_line s)%Z /\ (0 <= s_end_line s)%Z)
         seams_sentences_in ->
  (exists examples,
      find_overlapping_regions env seams_sentences_in comparison_sentences_in
        original_lines comparison_method_in = Some examples)
  /\ (forall sl sc el ec, (sl <= 0)%Z -> (el <= 0)%Z ->
        extract_original_region [] sl sc el ec = None).
Proof.
  intros Hne Hcoords. split.
  - unfold find_overlapping_regions.
    pose proof (regions_loop_defined env seams_sentences_in
                  comparison_sentences_in original_lines comparison_method_in
                  (range_step (length seams_sentences_in - 1) 2)
                  Hne Hcoords 0) as H.
    destruct (regions_loop _ _ _ _ _ _ _) as [examples|]; [|contradiction].
    now exists examples.
  - intros sl sc el ec Hsl Hel. unfold extract_original_region.
    change (len (@nil str)) with 0%Z.
    destruct (Z.gtb_spec sl 0); [lia|].
    destruct (Z.gtb_spec el 0); [lia|]. cbn [orb].
    assert (Hg : getitem (@nil str) (sl - 1) = None).
    { unfold getitem. change (len (@nil str)) with 0%Z.
      destruct (Z.ltb_spec (sl - 1) 0); [|lia].
      destruct (Z.ltb_spec (sl - 1 + 0) 0); [reflexivity | lia]. }
    destruct (sl - 1 =? el - 1)%Z; rewrite Hg; reflexivity.
Qed.

(** X5, on an instance: the two-line document and its seams file. *)
Lemma find_overlapping_regions_rain_defined :
  (exists examples,
      find_overlapping_regions Scenarios.one_sentence Scenarios.rain_seams
        Scenarios.rain_fast (readlines Scenarios.rain_document) (lit "fast")
      = Some examples)
  /\ (forall sl sc el ec, (sl <= 0)%Z -> (el <= 0)%Z ->
        extract_original_region [] sl sc el ec = None).
Proof.
  apply (find_overlapping_regions_never_raises Scenarios.one_sentence
           Scenarios.rain_seams Scenarios.rain_fast
           (readlines Scenarios.rain_document) (lit "fast")).
  - vm_compute. discriminate.
  - repeat constructor; vm_compute; discriminate.
Defined.

End NoException.

(** ** What every boundary example carries *)

Section ExampleInvariants.

Import BoundaryGold.

Variable env : Segmenters.
Variable seams_sentences_in : list SeamsSentence.
Variables comparison_sentences_in original_lines : list str.
Variable comparison_method_in : str.

Lemma region_step_carries (fast_idx fast_idx' : nat)
    (group : list SeamsSentence) (out : list BoundaryExample) :
  region_step env comparison_sentences_in original_lines comparison_method_in
    fast_idx group = Some (fast_idx', out) ->
  forall ex, In ex out ->
    seams_sentences ex = map s_text group
    /\ comparison_method ex = comparison_method_in
    /\ source_file ex = []
    /\ existsb Re.is_lower_az (original_text ex) = true
    /\ incl (comparison_sentences ex) comparison_sentences_in
    /\ length (comparison_sentences ex) <= 25
    /\ (start_line ex <= len original_lines)%Z
    /\ (end_line ex <= len original_lines)%Z
    /\ (nupunkt_sentences ex, pysbd_sentences ex)
       = get_nupunkt_pysbd_segmentations env (original_text ex).
Proof.
  unfold region_step.
  destruct group as [|first_sent others];
    [intros E; inversion E; subst; intros ? []|].
  set (last_sent := last (first_sent :: others) first_sent).
  destruct (extract_original_region original_lines (s_start_line first_sent)
              (s_start_col first_sent) (s_end_line last_sent)
              (s_end_col last_sent)) as [region|] eqn:Hex; [|discriminate].
  cbn [bind].
  destruct (str_eqb region [] || (len region <? 50)%Z) eqn:Hshort;
    [intros E; inversion E; subst; intros ? []|].
  assert (Hrange : (s_start_line first_sent <= len original_lines)%Z
                   /\ (s_end_line last_sent <= len original_lines)%Z).
  { destruct (Z.le_gt_cases (s_start_line first_sent) (len original_lines));
      destruct (Z.le_gt_cases (s_end_line last_sent) (len original_lines));
      try (split; assumption);
      rewrite extract_out_of_range in Hex by lia;
      inversion Hex; subst region; discriminate. }
  set (hits := filter _ (seq _ _)).
  destruct (negb _ && negb _); [|intros E; inversion E; subst; intros ? []].
  destruct (get_nupunkt_pysbd_segmentations env (strip region))
    as [nu py] eqn:Hseg.
  destruct (should_filter_example env _) eqn:Hfilter;
    intros E; inversion E; subst; intros ex Hin; [destruct Hin|].
  destruct Hin as [<- | []]. cbn [seams_sentences comparison_method
    source_file original_text comparison_sentences start_line end_line
    nupunkt_sentences pysbd_sentences].
  assert (Hhits : forall i, In i hits -> i < length comparison_sentences_in).
  { intros i Hi. unfold hits in Hi. apply filter_In in Hi.
    destruct Hi as [Hi _]. apply in_seq in Hi. lia. }
  repeat split; try tauto.
  - unfold should_filter_example in Hfilter. cbn [original_text] in Hfilter.
    destruct (existsb Re.is_lower_az (strip region)); [reflexivity|].
    discriminate.
  - intros x Hx. apply in_map_iff in Hx. destruct Hx as (i & <- & Hi).
    apply nth_In. now apply Hhits.
  - rewrite length_map. unfold hits.
    etransitivity; [apply filter_length_le|]. rewrite length_seq. lia.
  - now rewrite Hseg.
Qed.

Lemma regions_loop_carries (starts : list nat) :
  Forall (fun seams_start => seams_start + 1 < length seams_sentences_in)
         starts ->
  forall fast_idx examples,
    regions_loop env seams_sentences_in comparison_sentences_in original_lines
      comparison_method_in starts fast_idx = Some examples ->
    forall ex, In ex examples ->
      2 <= length (seams_sentences ex) <= 3
      /\ comparison_method ex = comparison_method_in
      /\ source_file ex = []
      /\ existsb Re.is_lower_az (original_text ex) = true
      /\ incl (comparison_sentences ex) comparison_sentences_in
      /\ length (comparison_sentences ex) <= 25
      /\ (start_line ex <= len original_lines)%Z
      /\ (end_line ex <= len original_lines)%Z
      /\ (nupunkt_sentences ex, pysbd_sentences ex)
         = get_nupunkt_pysbd_segmentations env (original_text ex).
Proof.
  induction 1 as [|seams_start rest Hstart _ IH]; intros fast_idx examples.
  - cbn [regions_loop]. intros E; inversion E; subst. intros ? [].
  - cbn [regions_loop].
    destruct (region_step _ _ _ _ _ _) as [[fast_idx' out]|] eqn:Hstep;
      [|discriminate].
    cbn [bind fst snd].
    destruct (regions_loop _ _ _ _ _ rest fast_idx') as [more|] eqn:Hrest;
      [|discriminate].
    cbn [bind]. intros E; inversion E; subst. intros ex Hin.
    apply in_app_or in Hin. destruct Hin as [Hin | Hin].
    + destruct (region_step_carries _ _ _ _ Hstep ex Hin)
        as (Hs & Hrest').
      split; [|exact Hrest'].
      rewrite Hs, length_map, length_firstn, length_skipn. lia.
    + eapply IH; eassumption.
Qed.

End ExampleInvariants.

Lemma range_step_below (stop step x : nat) :
  0 < step -> In x (range_step stop step) -> x < stop.
Proof.
  intros Hstep Hx. unfold range_step in Hx.
  apply in_map_iff in Hx. destruct Hx as (k & <- & Hk).
  apply in_seq in Hk.
  pose proof (Nat.Div0.mul_div_le (stop + step - 1) step) as Hdiv.
  nia.
Qed.

(** X6: every example that [find_overlapping_regions] returns carries two
    or three seams sentences, the comparison method it was called with, an
    empty source file (the caller fills it in), a text with a lower-case
    letter, at most 25 comparison sentences, all of them sentences of the
    comparison file, start and end lines within the document, and the
    reference segmentations of its own text. *)
Theorem examples_carry (env : Segmenters)
    (seams_sentences_in : list SeamsSentence)
    (comparison_sentences_in original_lines : list str)
    (comparison_method_in : str) (examples : list BoundaryGold.BoundaryExample)
    (ex : BoundaryGold.BoundaryExample) :
  BoundaryGold.find_overlapping_regions env seams_sentences_in
    comparison_sentences_in original_lines comparison_method_in
  = Some examples ->
  In ex examples ->
  2 <= length (BoundaryGold.seams_sentences ex) <= 3
  /\ BoundaryGold.comparison_method ex = comparison_method_in
  /\ BoundaryGold.source_file ex = []
  /\ existsb Re.is_lower_az (BoundaryGold.original_text ex) = true
  /\ incl (BoundaryGold.comparison_sentences ex) comparison_sentences_in
  /\ length (BoundaryGold.comparison_sentences ex) <= 25
  /\ (BoundaryGold.start_line ex <= len original_lines)%Z
  /\ (BoundaryGold.end_line ex <= len original_lines)%Z
  /\ (BoundaryGold.nupunkt_sentences ex, BoundaryGold.pysbd_sentences ex)
     = BoundaryGold.get_nupunkt_pysbd_segmentations env
         (BoundaryGold.original_text ex).
Proof.
  intros Hrun Hin. unfold BoundaryGold.find_overlapping_regions in Hrun.
  eapply regions_loop_carries; [|exact Hrun | exact Hin].
  apply Forall_forall. intros x Hx.
  apply range_step_below in Hx; lia.
Qed.

(** X6, on an instance: the example of the two-line document. *)
Lemma examples_carry_rain :
  BoundaryGold.find_overlapping_regions Scenarios.one_sentence
    Scenarios.rain_seams Scenarios.rain_fast
    (readlines Scenarios.rain_document) (lit "fast")
  = Some [Scenarios.rain_example]
  /\ 2 <= length (BoundaryGold.seams_sentences Scenarios.rain_example) <= 3
  /\ incl (BoundaryGold.comparison_sentences Scenarios.rain_example)
          Scenarios.rain_fast.
Proof.
  split; [vm_compute; reflexivity|].
  pose proof (examples_carry Scenarios.one_sentence Scenarios.rain_seams
                Scenarios.rain_fast (readlines Scenarios.rain_document)
                (lit "fast") [Scenarios.rain_example] Scenarios.rain_example
                ltac:(vm_compute; reflexivity) (or_introl eq_refl))
    as (H1 & _ & _ & _ & H5 & _).
  split; [exact H1 | exact H5].
Defined.

(** ** Candidates and what the sampler makes of them *)

Lemma Permutation_filter_compat {A : Type} (f : A -> bool) (l l' : list A) :
  Permutation l l' -> Permutation (filter f l) (filter f l').
Proof.
  induction 1 as [|x l l' _ IH|x y l|l l' l'' _ IH1 _ IH2]; cbn [filter].
  - constructor.
  - destruct (f x); [now constructor | exact IH].
  - destruct (f x), (f y); try reflexivity. apply perm_swap.
  - now transitivity (filter f l').
Qed.

Lemma Permutation_filter_split {A : Type} (f : A -> bool) (l : list A) :
  Permutation l (filter f l ++ filter (fun x => negb (f x)) l).
Proof.
  induction l as [|x l IH]; cbn [filter]; [constructor|].
  destruct (f x); cbn [negb app].
  - now constructor.
  - now apply Permutation_cons_app.
Qed.

Lemma filter_all {A : Type} (f : A -> bool) (l : list A) :
  (forall x, In x l -> f x = true) -> filter f l = l.
Proof.
  induction l as [|x l IH]; intros H; cbn [filter]; [reflexivity|].
  rewrite (H x (or_introl eq_refl)). f_equal. apply IH.
  intros y Hy. apply H. now right.
Qed.

(** Distinct positions leave the rest of the population behind. *)
Lemma pick_leaves_rest {A : Type} (population : list A) (positions : list nat) :
  NoDup positions -> Forall (fun i => i < length population) positions ->
  exists rest,
    Permutation (BoundaryGold.pick population positions ++ rest) population.
Proof.
  intros Hnd Hlt.
  set (others := filter (fun i => negb (existsb (Nat.eqb i) positions))
                        (seq 0 (length population))).
  exists (BoundaryGold.pick population others).
  assert (Hperm : Permutation (positions ++ others)
                              (seq 0 (length population))).
  { apply NoDup_Permutation.
    - apply NoDup_app; [exact Hnd | apply NoDup_filter, seq_NoDup|].
      intros i Hi Ho. unfold others in Ho. apply filter_In in Ho.
      destruct Ho as [_ Ho]. apply negb_true_iff in Ho.
      assert (Ht : existsb (Nat.eqb i) positions = true)
        by (apply existsb_exists; exists i; split;
            [exact Hi | apply Nat.eqb_refl]).
      congruence.
    - apply seq_NoDup.
    - intros i. rewrite in_app_iff. unfold others. rewrite filter_In, in_seq.
      rewrite Forall_forall in Hlt. split.
      + intros [Hi | [Hi _]]; [specialize (Hlt i Hi)|]; lia.
      + intros Hi.
        destruct (existsb (Nat.eqb i) positions) eqn:E.
        * left. apply existsb_exists in E. destruct E as (j & Hj & E).
          apply Nat.eqb_eq in E. now subst.
        * right. split; [lia | reflexivity]. }
  rewrite <- (pick_all population) at 3.
  unfold BoundaryGold.pick at 1 2 3. rewrite <- flat_map_app.
  now apply Permutation_flat_map.
Qed.

Section SamplerShape.

Import BoundaryGold.

Context {S : Type} {RS : RandomSource S}.

Lemma random_sample_leaves_rest {A : Type} (st : S) (population : list A)
    (k : nat) :
  k <= length population ->
  length (fst (random_sample st population k)) = k
  /\ exists rest,
       Permutation (fst (random_sample st population k) ++ rest) population.
Proof.
  intros Hk. unfold random_sample. cbn [fst].
  destruct (@sample_positions_spec _ _ st (length population) k Hk)
    as (Hnd & Hlen & Hlt).
  split; [now rewrite pick_length | now apply pick_leaves_rest].
Qed.

(** The loop over the categories: at most [quota] from each, and none more
    often than the category has it. *)
Lemma sample_categories_leaves_rest
    (categories : list (str * list BoundaryExample)) (quota : nat) :
  forall st,
    length (fst (sample_categories categories quota st))
    <= quota * length categories
    /\ exists rest,
         Permutation (fst (sample_categories categories quota st) ++ rest)
                     (concat (map snd categories)).
Proof.
  induction categories as [|[key examples] others IH]; intros st.
  - split; [cbn; lia | exists []; reflexivity].
  - cbn [sample_categories map concat snd fst length].
    set (r := match examples with
              | [] => ([], st)
              | _ :: _ =>
                  random_sample st examples
                    (Nat.min (Nat.min (length examples) quota)
                             (length examples))
              end).
    assert (Hr : length (fst r) <= quota
                 /\ exists rest, Permutation (fst r ++ rest) examples).
    { unfold r. destruct examples as [|e examples'].
      - split; [cbn; lia | exists []; reflexivity].
      - destruct (random_sample_leaves_rest st (e :: examples')
                    (Nat.min (Nat.min (length (e :: examples')) quota)
                             (length (e :: examples'))) ltac:(lia))
          as [Hl Hrest].
        split; [lia | exact Hrest]. }
    destruct Hr as (Hl1 & rest1 & H1).
    destruct (IH (snd r)) as (Hl2 & rest2 & H2).
    split; [rewrite length_app; lia|].
    exists (rest1 ++ rest2).
    rewrite <- H1, <- H2. rewrite <- !app_assoc.
    apply Permutation_app_head. rewrite !app_assoc.
    apply Permutation_app_tail. apply Permutation_app_comm.
Qed.

(** What [build_boundary_gold_set] returns, step by step: the stratified
    selection, then the top-up drawn from the candidates not yet selected,
    rearranged; the slice at the end finds nothing to cut. *)
Lemma build_boundary_gold_set_steps (st : S)
    (all_examples : list BoundaryExample) (target_size : nat)
    (selected : list BoundaryExample) :
  selected = fst (sample_categories (examples_by_type all_examples)
                    (target_size / length (examples_by_type all_examples)) st) ->
  exists additional unused,
    Permutation (fst (build_boundary_gold_set st all_examples target_size))
                (selected ++ additional)
    /\ Permutation (additional ++ unused)
         (filter (fun ex => negb (mem BoundaryExample_eqb ex selected))
                 all_examples)
    /\ length selected <= target_size
    /\ length additional
       = Nat.min (target_size - length selected)
           (length (filter (fun ex =>
                              negb (mem BoundaryExample_eqb ex selected))
                           all_examples)).
Proof.
  intros ->. unfold build_boundary_gold_set.
  set (by_type := examples_by_type all_examples).
  set (r1 := sample_categories by_type (target_size / length by_type) st).
  destruct (sample_categories_leaves_rest by_type
              (target_size / length by_type) st) as [Hlen1 _].
  fold r1 in Hlen1.
  assert (Hle1 : length (fst r1) <= target_size).
  { pose proof (Nat.Div0.mul_div_le target_size (length by_type)). lia. }
  set (remaining := filter _ all_examples).
  pose proof (random_shuffle_spec (snd r1) (fst r1)) as Hsh1.
  destruct (Nat.ltb_spec (length (fst r1)) target_size) as [Hlt | Hge].
  - destruct remaining as [|e remaining'] eqn:Hremaining.
    + exists [], []. rewrite app_nil_r. cbn [length app fst].
      rewrite firstn_all2
        by (rewrite (Permutation_length Hsh1); exact Hle1).
      repeat split; [exact Hsh1 | constructor | exact Hle1 | lia].
    + rewrite <- Hremaining.
      set (k := Nat.min (target_size - length (fst r1)) (length remaining)).
      destruct (random_sample_leaves_rest (snd r1) remaining k
                  ltac:(unfold k; lia)) as (Hk & unused & Hrest).
      set (r := random_sample (snd r1) remaining k) in *.
      exists (fst r), unused. cbn [fst snd].
      pose proof (random_shuffle_spec (snd r) (fst r1 ++ fst r)) as Hsh.
      rewrite firstn_all2
        by (rewrite (Permutation_length Hsh), length_app, Hk; unfold k; lia).
      repeat split; [exact Hsh | exact Hrest | exact Hle1 | exact Hk].
  - exists [], remaining. rewrite app_nil_r. cbn [length app fst].
    rewrite firstn_all2 by (rewrite (Permutation_length Hsh1); exact Hle1).
    repeat split; [exact Hsh1 | reflexivity | exact Hle1 | lia].
Qed.



End SamplerShape.

Lemma str_eqb_eq (x y : str) : str_eqb x y = true <-> x = y.
Proof.
  unfold str_eqb. destruct (list_eq_dec ascii_dec x y); split;
    intros; congruence.
Qed.

Lemma str_eqb_refl (x : str) : str_eqb x x = true.
Proof. now apply str_eqb_eq. Qed.

Lemma str_eqb_sym (x y : str) : str_eqb x y = str_eqb y x.
Proof.
  unfold str_eqb.
  destruct (list_eq_dec ascii_dec x y), (list_eq_dec ascii_dec y x);
    congruence.
Qed.

Section SamplerStrata.

Import BoundaryGold Strata.

Context {S : Type} {RS : RandomSource S}.

(** Filing an example and reading a key back. *)
Lemma lookup_append_to_category (key : str) (example : BoundaryExample)
    (d : list (str * list BoundaryExample)) (key' : str) :
  lookup key' (append_to_category key example d)
  = lookup key' d ++ (if str_eqb key key' then [example] else []).
Proof.
  induction d as [|[k0 examples] d IH]; cbn [append_to_category lookup].
  - now destruct (str_eqb key key').
  - destruct (str_eqb k0 key) eqn:E; cbn [lookup].
    + apply str_eqb_eq in E. subst k0.
      destruct (str_eqb key key'); [reflexivity | now rewrite app_nil_r].
    + destruct (str_eqb k0 key') eqn:E'; [|exact IH].
      apply str_eqb_eq in E'. subst k0. rewrite str_eqb_sym, E.
      now rewrite app_nil_r.
Qed.

Lemma lookup_examples_by_type (all_examples : list BoundaryExample)
    (key : str) :
  lookup key (examples_by_type all_examples)
  = filter (in_category key) all_examples.
Proof.
  unfold examples_by_type.
  assert (H : forall d,
            lookup key (fold_left (fun d example =>
                          append_to_category (category_key example) example d)
                          all_examples d)
            = lookup key d ++ filter (in_category key) all_examples).
  { induction all_examples as [|x l IH]; intros d; cbn [fold_left filter].
    - now rewrite app_nil_r.
    - rewrite IH, lookup_append_to_category. rewrite <- app_assoc.
      f_equal. unfold in_category at 2.
      now destruct (str_eqb (category_key x) key). }
  apply (H []).
Qed.

Lemma append_to_category_keys (key : str) (example : BoundaryExample)
    (d : list (str * list BoundaryExample)) :
  forall k, In k (map fst (append_to_category key example d))
            <-> k = key \/ In k (map fst d).
Proof.
  induction d as [|[k0 examples] d IH]; intros k; cbn [append_to_category].
  - cbn. intuition.
  - destruct (str_eqb k0 key) eqn:E.
    + apply str_eqb_eq in E. subst k0. cbn. intuition.
    + cbn [map fst In]. rewrite IH. intuition.
Qed.

Lemma append_to_category_NoDup (key : str) (example : BoundaryExample)
    (d : list (str * list BoundaryExample)) :
  NoDup (map fst d) -> NoDup (map fst (append_to_category key example d)).
Proof.
  induction d as [|[k0 examples] d IH]; intros Hnd; cbn [append_to_category].
  - cbn. constructor; [intros [] | constructor].
  - cbn [map fst] in Hnd. inversion Hnd as [|? ? Hk0 Hrest]; subst.
    destruct (str_eqb k0 key) eqn:E; cbn [map fst]; [exact Hnd|].
    constructor; [|now apply IH].
    rewrite append_to_category_keys. intros [-> | Hin];
      [rewrite str_eqb_refl in E; discriminate | contradiction].
Qed.

(** The dictionary has each category key of the candidates once. *)
Lemma examples_by_type_keys (all_examples : list BoundaryExample) :
  NoDup (map fst (examples_by_type all_examples))
  /\ forall k, In k (map fst (examples_by_type all_examples))
               <-> In k (map category_key all_examples).
Proof.
  unfold examples_by_type.
  assert (H : forall d, NoDup (map fst d) ->
            NoDup (map fst (fold_left (fun d example =>
                     append_to_category (category_key example) example d)
                     all_examples d))
            /\ forall k,
                 In k (map fst (fold_left (fun d example =>
                         append_to_category (category_key example) example d)
                         all_examples d))
                 <-> In k (map fst d) \/ In k (map category_key all_examples)).
  { induction all_examples as [|x l IH]; intros d Hd; cbn [fold_left map In].
    - split; [exact Hd | intuition].
    - destruct (IH _ (append_to_category_NoDup (category_key x) x d Hd))
        as [Hnd Hk].
      split; [exact Hnd|]. intros k. rewrite Hk, append_to_category_keys.
      intuition. }
  destruct (H [] ltac:(constructor)) as [Hnd Hk].
  split; [exact Hnd|]. intros k. rewrite Hk. cbn. intuition.
Qed.

(** The loop over the categories takes [min(len(examples), quota)] examples
    of each key. *)
Lemma sample_categories_counts (d : list (str * list BoundaryExample))
    (quota : nat) (key : str) :
  (forall ex, In ex (lookup key d) -> in_category key ex = true) ->
  forall st,
    Nat.min (length (lookup key d)) quota
    <= length (filter (in_category key) (fst (sample_categories d quota st))).
Proof.
  intros Hkey.
  induction d as [|[k0 examples] d IH]; intros st;
    cbn [sample_categories lookup fst]; [cbn; lia|].
  set (r := match examples with
            | [] => ([], st)
            | _ :: _ =>
                random_sample st examples
                  (Nat.min (Nat.min (length examples) quota)
                           (length examples))
            end).
  rewrite filter_app, length_app.
  cbn [lookup] in Hkey.
  destruct (str_eqb k0 key) eqn:E.
  - assert (Hr : length (fst r) = Nat.min (length examples) quota
                 /\ incl (fst r) examples).
    { unfold r. destruct examples as [|e examples'].
      - split; [reflexivity | intros ? []].
      - destruct (random_sample_leaves_rest st (e :: examples')
                    (Nat.min (Nat.min (length (e :: examples')) quota)
                             (length (e :: examples'))) ltac:(lia))
          as [Hl _].
        split; [lia | apply pick_incl]. }
    destruct Hr as [Hl Hincl].
    rewrite (filter_all (in_category key) (fst r))
      by (intros x Hx; apply Hkey, Hincl, Hx).
    lia.
  - specialize (IH Hkey (snd r)). lia.
Qed.

(** X8: stratification.  With [G] categories among the candidates, every
    category is represented in the outcome by at least
    [min(size, target_size // G)] of its examples, whatever the random
    source; [G] counts each category key of the candidates once. *)
Theorem sampler_represents_every_category (st : S)
    (all_examples : list BoundaryExample) (target_size : nat) (key : str) :
  Nat.min (length (filter (in_category key) all_examples))
          (target_size / length (examples_by_type all_examples))
  <= length (filter (in_category key)
               (fst (build_boundary_gold_set st all_examples target_size)))
  /\ NoDup (map fst (examples_by_type all_examples))
  /\ (forall k, In k (map fst (examples_by_type all_examples))
                <-> In k (map category_key all_examples)).
Proof.
  split; [|apply examples_by_type_keys].
  destruct (build_boundary_gold_set_steps st all_examples target_size _ eq_refl)
    as (additional & _ & Hperm & _).
  rewrite (Permutation_length (Permutation_filter_compat _ _ _ Hperm)).
  rewrite filter_app, length_app.
  rewrite <- lookup_examples_by_type.
  pose proof (sample_categories_counts (examples_by_type all_examples)
                (target_size / length (examples_by_type all_examples)) key)
    as Hcount.
  rewrite lookup_examples_by_type in Hcount.
  specialize (Hcount ltac:(intros ex Hex; apply filter_In in Hex; tauto) st).
  rewrite lookup_examples_by_type. lia.
Qed.

End SamplerStrata.

Section SamplerExhausts.

Import BoundaryGold.

Context {S : Type} {RS : RandomSource S}.

(** X9: when the candidates differ from one another and are not more than
    [target_size], the sampler returns all of them, each once, in some
    order. *)
Theorem sampler_returns_all_of_a_small_pool (st : S)
    (all_examples : list BoundaryExample) (target_size : nat) :
  NoDup all_examples ->
  length all_examples <= target_size ->
  Permutation (fst (build_boundary_gold_set st all_examples target_size))
              all_examples.
Proof.
  intros Hall Hsize.
  destruct (build_boundary_gold_set_steps st all_examples target_size _ eq_refl)
    as (additional & unused & Hperm & Hrest & Hle & Hk).
  set (selected := fst (sample_categories _ _ st)) in *.
  pose proof (examples_by_type_members all_examples) as Hmembers.
  destruct (sample_categories_spec (examples_by_type all_examples)
              (target_size / length (examples_by_type all_examples)) st
              (Permutation_NoDup (Permutation_sym Hmembers) Hall))
    as (Hnd1 & Hincl1 & _).
  fold selected in Hnd1, Hincl1.
  assert (Hin1 : incl selected all_examples).
  { intros x Hx. eapply Permutation_in; [exact Hmembers | now apply Hincl1]. }
  pose proof (remaining_length all_examples selected Hall Hnd1 Hin1) as Hrem.
  pose proof (NoDup_incl_length Hnd1 Hin1) as Hsel.
  assert (Hunused : unused = []).
  { apply Permutation_length in Hrest. rewrite length_app in Hrest.
    destruct unused; [reflexivity | cbn [length] in Hrest; lia]. }
  subst unused. rewrite app_nil_r in Hrest.
  rewrite Hperm, Hrest.
  apply Permutation_trans
    with (filter (fun ex => mem BoundaryExample_eqb ex selected) all_examples
          ++ filter (fun ex => negb (mem BoundaryExample_eqb ex selected))
                    all_examples);
    [|symmetry; apply Permutation_filter_split].
  apply Permutation_app_tail.
  apply NoDup_Permutation; [exact Hnd1 | now apply NoDup_filter|].
  intros x. rewrite filter_In, mem_In. split; [|now intros []].
  intros Hx. split; [now apply Hin1 | exact Hx].
Qed.

End SamplerExhausts.

(** X9, on an instance: four candidates and a target of five. *)
Lemma sampler_all_four_of_five :
  NoDup ToyRandom.four_candidates
  /\ length ToyRandom.four_candidates <= 5
  /\ Permutation
       (fst (BoundaryGold.build_boundary_gold_set (RS := ToyRandom.source)
               42%Z ToyRandom.four_candidates 5))
       ToyRandom.four_candidates.
Proof.
  split; [exact four_candidates_differ|].
  split; [cbn; lia|].
  apply (sampler_returns_all_of_a_small_pool (RS := ToyRandom.source) 42%Z
           ToyRandom.four_candidates 5 four_candidates_differ).
  cbn. lia.
Defined.

(** ** White-space normalisation *)

Section Normalisation.

Import Words SeamsScripts.

Lemma split_ws_cons (c : ascii) (s : str) :
  split_ws (c :: s)
  = if isspace c then split_ws s
    else match s with
         | [] => [[c]]
         | c' :: _ =>
             if isspace c' then [c] :: split_ws s
             else match split_ws s with
                  | [] => [[c]]
                  | w :: ws => (c :: w) :: ws
                  end
         end.
Proof. reflexivity. Qed.

Lemma word_cons (c : ascii) (w : str) :
  isspace c = false -> Forall (fun c => isspace c = false) w -> word (c :: w).
Proof. intros Hc Hw. split; [discriminate | now constructor]. Qed.

(** [str.split] yields words. *)
Lemma split_ws_words (s : str) : Forall word (split_ws s).
Proof.
  induction s as [|c s IH]; [constructor|].
  rewrite split_ws_cons.
  destruct (isspace c) eqn:Hc; [exact IH|].
  destruct s as [|c' s']; [repeat constructor; [discriminate | exact Hc]|].
  destruct (isspace c') eqn:Hc'.
  - constructor; [|exact IH]. apply word_cons; [exact Hc | constructor].
  - destruct (split_ws (c' :: s')) as [|w ws];
      [repeat constructor; [discriminate | exact Hc]|].
    inversion IH as [|? ? [_ Hw] Hws]; subst.
    constructor; [|exact Hws]. now apply word_cons.
Qed.

Lemma split_ws_word (w : str) : word w -> split_ws w = [w].
Proof.
  intros [Hne Hw]. revert Hne.
  induction Hw as [|c w Hc Hw IH]; intros Hne; [contradiction|].
  rewrite split_ws_cons, Hc.
  destruct w as [|c' w']; [reflexivity|].
  inversion Hw as [|? ? Hc' _]; subst. rewrite Hc'.
  now rewrite IH by discriminate.
Qed.

Lemma split_ws_word_space (w rest : str) (sep : ascii) :
  word w -> isspace sep = true ->
  split_ws (w ++ sep :: rest) = w :: split_ws rest.
Proof.
  intros [Hne Hw] Hsep. revert Hne.
  induction Hw as [|c w Hc Hw IH]; intros Hne; [contradiction|].
  cbn [app]. rewrite split_ws_cons, Hc.
  destruct w as [|c' w'].
  - cbn [app]. rewrite Hsep. now rewrite split_ws_cons, Hsep.
  - inversion Hw as [|? ? Hc' _]; subst. cbn [app] in *. rewrite Hc'.
    now rewrite IH by discriminate.
Qed.

(** Joining words with single spaces and splitting again. *)
Lemma split_ws_join (ws : list str) :
  Forall word ws -> split_ws (join [space] ws) = ws.
Proof.
  induction 1 as [|w ws Hw Hws IH]; [reflexivity|].
  destruct ws as [|w' ws'].
  - now apply split_ws_word.
  - change (join [space] (w :: w' :: ws'))
      with (w ++ space :: join [space] (w' :: ws')).
    rewrite split_ws_word_space by (trivial; reflexivity).
    now rewrite IH.
Qed.

Lemma join_words_ends (ws : list str) :
  Forall word ws -> ws <> [] ->
  (exists c rest, join [space] ws = c :: rest /\ isspace c = false)
  /\ (exists front c, join [space] ws = front ++ [c] /\ isspace c = false).
Proof.
  induction 1 as [|w ws [Hne Hw] Hws IH]; intros Hnil; [contradiction|].
  clear Hnil.
  assert (Hfirst : exists c rest, w = c :: rest /\ isspace c = false).
  { destruct w as [|c rest]; [contradiction|].
    inversion Hw; subst. now exists c, rest. }
  assert (Hlast : exists front c, w = front ++ [c] /\ isspace c = false).
  { destruct (exists_last Hne) as (front & c & ->).
    exists front, c. split; [reflexivity|].
    apply Forall_app in Hw. destruct Hw as [_ Hc]. now inversion Hc. }
  destruct ws as [|w' ws'].
  - cbn [join]. split; assumption.
  - change (join [space] (w :: w' :: ws'))
      with (w ++ space :: join [space] (w' :: ws')).
    split.
    + destruct Hfirst as (c & rest & -> & Hc).
      exists c, (rest ++ space :: join [space] (w' :: ws')). now split.
    + destruct (IH ltac:(discriminate)) as [_ (front & c & E & Hc)].
      exists (w ++ space :: front), c. rewrite E. split; [|exact Hc].
      now rewrite <- app_assoc.
Qed.

(** [str.strip] finds nothing to remove from words joined by spaces. *)
Lemma strip_join_words (ws : list str) :
  Forall word ws -> strip (join [space] ws) = join [space] ws.
Proof.
  intros Hws. destruct ws as [|w ws]; [reflexivity|].
  destruct (join_words_ends _ Hws ltac:(discriminate))
    as [(c & rest & E1 & Hc1) (front & c' & E2 & Hc2)].
  unfold strip, lstrip_by, rstrip_by.
  rewrite E1 at 1. cbn [dropwhile]. rewrite Hc1. rewrite <- E1.
  rewrite E2 at 1. rewrite rev_app_distr. cbn [rev app dropwhile].
  rewrite Hc2. cbn [rev]. rewrite rev_involutive. now rewrite E2.
Qed.

(** X10: [normalize_text] (and [normalize_for_comparison], which has the
    same body) returns the words of the text joined by single spaces: the
    final [strip()] removes nothing, splitting the result gives the words
    back, and normalising twice is normalising once. *)
Theorem normalize_text_is_words_joined (text : str) :
  normalize_text text = join [space] (split_ws text)
  /\ SeamsDisagreementSet.normalize_for_comparison text
     = join [space] (split_ws text)
  /\ split_ws (normalize_text text) = split_ws text
  /\ normalize_text (normalize_text text) = normalize_text text.
Proof.
  assert (H : normalize_text text = join [space] (split_ws text))
    by (apply strip_join_words, split_ws_words).
  split; [exact H|]. split; [exact H|].
  assert (H2 : split_ws (normalize_text text) = split_ws text)
    by (rewrite H; apply split_ws_join, split_ws_words).
  split; [exact H2|].
  unfold normalize_text at 1. rewrite H2. reflexivity.
Qed.

End Normalisation.

(** ** What the exact comparison compares *)

Section ExactComparison.

Import Words SeamsScripts SeamsDifferences.

Lemma split_ws_nonspace (c : ascii) (s : str) :
  isspace c = false -> split_ws (c :: s) <> [].
Proof.
  intros Hc. rewrite split_ws_cons, Hc.
  destruct s as [|c' s']; [discriminate|].
  destruct (isspace c'); [discriminate|].
  destruct (split_ws (c' :: s')); discriminate.
Qed.

(** A white-space character between two texts separates their words. *)
Lemma split_ws_app_space (x y : str) (sep : ascii) :
  isspace sep = true ->
  split_ws (x ++ sep :: y) = split_ws x ++ split_ws y.
Proof.
  intros Hsep. induction x as [|c x IH].
  - cbn [app]. now rewrite split_ws_cons, Hsep.
  - cbn [app]. rewrite !(split_ws_cons c).
    destruct (isspace c) eqn:Hc; [exact IH|].
    destruct x as [|c' x'].
    + cbn [app]. rewrite Hsep. now rewrite split_ws_cons, Hsep.
    + cbn [app] in *. destruct (isspace c') eqn:Hc'.
      * now rewrite IH.
      * rewrite IH.
        pose proof (split_ws_nonspace c' x' Hc') as Hne.
        destruct (split_ws (c' :: x')) as [|w ws]; [contradiction|].
        reflexivity.
Qed.

Lemma split_ws_join_texts (texts : list str) :
  split_ws (join [space] texts) = words_of texts.
Proof.
  unfold words_of.
  induction texts as [|x texts IH]; [reflexivity|].
  destruct texts as [|y texts'].
  - cbn [join map concat]. now rewrite app_nil_r.
  - change (join [space] (x :: y :: texts'))
      with (x ++ space :: join [space] (y :: texts')).
    rewrite split_ws_app_space by reflexivity. rewrite IH. reflexivity.
Qed.

Lemma normalize_text_words (text : str) :
  normalize_text text = join [space] (split_ws text).
Proof. apply strip_join_words, split_ws_words. Qed.

Lemma words_of_normalized (sentences : list str) :
  words_of (map normalize_text sentences) = words_of sentences.
Proof.
  unfold words_of. rewrite map_map. f_equal. apply map_ext. intros s.
  rewrite normalize_text_words. apply split_ws_join, split_ws_words.
Qed.

(** Joining groups of words, none of them empty, is joining the words. *)
Lemma join_groups (groups : list (list str)) :
  Forall (fun g => g <> []) groups ->
  join [space] (map (join [space]) groups) = join [space] (concat groups).
Proof.
  assert (Happ : forall g rest : list str, g <> [] -> rest <> [] ->
            join [space] (g ++ rest)
            = join [space] g ++ space :: join [space] rest).
  { induction g as [|w g IH]; intros rest Hg Hrest; [contradiction|].
    destruct g as [|w' g'].
    - cbn [app]. destruct rest; [contradiction | reflexivity].
    - change (join [space] ((w :: w' :: g') ++ rest))
        with (w ++ space :: join [space] ((w' :: g') ++ rest)).
      rewrite IH by (trivial; discriminate).
      change (join [space] (w :: w' :: g'))
        with (w ++ space :: join [space] (w' :: g')).
      now rewrite <- app_assoc. }
  induction 1 as [|g groups Hg Hgroups IH]; [reflexivity|].
  destruct groups as [|g' groups'].
  - cbn [map join concat]. now rewrite app_nil_r.
  - change (join [space] (map (join [space]) (g :: g' :: groups')))
      with (join [space] g
            ++ space :: join [space] (map (join [space]) (g' :: groups'))).
    rewrite IH.
    change (concat (g :: g' :: groups')) with (g ++ concat (g' :: groups')).
    rewrite (Happ g (concat (g' :: groups'))); [reflexivity | exact Hg|].
    inversion Hgroups as [|? ? Hg' _]; subst.
    cbn [concat]. destruct g'; [contradiction | discriminate].
Qed.

Lemma joined_text_of_words (sentences : list str) :
  Forall (fun s => split_ws s <> []) sentences ->
  join [space] (map normalize_text sentences)
  = join [space] (words_of sentences).
Proof.
  intros H. unfold words_of. rewrite <- join_groups.
  - rewrite map_map. f_equal. apply map_ext. intros s.
    apply normalize_text_words.
  - now apply Forall_map.
Qed.

(** X11: what [segmentations_differ] compares.  On sentences none of which
    is blank, two segmentations are reported equal exactly when they have
    the same number of sentences and the same words in the same order;
    where the sentence boundaries fall plays no part. *)
Theorem segmentations_differ_compares_words (seams other : list str) :
  Forall (fun s => split_ws s <> []) (seams ++ other) ->
  (segmentations_differ seams other = false
   <-> length seams = length other /\ words_of seams = words_of other).
Proof.
  intros Hblank. apply Forall_app in Hblank. destruct Hblank as [Hs Ho].
  unfold segmentations_differ.
  destruct (Nat.eqb_spec (length seams) (length other)) as [Hlen | Hlen];
    cbn [negb]; [|split; [discriminate | tauto]].
  rewrite negb_false_iff, str_eqb_eq.
  rewrite !joined_text_of_words by assumption.
  split.
  - intros E. split; [exact Hlen|].
    apply (f_equal split_ws) in E.
    rewrite !split_ws_join in E; [exact E | |];
      unfold words_of; apply Forall_concat, Forall_map, Forall_forall;
      intros; apply split_ws_words.
  - intros [_ E]. now rewrite E.
Qed.

(** X11, on an instance: a boundary moved by one word goes unnoticed. *)
Lemma moved_boundary_is_no_difference :
  Forall (fun s => split_ws s <> [])
         ([lit "He said hi. She"; lit "left."]
          ++ [lit "He said hi."; lit "She left."])
  /\ segmentations_differ [lit "He said hi. She"; lit "left."]
                          [lit "He said hi."; lit "She left."] = false.
Proof.
  assert (H : Forall (fun s => split_ws s <> [])
                ([lit "He said hi. She"; lit "left."]
                 ++ [lit "He said hi."; lit "She left."]))
    by (repeat constructor; discriminate).
  split; [exact H|].
  apply (proj2 (segmentations_differ_compares_words
                  [lit "He said hi. She"; lit "left."]
                  [lit "He said hi."; lit "She left."] H)).
  split; reflexivity.
Defined.

End ExactComparison.

(** ** The matcher on a text and itself *)

Section MatcherDiagonal.

Import Difflib.

Variable s : str.

(** Whether the element at [i] is in [b2j]: it exists and is not popular. *)
Let kept (i : nat) : bool :=
  match nth_error s i with
  | Some c => negb (popular s c)
  | None => false
  end.

(** The number of consecutive kept elements that end at [i]. *)
Let run : nat -> nat :=
  fix run (i : nat) : nat :=
    if kept i
    then Datatypes.S (match i with 0 => 0 | Datatypes.S i' => run i' end)
    else 0.

Let before (i : nat) : nat :=
  match i with 0 => 0 | Datatypes.S i' => run i' end.

(** A block on the diagonal, inside the text. *)
Let diagonal (best : nat * nat * nat) : Prop :=
  fst (fst best) = snd (fst best) /\ fst (fst best) + snd best <= length s.

Lemma run_unfold (i : nat) :
  run i = if kept i then Datatypes.S (before i) else 0.
Proof. destruct i; reflexivity. Qed.

Lemma run_le (i : nat) : run i <= i + 1.
Proof.
  induction i as [|i IH]; rewrite run_unfold; destruct (kept _);
    cbn [before]; lia.
Qed.

Lemma kept_of (i : nat) (c : ascii) :
  nth_error s i = Some c -> popular s c = false -> kept i = true.
Proof. intros H1 H2. unfold kept. now rewrite H1, H2. Qed.

Lemma scan_row_diagonal (i : nat) (c : ascii) (j2len : list (nat * nat)) :
  nth_error s i = Some c -> popular s c = false ->
  (forall j, j2len_get j2len j <= run j) ->
  (forall j, j2len_get j2len j <= before i) ->
  (forall i', i = Datatypes.S i' -> j2len_get j2len i' = run i') ->
  forall l j0 newj2len best,
    skipn j0 s = l ->
    (forall j, j2len_get newj2len j <= run j) ->
    (forall j, j2len_get newj2len j <= run i) ->
    diagonal best ->
    (forall j, j < i -> run j <= snd best) ->
    (i < j0 -> j2len_get newj2len i = run i /\ run i <= snd best) ->
    let r := scan_row (indices_of c l j0) 0 (length s) i j2len newj2len best in
    (forall j, j2len_get (fst r) j <= run j)
    /\ (forall j, j2len_get (fst r) j <= run i)
    /\ j2len_get (fst r) i = run i
    /\ diagonal (snd r)
    /\ (forall j, j <= i -> run j <= snd (snd r)).
Proof.
  intros Hi Hc Hold1 Hold2 Hold3.
  assert (Hlt : i < length s) by (apply nth_error_Some; congruence).
  assert (Hrun_i : run i = Datatypes.S (before i))
    by (rewrite run_unfold, (kept_of i c Hi Hc); reflexivity).
  induction l as [|x l IH]; intros j0 newj2len best Hskip Hn1 Hn2 Hd Hrows Hdone;
    cbn [indices_of].
  - assert (Hj0 : i < j0).
    { destruct (Nat.le_gt_cases j0 i) as [Hle | Hgt]; [|exact Hgt].
      apply (f_equal (@length _)) in Hskip. rewrite length_skipn in Hskip.
      cbn [length] in Hskip. lia. }
    destruct (Hdone Hj0) as [H1 H2]. cbv zeta. cbn [scan_row fst snd].
    split; [exact Hn1|]. split; [exact Hn2|]. split; [exact H1|].
    split; [exact Hd|].
    intros j Hj. destruct (Nat.eq_dec j i) as [-> | Hne];
      [exact H2 | apply Hrows; lia].
  - assert (Hx : nth_error s j0 = Some x).
    { rewrite <- (Nat.add_0_r j0), <- nth_error_skipn, Hskip. reflexivity. }
    assert (Hj0 : j0 < length s) by (apply nth_error_Some; congruence).
    assert (Hskip' : skipn (Datatypes.S j0) s = l).
    { replace (Datatypes.S j0) with (1 + j0) by lia.
      rewrite <- skipn_skipn, Hskip. reflexivity. }
    destruct (Ascii.eqb x c) eqn:Hxc.
    + apply Ascii.eqb_eq in Hxc. subst x.
      cbn [scan_row]. change (j0 <? 0) with false. cbv iota.
      destruct (Nat.leb_spec (length s) j0) as [Hge | _]; [lia|].
      set (k := match j0 with
                | 0 => 0
                | Datatypes.S j' => j2len_get j2len j'
                end + 1).
      assert (Hrun_j0 : run j0 = Datatypes.S (before j0))
        by (rewrite run_unfold, (kept_of j0 c Hx Hc); reflexivity).
      assert (Hk1 : k <= run j0).
      { unfold k. rewrite Hrun_j0. destruct j0 as [|j'];
          [cbn [before]; lia|]. cbn [before]. specialize (Hold1 j'). lia. }
      assert (Hk2 : k <= run i).
      { unfold k. rewrite Hrun_i. destruct j0 as [|j']; [lia|].
        specialize (Hold2 j'). lia. }
      assert (Hk3 : j0 = i -> k = run i).
      { intros ->. unfold k. rewrite Hrun_i. destruct i as [|i'];
          [reflexivity|]. cbn [before]. rewrite (Hold3 i' eq_refl). lia. }
      destruct best as [[besti bestj] bestsize].
      cbn [fst snd] in Hrows, Hdone.
      set (best' := if bestsize <? k then (i + 1 - k, j0 + 1 - k, k)
                    else (besti, bestj, bestsize)).
      assert (Hgrow : bestsize <= snd best').
      { unfold best'. destruct (Nat.ltb_spec bestsize k); cbn [snd]; lia. }
      pose proof (run_le i) as Hrunle.
      apply IH; try assumption.
      * intros j. cbn [j2len_get].
        destruct (Nat.eqb_spec j0 j) as [<- | _]; [exact Hk1 | apply Hn1].
      * intros j. cbn [j2len_get].
        destruct (Nat.eqb_spec j0 j) as [<- | _]; [exact Hk2 | apply Hn2].
      * unfold best'. destruct (Nat.ltb_spec bestsize k) as [Hup | _];
          [|exact Hd].
        destruct (Nat.lt_trichotomy j0 i) as [Hlt' | [-> | Hgt]].
        -- specialize (Hrows j0 Hlt'). lia.
        -- split; cbn [fst snd]; lia.
        -- destruct (Hdone Hgt) as [_ H2]. lia.
      * intros j Hj. specialize (Hrows j Hj). lia.
      * intros Hlt'. cbn [j2len_get].
        destruct (Nat.eqb_spec j0 i) as [E | Hne].
        -- split; [now apply Hk3|]. unfold best'.
           rewrite <- (Hk3 E).
           destruct (Nat.ltb_spec bestsize k); cbn [snd]; lia.
        -- destruct (Hdone ltac:(lia)) as [H1 H2]. split; [exact H1 | lia].
    + apply IH; try assumption.
      intros Hlt'. apply Hdone.
      destruct (Nat.eq_dec i j0) as [-> | Hne]; [|lia].
      rewrite Hx in Hi. inversion Hi; subst x.
      rewrite Ascii.eqb_refl in Hxc. discriminate.
Qed.

Lemma scan_rows_diagonal (m : nat) :
  forall i j2len best,
    i + m = length s ->
    (forall j, j2len_get j2len j <= run j) ->
    (forall j, j2len_get j2len j <= before i) ->
    (forall i', i = Datatypes.S i' -> j2len_get j2len i' = run i') ->
    diagonal best ->
    (forall j, j < i -> run j <= snd best) ->
    diagonal (scan_rows s s (seq i m) 0 (length s) j2len best).
Proof.
  induction m as [|m IH]; intros i j2len best Hm Hold1 Hold2 Hold3 Hd Hrows;
    cbn [seq scan_rows]; [exact Hd|].
  destruct (nth_error s i) as [c|] eqn:Hi;
    [|apply nth_error_None in Hi; lia].
  unfold b2j. destruct (popular s c) eqn:Hc.
  - cbn [scan_row].
    assert (Hrun : run i = 0)
      by (rewrite run_unfold; unfold kept; now rewrite Hi, Hc).
    apply IH; try assumption; try lia.
    + intros j. cbn. lia.
    + intros j. cbn. lia.
    + intros i' E. inversion E; subst i'. cbn. lia.
    + intros j Hj. destruct (Nat.eq_dec j i) as [-> | Hne];
        [lia | apply Hrows; lia].
  - pose proof (scan_row_diagonal i c j2len Hi Hc Hold1 Hold2 Hold3
                  s 0 [] best eq_refl
                  ltac:(intros j; cbn; lia) ltac:(intros j; cbn; lia)
                  Hd Hrows ltac:(lia)) as H.
    cbv zeta in H.
    destruct (scan_row (indices_of c s 0) 0 (length s) i j2len [] best)
      as [newj2len best'].
    cbn [fst snd] in H. destruct H as (H1 & H2 & H3 & H4 & H5).
    apply IH; try assumption; try lia.
    + intros i' E. inversion E; subst i'. exact H3.
    + intros j Hj. apply H5. lia.
Qed.

Lemma eq_at_same (i : nat) : i < length s -> eq_at s s i i = true.
Proof.
  intros Hi. unfold eq_at.
  destruct (nth_error s i) as [c|] eqn:E;
    [apply Ascii.eqb_refl | apply nth_error_None in E; lia].
Qed.

Lemma extend_left_diagonal :
  forall i k, i <= length s -> extend_left s s 0 0 i i k = (0, 0, i + k).
Proof.
  induction i as [|i IH]; intros k Hi; cbn [extend_left]; [reflexivity|].
  replace (Datatypes.S i - 1) with i by lia.
  change (0 <? Datatypes.S i) with true.
  rewrite eq_at_same by lia. cbn [andb].
  rewrite IH by lia. f_equal. lia.
Qed.

Lemma extend_right_diagonal :
  forall gap k,
    k + gap = length s -> extend_right s s gap (length s) 0 0 k = length s.
Proof.
  induction gap as [|gap IH]; intros k Hk; cbn [extend_right]; [lia|].
  cbn [Nat.add].
  destruct (Nat.ltb_spec k (length s)) as [Hlt | Hge]; [|lia].
  rewrite eq_at_same by lia. cbn [andb]. apply IH. lia.
Qed.

(** The longest match of a text with itself is the whole text. *)
Lemma find_longest_match_same :
  find_longest_match s s 0 (length s) 0 (length s) = (0, 0, length s).
Proof.
  unfold find_longest_match. rewrite Nat.sub_0_r.
  pose proof (scan_rows_diagonal (length s) 0 [] (0, 0, 0) eq_refl
                ltac:(intros j; cbn; lia) ltac:(intros j; cbn; lia)
                ltac:(intros i' E; discriminate)
                ltac:(split; cbn; lia) ltac:(intros j Hj; lia)) as Hd.
  destruct (scan_rows s s (seq 0 (length s)) 0 (length s) [] (0, 0, 0))
    as [[i0 j0] k0].
  destruct Hd as [Hij Hk]. cbn [fst snd] in Hij, Hk. subst j0.
  rewrite extend_left_diagonal by lia.
  rewrite extend_right_diagonal by lia. reflexivity.
Qed.

Lemma matches_same : matches s s = length s.
Proof.
  unfold matches. cbn [matches_aux]. rewrite find_longest_match_same.
  destruct (Nat.eqb_spec (length s) 0) as [E | _]; [now rewrite E|].
  change (0 <? 0) with false. cbn [andb bind].
  rewrite Nat.add_0_l, Nat.ltb_irrefl. cbn [andb bind]. f_equal. lia.
Qed.

(** A text is similar to itself at every threshold up to 1; 0.9 is the
    one the script uses. *)
Lemma ratio_same_ge : ge (ratio s s) (Qmake 9 10) = true.
Proof.
  unfold ge, ratio. rewrite matches_same.
  destruct (Nat.eqb_spec (length s + length s) 0) as [E | E];
    [reflexivity|].
  unfold Qle_bool. cbn [Qnum Qden]. apply Z.leb_le.
  assert (H : Z.pos (Pos.of_nat (length s + length s))
              = Z.of_nat (length s + length s)).
  { rewrite <- (Nat2Pos.id (length s + length s)) at 2 by exact E.
    now rewrite positive_nat_Z. }
  rewrite H. lia.
Qed.

End MatcherDiagonal.

(** ** Agreement, exact and approximate *)

Section Agreement.

Import SeamsScripts SeamsDisagreementSet.

Lemma similar_of_equal_texts (seams other : list str) :
  length seams = length other ->
  join [space] (map normalize_for_comparison seams)
  = join [space] (map normalize_for_comparison other) ->
  sentences_are_similar seams other = true.
Proof.
  intros Hlen Htext. unfold sentences_are_similar, sentences_are_similar_at.
  rewrite Hlen, Nat.eqb_refl. cbn [negb]. rewrite Htext.
  apply ratio_same_ge.
Qed.

(** X12: a segmentation is similar to itself, whatever its sentences and
    however long its text (the matcher's treatment of frequent characters
    in texts of 200 characters and more does not get in the way); so three
    identical segmentations are classified 'no_disagreement'. *)
Theorem segmentation_is_similar_to_itself (sentences : list str) :
  sentences_are_similar sentences sentences = true
  /\ classify_disagreement sentences sentences sentences
     = lit "no_disagreement".
Proof.
  assert (H : sentences_are_similar sentences sentences = true)
    by now apply similar_of_equal_texts.
  split; [exact H|].
  unfold classify_disagreement. rewrite H. reflexivity.
Qed.

(** X13: the two scripts agree on agreement.  Segmentations that
    [find_seams_differences.py] takes for equal are similar for
    [build_seams_disagreement_set.py]: when seams differs from neither
    reference in the first sense, the three-way classifier answers
    'no_disagreement'. *)
Theorem exact_agreement_is_no_disagreement (seams pysbd nupunkt : list str) :
  SeamsDifferences.segmentations_differ seams pysbd = false ->
  SeamsDifferences.segmentations_differ seams nupunkt = false ->
  sentences_are_similar seams pysbd = true
  /\ sentences_are_similar seams nupunkt = true
  /\ classify_disagreement seams pysbd nupunkt = lit "no_disagreement".
Proof.
  assert (H : forall other,
            SeamsDifferences.segmentations_differ seams other = false ->
            sentences_are_similar seams other = true).
  { intros other. unfold SeamsDifferences.segmentations_differ.
    destruct (Nat.eqb_spec (length seams) (length other)) as [Hlen | _];
      cbn [negb]; [|discriminate].
    rewrite negb_false_iff, str_eqb_eq. intros Htext.
    now apply similar_of_equal_texts. }
  intros Hp Hn. apply H in Hp. apply H in Hn.
  split; [exact Hp|]. split; [exact Hn|].
  unfold classify_disagreement. rewrite Hp, Hn. reflexivity.
Qed.

(** X13, on an instance: a boundary moved by one word. *)
Lemma moved_boundary_is_no_disagreement :
  sentences_are_similar [lit "He said hi. She"; lit "left."]
                        [lit "He said hi."; lit "She left."] = true
  /\ sentences_are_similar [lit "He said hi. She"; lit "left."]
                           [lit "He said hi."; lit "She left."] = true
  /\ classify_disagreement [lit "He said hi. She"; lit "left."]
                           [lit "He said hi."; lit "She left."]
                           [lit "He said hi."; lit "She left."]
     = lit "no_disagreement".
Proof.
  apply (exact_agreement_is_no_disagreement
           [lit "He said hi. She"; lit "left."]
           [lit "He said hi."; lit "She left."]
           [lit "He said hi."; lit "She left."]);
    vm_compute; reflexivity.
Defined.

End Agreement.

(** ** Reading a seams file *)

Section SeamsLines.

Import SeamsFormat.

Lemma dropwhile_app_all {A : Type} (p : A -> bool) (l1 l2 : list A) :
  Forall (fun x => p x = true) l1 -> dropwhile p (l1 ++ l2) = dropwhile p l2.
Proof.
  induction 1 as [|x l1 Hx _ IH]; [reflexivity|].
  cbn [app dropwhile]. now rewrite Hx.
Qed.

(** [strip] removes the white space after a text that has none at its
    ends. *)
Lemma strip_ending (first last : ascii) (middle ending : str) :
  isspace first = false -> isspace last = false ->
  Forall (fun c => isspace c = true) ending ->
  strip ((first :: middle ++ [last]) ++ ending) = first :: middle ++ [last].
Proof.
  intros Hfirst Hlast Hending. unfold strip, lstrip_by, rstrip_by.
  assert (E : dropwhile isspace ((first :: middle ++ [last]) ++ ending)
              = (first :: middle ++ [last]) ++ ending)
    by (cbn [app dropwhile]; now rewrite Hfirst).
  rewrite E, rev_app_distr.
  rewrite dropwhile_app_all by (now apply Forall_rev).
  change (first :: middle ++ [last]) with ((first :: middle) ++ [last]).
  rewrite rev_app_distr. cbn [rev app dropwhile]. rewrite Hlast.
  cbn [rev]. now rewrite rev_app_distr, rev_involutive.
Qed.

Lemma split_on_cons (sep c : ascii) (s : str) :
  split_on sep (c :: s)
  = if Ascii.eqb c sep then [] :: split_on sep s
    else match split_on sep s with
         | [] => [[c]]
         | w :: ws => (c :: w) :: ws
         end.
Proof. reflexivity. Qed.

Lemma split_on_field (sep : ascii) (field rest : str) :
  ~ In sep field ->
  split_on sep (field ++ sep :: rest) = field :: split_on sep rest.
Proof.
  induction field as [|c field IH]; intros Hsep.
  - cbn [app]. now rewrite split_on_cons, Ascii.eqb_refl.
  - cbn [app]. rewrite split_on_cons.
    destruct (Ascii.eqb_spec c sep) as [-> | _];
      [exfalso; apply Hsep; now left|].
    rewrite IH; [reflexivity|]. intros Hin. apply Hsep. now right.
Qed.

Lemma split_on_head (sep : ascii) (field : str) :
  exists first others, split_on sep field = first :: others
                       /\ (~ In sep field -> first = field).
Proof.
  induction field as [|c field (first & others & E & IH)].
  - exists [], []. split; [reflexivity | trivial].
  - rewrite split_on_cons.
    destruct (Ascii.eqb_spec c sep) as [-> | Hne].
    + exists [], (split_on sep field). split; [reflexivity|].
      intros H. exfalso. apply H. now left.
    + rewrite E. exists (c :: first), others. split; [reflexivity|].
      intros H. f_equal. apply IH. intros Hin. apply H. now right.
Qed.

Lemma digits_group (g rest : str) (c : ascii) :
  Forall (fun d => is_digit d = true) g -> is_digit c = false ->
  digits (g ++ c :: rest) = (g, c :: rest).
Proof.
  intros Hg Hc. induction Hg as [|d g Hd _ IH]; cbn [app digits].
  - now rewrite Hc.
  - now rewrite Hd, IH.
Qed.

Lemma group_then_group (literal : ascii) (g rest : str) :
  g <> [] -> Forall (fun d => is_digit d = true) g ->
  is_digit literal = false ->
  group_then literal (g ++ literal :: rest) = Some (g, rest).
Proof.
  intros Hne Hg Hl. unfold group_then. rewrite digits_group by assumption.
  destruct g; [contradiction|]. now rewrite Ascii.eqb_refl.
Qed.

(** The text of the four coordinates, as the seams files carry it. *)
Let coordinates (g1 g2 g3 g4 : str) : str :=
  lit "(" ++ g1 ++ lit "," ++ g2 ++ lit "," ++ g3 ++ lit "," ++ g4.

Lemma coord_match_coordinates (g1 g2 g3 g4 rest : str) :
  Forall (fun g => g <> [] /\ Forall (fun d => is_digit d = true) g)
         [g1; g2; g3; g4] ->
  coord_match (coordinates g1 g2 g3 g4 ++ ")"%char :: rest)
  = Some (g1, g2, g3, g4).
Proof.
  intros H.
  inversion H as [|? ? [N1 D1] H']; subst.
  inversion H' as [|? ? [N2 D2] H'']; subst.
  inversion H'' as [|? ? [N3 D3] H''']; subst.
  inversion H''' as [|? ? [N4 D4] _]; subst.
  replace (coordinates g1 g2 g3 g4 ++ ")"%char :: rest)
    with ("("%char :: g1 ++ ","%char :: g2 ++ ","%char :: g3 ++ ","%char
          :: g4 ++ ")"%char :: rest)
    by (unfold coordinates, lit; cbn [list_ascii_of_string app];
        repeat (rewrite <- app_assoc; cbn [app]); reflexivity).
  cbn [coord_match]. rewrite Ascii.eqb_refl.
  rewrite group_then_group by (trivial; reflexivity).
  rewrite group_then_group by (trivial; reflexivity).
  rewrite group_then_group by (trivial; reflexivity).
  rewrite group_then_group by (trivial; reflexivity).
  reflexivity.
Qed.

Lemma coord_search_found (s : str) (groups : str * str * str * str) :
  coord_match s = Some groups -> coord_search s = Some groups.
Proof. intros H. destruct s; cbn [coord_search]; now rewrite H. Qed.

Lemma digit_not_tab (g : str) :
  Forall (fun d => is_digit d = true) g -> ~ In tab g.
Proof.
  intros Hg Hin. rewrite Forall_forall in Hg. specialize (Hg tab Hin).
  discriminate.
Qed.

(** X14: a well-formed line.  A line made of an identifier that starts
    with a character that is not white space, a tab, a text, a tab, four
    groups of digits in parentheses separated by commas, and white space
    up to its end (identifier and text without a tab) gives one sentence:
    for [parse_seams_file] the text as it is, for
    [parse_seams_with_coordinates] the text stripped, unless the identifier
    starts a comment; [parse_comparison_sentences] reads the stripped text
    from the same line. *)
Theorem well_formed_line_is_parsed (first : ascii)
    (ident text g1 g2 g3 g4 ending : str)
    (start_line start_col end_line end_col : Z) :
  isspace first = false ->
  ~ In tab (first :: ident) -> ~ In tab text ->
  Forall (fun g => g <> [] /\ Forall (fun d => is_digit d = true) g)
         [g1; g2; g3; g4] ->
  int g1 = Some start_line -> int g2 = Some start_col ->
  int g3 = Some end_line -> int g4 = Some end_col ->
  Forall (fun c => isspace c = true) ending ->
  let line := (first :: ident) ++ tab :: text ++ tab
              :: lit "(" ++ g1 ++ lit "," ++ g2 ++ lit "," ++ g3 ++ lit ","
                 ++ g4 ++ lit ")" ++ ending in
  parse_seams_line line
  = Some (Some {| s_text := text;
                  s_start_line := start_line; s_start_col := start_col;
                  s_end_line := end_line; s_end_col := end_col |})
  /\ (Ascii.eqb first "#"%char = false ->
      BoundaryGoldBuilder.parse_seams_line_with_coordinates line
      = Some (Some {| s_text := strip text;
                      s_start_line := start_line; s_start_col := start_col;
                      s_end_line := end_line; s_end_col := end_col |})
      /\ BoundaryGoldBuilder.parse_comparison_line line
         = Some (Some (strip text))).
Proof.
  intros Hfirst Hident Htext Hgroups H1 H2 H3 H4 Hending line.
  set (coords := coordinates g1 g2 g3 g4).
  assert (Hline : line
                  = (first :: (ident ++ tab :: text ++ tab :: coords)
                              ++ [")"%char]) ++ ending).
  { unfold line, coords, coordinates, lit. cbn [list_ascii_of_string app].
    repeat (progress (rewrite <- ?app_assoc; cbn [app])). reflexivity. }
  assert (Hfield : exists others,
            split_on tab (coords ++ [")"%char])
            = (coords ++ [")"%char]) :: others).
  { destruct (split_on_head tab (coords ++ [")"%char]))
      as (w & others & E & Hw).
    exists others. rewrite E. f_equal. apply Hw.
    inversion Hgroups as [|? ? [_ D1] Hg2]; subst.
    inversion Hg2 as [|? ? [_ D2] Hg3]; subst.
    inversion Hg3 as [|? ? [_ D3] Hg4]; subst.
    inversion Hg4 as [|? ? [_ D4] _]; subst.
    unfold coords, coordinates, lit. cbn [list_ascii_of_string].
    rewrite !in_app_iff. cbn [In].
    pose proof (digit_not_tab g1 D1). pose proof (digit_not_tab g2 D2).
    pose proof (digit_not_tab g3 D3). pose proof (digit_not_tab g4 D4).
    unfold tab in *. intuition discriminate. }
  destruct Hfield as [others Hfield].
  assert (Hstrip : strip line
                   = (first :: ident) ++ tab :: text ++ tab
                     :: coords ++ [")"%char]).
  { rewrite Hline, strip_ending by (trivial; reflexivity).
    cbn [app]. repeat (progress (rewrite <- ?app_assoc; cbn [app])).
    reflexivity. }
  assert (Hsplit : split_on tab (strip line)
                   = (first :: ident) :: text
                     :: (coords ++ [")"%char]) :: others).
  { rewrite Hstrip.
    rewrite split_on_field by exact Hident.
    rewrite split_on_field by exact Htext.
    now rewrite Hfield. }
  assert (Hmatch : coord_match (coords ++ [")"%char]) = Some (g1, g2, g3, g4))
    by (now apply coord_match_coordinates).
  assert (Hnonempty : str_eqb (strip line) [] = false).
  { rewrite Hstrip. unfold str_eqb.
    destruct (list_eq_dec ascii_dec _ _); [discriminate | reflexivity]. }
  assert (Hsentence : forall t,
            sentence_of t (g1, g2, g3, g4)
            = Some {| s_text := t;
                      s_start_line := start_line; s_start_col := start_col;
                      s_end_line := end_line; s_end_col := end_col |}).
  { intros t. unfold sentence_of. now rewrite H1, H2, H3, H4. }
  split.
  - unfold parse_seams_line. rewrite Hnonempty, Hsplit, Hmatch, Hsentence.
    reflexivity.
  - intros Hcomment.
    assert (Hstart : startswith (strip line) (lit "#") = false).
    { rewrite Hstrip. unfold lit. cbn [list_ascii_of_string app startswith].
      rewrite Ascii.eqb_sym, Hcomment. reflexivity. }
    split.
    + unfold BoundaryGoldBuilder.parse_seams_line_with_coordinates.
      rewrite Hnonempty, Hstart, Hsplit. cbn [negb andb].
      rewrite (coord_search_found _ _ Hmatch), Hsentence. reflexivity.
    + unfold BoundaryGoldBuilder.parse_comparison_line.
      rewrite Hnonempty, Hstart, Hsplit. reflexivity.
Qed.

(** X14, on an instance: sentence 12 of a seams file. *)
Lemma well_formed_line_twelve :
  parse_seams_line
    (lit "12" ++ tab :: lit " Hello there. " ++ tab
     :: lit "(3,1,3,13)" ++ [newline])
  = Some (Some (Scenarios.seam " Hello there. " 3 1 3 13))
  /\ BoundaryGoldBuilder.parse_seams_line_with_coordinates
       (lit "12" ++ tab :: lit " Hello there. " ++ tab
        :: lit "(3,1,3,13)" ++ [newline])
     = Some (Some (Scenarios.seam "Hello there." 3 1 3 13))
  /\ BoundaryGoldBuilder.parse_comparison_line
       (lit "12" ++ tab :: lit " Hello there. " ++ tab
        :: lit "(3,1,3,13)" ++ [newline])
     = Some (Some (lit "Hello there.")).
Proof.
  pose proof (well_formed_line_is_parsed "1"%char (lit "2")
                (lit " Hello there. ") (lit "3") (lit "1") (lit "3")
                (lit "13") [newline] 3 1 3 13
                eq_refl
                ltac:(vm_compute; intuition discriminate)
                ltac:(vm_compute; intuition discriminate)
                ltac:(repeat constructor; discriminate)
                eq_refl eq_refl eq_refl eq_refl
                ltac:(repeat constructor)) as [H1 H2].
  destruct (H2 eq_refl) as [H3 H4].
  split; [exact H1|]. split; [exact H3 | exact H4].
Defined.

End SeamsLines.

(** ** From the files to the gold set *)

Section BuilderRun.

Import SeamsFormat BoundaryGold BoundaryGoldBuilder.

Lemma int_nonneg (ds : str) (z : Z) : int ds = Some z -> (0 <= z)%Z.
Proof.
  unfold int. destruct (4300 <? length ds); [discriminate|].
  intros E. inversion E as [Hz]. clear E Hz.
  assert (H : forall acc, (0 <= acc)%Z ->
            (0 <= fold_left (fun acc c =>
                               (10 * acc + Z.of_nat (nat_of_ascii c - 48))%Z)
                            ds acc)%Z).
  { induction ds as [|c ds IH]; intros acc Hacc; cbn [fold_left];
      [exact Hacc|].
    apply IH. lia. }
  apply H. lia.
Qed.

(** What the parsers append carries the text it was given and coordinates
    that are not negative. *)
Lemma sentence_of_coords (text : str) (groups : str * str * str * str)
    (s : SeamsSentence) :
  sentence_of text groups = Some s ->
  s_text s = text
  /\ (0 <= s_start_line s)%Z /\ (0 <= s_start_col s)%Z
  /\ (0 <= s_end_line s)%Z /\ (0 <= s_end_col s)%Z.
Proof.
  destruct groups as [[[g1 g2] g3] g4]. unfold sentence_of.
  destruct (int g1) as [z1|] eqn:E1; [|discriminate].
  destruct (int g2) as [z2|] eqn:E2; [|discriminate].
  destruct (int g3) as [z3|] eqn:E3; [|discriminate].
  destruct (int g4) as [z4|] eqn:E4; [|discriminate].
  cbn [bind]. intros E. inversion E; subst. cbn.
  apply int_nonneg in E1, E2, E3, E4. tauto.
Qed.

Lemma collect_Forall {A : Type} (P : A -> Prop)
    (process : str -> option (option A)) (lines : list str) :
  (forall line x, process line = Some (Some x) -> P x) ->
  Forall P (collect process lines).
Proof.
  intros H. induction lines as [|line lines IH]; cbn [collect];
    [constructor|].
  destruct (process line) as [[x|]|] eqn:E; [|exact IH | constructor].
  constructor; [now apply (H line) | exact IH].
Qed.

Lemma parse_seams_with_coordinates_coords (lines : list str) :
  Forall (fun s => (0 <= s_start_line s)%Z /\ (0 <= s_end_line s)%Z)
         (parse_seams_with_coordinates lines).
Proof.
  apply collect_Forall. intros line s.
  unfold parse_seams_line_with_coordinates.
  destruct (negb _ && negb _); [|discriminate].
  destruct (split_on tab (strip line)) as [|? [|text_part [|coord_part ?]]];
    try discriminate.
  destruct (coord_search coord_part) as [groups|]; [|discriminate].
  destruct (sentence_of (strip text_part) groups) as [s'|] eqn:E;
    [|discriminate].
  cbn [option_map]. intros E'. inversion E'; subst.
  apply sentence_of_coords in E. tauto.
Qed.

Variable env : Segmenters.

Lemma analyze_boundary_disagreements_defined (pair : FilePair) :
  analyze_boundary_disagreements env pair <> None.
Proof.
  unfold analyze_boundary_disagreements.
  destruct (original_file pair) as [text|]; [|discriminate].
  pose proof (parse_seams_with_coordinates_coords (seams_file pair)) as Hc.
  destruct (parse_seams_with_coordinates (seams_file pair))
    as [|s0 seams] eqn:Hs; [discriminate|].
  destruct (parse_comparison_sentences (comparison_file pair))
    as [|c0 comparison]; [discriminate|].
  destruct (load_original_lines (Some text)) as [|l0 lines] eqn:Hl;
    [discriminate|].
  unfold find_overlapping_regions.
  pose proof (regions_loop_defined env (s0 :: seams) (c0 :: comparison)
                (l0 :: lines) (pair_method pair)
                (range_step (length (s0 :: seams) - 1) 2)
                ltac:(discriminate) Hc 0) as H.
  destruct (regions_loop _ _ _ _ _ _ _); [discriminate | contradiction].
Qed.

(** X15: [analyze_boundary_disagreements] never raises: the parser yields
    line numbers that are not negative, and the function returns before
    the extraction when the original file has no lines, which are the two
    things the extraction needs.  Every example it returns is filed under
    the original file and the method of the pair, has two or three seams
    sentences, a text with a lower-case letter, and comparison sentences
    that the comparison file holds. *)
Theorem analyze_boundary_disagreements_never_raises (pair : FilePair) :
  exists examples,
    analyze_boundary_disagreements env pair = Some examples
    /\ forall ex, In ex examples ->
         source_file ex = original_name pair
         /\ comparison_method ex = pair_method pair
         /\ 2 <= length (seams_sentences ex) <= 3
         /\ existsb Re.is_lower_az (original_text ex) = true
         /\ incl (comparison_sentences ex)
                 (parse_comparison_sentences (comparison_file pair)).
Proof.
  pose proof (analyze_boundary_disagreements_defined pair) as Hdef.
  destruct (analyze_boundary_disagreements env pair) as [examples|] eqn:E;
    [|contradiction].
  exists examples. split; [reflexivity|].
  unfold analyze_boundary_disagreements in E.
  destruct (original_file pair) as [text|];
    [|inversion E; subst; intros ? []].
  destruct (parse_seams_with_coordinates (seams_file pair))
    as [|s0 seams]; [inversion E; subst; intros ? []|].
  destruct (parse_comparison_sentences (comparison_file pair))
    as [|c0 comparison]; [inversion E; subst; intros ? []|].
  destruct (load_original_lines (Some text)) as [|l0 lines];
    [inversion E; subst; intros ? []|].
  destruct (find_overlapping_regions env (s0 :: seams) (c0 :: comparison)
              (l0 :: lines) (pair_method pair)) as [found|] eqn:Hfound;
    [|discriminate].
  cbn [bind] in E. inversion E; subst. intros ex Hin.
  apply in_map_iff in Hin. destruct Hin as (ex0 & <- & Hin).
  unfold find_overlapping_regions in Hfound.
  assert (Hstarts : Forall (fun seams_start =>
                              seams_start + 1 < length (s0 :: seams))
                           (range_step (length (s0 :: seams) - 1) 2)).
  { apply Forall_forall. intros x Hx. apply range_step_below in Hx; lia. }
  destruct (regions_loop_carries env (s0 :: seams) (c0 :: comparison)
              (l0 :: lines) (pair_method pair) _ Hstarts 0 found Hfound
              ex0 Hin) as (H1 & H2 & _ & H4 & H5 & _).
  cbn [with_source_file source_file comparison_method seams_sentences
       original_text comparison_sentences].
  repeat split; tauto.
Qed.

Context {S : Type} {RS : RandomSource S}.



End BuilderRun.

(** ** All the differences, and their counts *)

Section DifferencesRun.

Import SeamsScripts SeamsFormat SeamsDifferences SeamsDifferencesRun.

Variable env : Segmenters.

(** A record carries the two verdicts it was kept for. *)
Lemma chunk_differences_flags (original_file : option str) (source_name : str)
    (seams_data : list SeamsSentence) (boundary : nat * nat)
    (records : list SeamsDifference) :
  chunk_differences env original_file source_name seams_data boundary
  = Some records ->
  Forall (fun r =>
            differs_from_pysbd r
            = segmentations_differ (seams_sentences r) (pysbd_sentences r)
            /\ differs_from_nupunkt r
               = segmentations_differ (seams_sentences r)
                   (nupunkt_sentences r)
            /\ differs_from_pysbd r || differs_from_nupunkt r = true
            /\ source_file r = source_name)
         records.
Proof.
  destruct boundary as [start_idx end_idx]. unfold chunk_differences.
  destruct (firstn (end_idx - start_idx) (skipn start_idx seams_data))
    as [|first_sentence others]; [discriminate|].
  set (text := extract_original_text_from_coordinates _ _ _ _ _).
  destruct (str_eqb text [] || (len (strip text) <? 10)%Z);
    [intros E; inversion E; constructor|].
  destruct ((length (segment_with_pysbd env text) =? 0)
            || (length (segment_with_nupunkt env text) =? 0));
    [intros E; inversion E; constructor|].
  destruct (segmentations_differ _ _ || segmentations_differ _ _) eqn:Hd;
    intros E; inversion E; constructor; [|constructor].
  cbn. repeat split. exact Hd.
Qed.

Lemma mapM_Forall {A B : Type} (P : B -> Prop) (f : A -> option (list B))
    (l : list A) (ys : list (list B)) :
  (forall x y, f x = Some y -> Forall P y) ->
  mapM f l = Some ys -> Forall P (concat ys).
Proof.
  intros H. revert ys. induction l as [|x l IH]; intros ys; cbn [mapM].
  - intros E; inversion E. constructor.
  - destruct (f x) as [y|] eqn:Hx; [|discriminate]. cbn [bind].
    destruct (mapM f l) as [ys0|]; [|discriminate]. cbn [bind].
    intros E; inversion E; subst. cbn [concat].
    apply Forall_app. split; [now apply (H x) | now apply IH].
Qed.

Lemma find_differences_in_file_pair_records (original_file : option str)
    (source_name : str) (seams_data : list SeamsSentence) :
  exists records,
    find_differences_in_file_pair env original_file source_name seams_data
    = Some records
    /\ Forall (fun r =>
                 differs_from_pysbd r || differs_from_nupunkt r = true
                 /\ source_file r = source_name)
              records.
Proof.
  unfold find_differences_in_file_pair.
  destruct seams_data as [|s0 rest] eqn:Hdata;
    [exists []; split; [reflexivity | constructor]|].
  rewrite <- Hdata.
  assert (H : mapM (chunk_differences env original_file source_name seams_data)
                   (find_natural_text_boundaries seams_data) <> None).
  { apply mapM_defined. intros [s e] Hin.
    destruct (boundaries_from_members seams_data (length seams_data) 0
                ltac:(lia) s e Hin) as [Hs He].
    destruct (next_boundary_bounds seams_data s ltac:(lia)) as (H1 & _ & H3).
    rewrite <- He in H1, H3.
    unfold chunk_differences.
    destruct (firstn (e - s) (skipn s seams_data)) as [|first others] eqn:Hc.
    - apply (f_equal (@length _)) in Hc.
      rewrite length_firstn, length_skipn in Hc. cbn [length] in Hc. lia.
    - destruct (str_eqb _ [] || _); [discriminate|].
      destruct ((_ =? 0) || _); [discriminate|].
      destruct (_ || _); discriminate. }
  destruct (mapM _ _) as [chunks|] eqn:Hchunks; [|contradiction].
  exists (concat chunks). split; [reflexivity|].
  apply (mapM_Forall _ _ _ _ (fun boundary records Hb =>
           Forall_impl _ (fun r Hr => conj (proj1 (proj2 (proj2 Hr)))
                                           (proj2 (proj2 (proj2 Hr))))
             (chunk_differences_flags original_file source_name seams_data
                boundary records Hb)) Hchunks).
Qed.

Lemma differences_loop_records (files : list CorpusFile) (max_files : Z) :
  forall files_processed,
    exists differences,
      differences_loop env files files_processed max_files = Some differences
      /\ Forall (fun r =>
                   differs_from_pysbd r || differs_from_nupunkt r = true
                   /\ exists file, In file files
                                   /\ source_file r = original_name file)
                differences.
Proof.
  induction files as [|file rest IH]; intros files_processed;
    cbn [differences_loop].
  - exists []. split; [reflexivity | constructor].
  - destruct (files_processed >=? max_files)%Z;
      [exists []; split; [reflexivity | constructor]|].
    assert (Hrest : forall differences,
              Forall (fun r =>
                        differs_from_pysbd r || differs_from_nupunkt r = true
                        /\ exists file, In file rest
                                        /\ source_file r = original_name file)
                     differences ->
              Forall (fun r =>
                        differs_from_pysbd r || differs_from_nupunkt r = true
                        /\ exists file0, In file0 (file :: rest)
                                         /\ source_file r = original_name file0)
                     differences).
    { intros differences. apply Forall_impl.
      intros r (Hr & file0 & Hin & Hname). split; [exact Hr|].
      exists file0. split; [now right | exact Hname]. }
    destruct (seams_file file) as [seams_lines|].
    + unfold find_differences_in_file.
      destruct (find_differences_in_file_pair_records (original_file file)
                  (original_name file) (parse_seams_file seams_lines))
        as (records & -> & Hrecords).
      destruct (IH (files_processed + 1)%Z) as (differences & -> & Hd).
      cbn [bind]. exists (records ++ differences). split; [reflexivity|].
      apply Forall_app. split; [|now apply Hrest].
      eapply Forall_impl; [|exact Hrecords].
      intros r [Hr Hname]. split; [exact Hr|].
      exists file. split; [now left | exact Hname].
    + destruct (IH files_processed) as (differences & -> & Hd).
      exists differences. split; [reflexivity | now apply Hrest].
Qed.

(** Counting by two flags of which each record has at least one. *)
Lemma count_by_flags {A : Type} (f g : A -> bool) (l : list A) :
  Forall (fun x => f x || g x = true) l ->
  length l + length (filter (fun x => f x && g x) l)
  = length (filter f l) + length (filter g l).
Proof.
  induction 1 as [|x l Hx _ IH]; [reflexivity|].
  cbn [filter length]. destruct (f x), (g x); cbn [andb length] in *;
    try discriminate; lia.
Qed.

Lemma entries_from_ids (differences : list SeamsDifference) :
  forall i,
    map id (entries_from i differences) = seq i (length differences)
    /\ map difference (entries_from i differences) = differences.
Proof.
  induction differences as [|d rest IH]; intros i; cbn [entries_from map seq
    length]; [now split|].
  destruct (IH (Datatypes.S i)) as [H1 H2]. cbn [id difference].
  now rewrite H1, H2.
Qed.

(** X17: [find_all_differences] never raises, every record it returns was
    kept for a difference from pysbd or from nupunkt and names one of the
    files, and the counts that [export_differences] writes for its result
    add up: total = pysbd + nupunkt - both.  The entries are the records in
    their order, numbered from 0; with [max_files] at zero or below no file
    is analysed. *)
Theorem find_all_differences_counts (files : list CorpusFile) (max_files : Z) :
  exists differences,
    find_all_differences env files max_files = Some differences
    /\ Forall (fun r =>
                 differs_from_pysbd r || differs_from_nupunkt r = true
                 /\ exists file, In file files
                                 /\ source_file r = original_name file)
              differences
    /\ total_differences (fst (export_differences differences))
       + both_differences (fst (export_differences differences))
       = pysbd_differences (fst (export_differences differences))
         + nupunkt_differences (fst (export_differences differences))
    /\ map id (snd (export_differences differences))
       = seq 0 (length differences)
    /\ map difference (snd (export_differences differences)) = differences
    /\ ((max_files <= 0)%Z -> differences = []).
Proof.
  unfold find_all_differences.
  destruct (differences_loop_records files max_files 0)
    as (differences & E & Hd).
  exists differences. split; [exact E|]. split; [exact Hd|].
  unfold export_differences, metadata. cbn [fst snd total_differences
    both_differences pysbd_differences nupunkt_differences].
  split; [|split; [|split]]; try apply entries_from_ids.
  - apply count_by_flags. eapply Forall_impl; [|exact Hd].
    intros r [Hr _]. exact Hr.
  - intros Hmax. destruct files as [|file rest]; cbn [differences_loop] in E.
    + now inversion E.
    + destruct (Z.geb_spec 0 max_files); [now inversion E | lia].
Qed.

End DifferencesRun.

(** ** All the disagreements, by priority *)

Section DisagreementsRun.

Import SeamsScripts SeamsFormat SeamsDisagreementSet SeamsDisagreementRun.

Variable env : Segmenters.
Variable analyze_text_complexity : str -> list str.

(** A record is of one of the two priorities, never of both. *)
Lemma region_disagreements_priority (original_file : option str)
    (source_name : str) (seams_data : list SeamsSentence) (i : nat)
    (r : SeamsDisagreement) :
  In r (region_disagreements env analyze_text_complexity original_file
          source_name seams_data i) ->
  high_priority r = negb (medium_priority r)
  /\ source_file r = source_name
  /\ text_region_start r = i
  /\ text_region_end r = i + 3
  /\ length (seams_sentences r) = Nat.min 3 (length seams_data - i)
  /\ disagreement_type r
     = classify_disagreement (seams_sentences r) (pysbd_sentences r)
         (nupunkt_sentences r)
  /\ pysbd_sentences r <> [] /\ nupunkt_sentences r <> [].
Proof.
  unfold region_disagreements.
  destruct (firstn region_size (skipn i seams_data))
    as [|first_sentence others] eqn:Hregion; [intros []|].
  set (text := extract_original_text_from_coordinates _ _ _ _ _).
  destruct (str_eqb text [] || (len (strip text) <? 20)%Z); [intros []|].
  destruct (segment_with_pysbd env text) as [|p0 pysbd] eqn:Hp;
    [intros []|].
  destruct (segment_with_nupunkt env text) as [|n0 nupunkt] eqn:Hn;
    [intros []|].
  cbn [length Nat.eqb orb].
  set (seams := map s_text (first_sentence :: others)).
  destruct (mem str_eqb _ _) eqn:Hmem; [|intros []].
  intros [<- | []].
  cbn [source_file text_region_start text_region_end seams_sentences
       disagreement_type pysbd_sentences nupunkt_sentences].
  assert (Hlen : length seams = Nat.min 3 (length seams_data - i)).
  { unfold seams. rewrite length_map, <- Hregion.
    rewrite length_firstn, length_skipn. reflexivity. }
  repeat split; try discriminate; try exact Hlen.
  unfold high_priority, medium_priority. cbn [disagreement_type].
  revert Hmem. unfold classify_disagreement.
  destruct (sentences_are_similar seams (p0 :: pysbd)),
           (sentences_are_similar seams (n0 :: nupunkt)),
           (sentences_are_similar (p0 :: pysbd) (n0 :: nupunkt));
    vm_compute; congruence.
Qed.

Lemma find_disagreements_in_file_priority (pair : FilePair)
    (r : SeamsDisagreement) :
  In r (find_disagreements_in_file env analyze_text_complexity pair) ->
  high_priority r = negb (medium_priority r)
  /\ source_file r = original_name pair.
Proof.
  unfold find_disagreements_in_file, find_disagreements_in_file_pair.
  intros Hin. apply in_flat_map in Hin. destruct Hin as (i & _ & Hin).
  apply region_disagreements_priority in Hin. tauto.
Qed.

Lemma disagreements_loop_records (files : list FilePair) (target_size : Z) :
  forall disagreements r,
    In r (disagreements_loop env analyze_text_complexity files disagreements
            target_size) ->
    In r disagreements
    \/ exists pair, In pair files
         /\ In r (find_disagreements_in_file env analyze_text_complexity pair).
Proof.
  induction files as [|pair rest IH]; intros disagreements r;
    cbn [disagreements_loop]; [now left|].
  destruct (len (disagreements ++ find_disagreements_in_file env
                   analyze_text_complexity pair) >=? target_size)%Z.
  - intros Hin. apply in_app_or in Hin. destruct Hin as [Hin | Hin];
      [now left|]. right. exists pair. split; [now left | exact Hin].
  - intros Hin. destruct (IH _ r Hin) as [Hacc | (pair' & Hp & Hr)].
    + apply in_app_or in Hacc. destruct Hacc as [Hacc | Hacc];
        [now left|]. right. exists pair. split; [now left | exact Hacc].
    + right. exists pair'. split; [now right | exact Hr].
Qed.

Lemma slice_to_firstn {A : Type} (l : list A) (j : Z) :
  (0 <= j)%Z -> slice_to l j = firstn (Z.to_nat j) l.
Proof.
  intros Hj. unfold slice_to. rewrite clamp_nonneg by exact Hj.
  destruct (Z.le_gt_cases j (len l)) as [Hle | Hgt].
  - now rewrite Z.min_l by exact Hle.
  - rewrite Z.min_r by lia. unfold len in *.
    rewrite Nat2Z.id. rewrite !firstn_all2; [reflexivity | lia | lia].
Qed.

Lemma slice_to_incl {A : Type} (l : list A) (j : Z) : incl (slice_to l j) l.
Proof.
  unfold slice_to. intros x Hx.
  rewrite <- (firstn_skipn (Z.to_nat (clamp (len l) j)) l).
  apply in_or_app. now left.
Qed.

Lemma Permutation_by_priority {A : Type} (f g : A -> bool) (l : list A) :
  Forall (fun x => f x = negb (g x)) l ->
  Permutation (filter f l ++ filter g l) l.
Proof.
  induction 1 as [|x l Hx _ IH]; [constructor|].
  cbn [filter]. rewrite Hx. destruct (g x); cbn [negb app].
  - symmetry. apply Permutation_cons_app. now symmetry.
  - now constructor.
Qed.

Context {S : Type} {RS : RandomSource S}.

(** X18: what [find_all_disagreements] returns for a target that is not
    negative: at most [target_size] records, those of high priority
    ('seams_vs_both') before all the others ('seams_vs_pysbd' or
    'seams_vs_nupunkt'), each found by [find_disagreements_in_file_pair] in
    one of the file pairs and filed under its original file.  Arranging by
    priority loses nothing: when the records gathered are no more than the
    target, the outcome is a rearrangement of them. *)
Theorem find_all_disagreements_by_priority (st : S)
    (valid_file_pairs : list FilePair) (max_files target_size : Z) :
  (0 <= target_size)%Z ->
  let result :=
    fst (find_all_disagreements env analyze_text_complexity st
           valid_file_pairs max_files target_size) in
  let gathered :=
    disagreements_loop env analyze_text_complexity
      (slice_to (fst (BoundaryGold.random_shuffle st valid_file_pairs))
                max_files) [] target_size in
  (len result <= target_size)%Z
  /\ (exists high medium,
        result = high ++ medium
        /\ Forall (fun d => disagreement_type d = lit "seams_vs_both") high
        /\ Forall (fun d => disagreement_type d = lit "seams_vs_pysbd"
                            \/ disagreement_type d = lit "seams_vs_nupunkt")
                  medium)
  /\ (forall d, In d result ->
        exists pair, In pair valid_file_pairs
          /\ In d (find_disagreements_in_file env analyze_text_complexity pair)
          /\ source_file d = original_name pair)
  /\ ((len gathered <= target_size)%Z -> Permutation result gathered).
Proof.
  intros Htarget result gathered.
  assert (Hgathered : forall d, In d gathered ->
            exists pair, In pair valid_file_pairs
              /\ In d (find_disagreements_in_file env analyze_text_complexity
                         pair)).
  { intros d Hd. unfold gathered in Hd.
    apply disagreements_loop_records in Hd.
    destruct Hd as [[] | (pair & Hp & Hd)].
    exists pair. split; [|exact Hd].
    apply slice_to_incl in Hp.
    eapply Permutation_in; [apply random_shuffle_spec | exact Hp]. }
  assert (Hresult : result
                    = firstn (Z.to_nat target_size)
                        (filter high_priority gathered
                         ++ filter medium_priority gathered)).
  { unfold result, find_all_disagreements. cbn [fst].
    now rewrite slice_to_firstn by exact Htarget. }
  assert (Hperm : Permutation (filter high_priority gathered
                               ++ filter medium_priority gathered) gathered).
  { apply Permutation_by_priority. apply Forall_forall. intros d Hd.
    destruct (Hgathered d Hd) as (pair & _ & Hin).
    now apply find_disagreements_in_file_priority in Hin. }
  split; [|split; [|split]].
  - rewrite Hresult. unfold len. rewrite length_firstn. lia.
  - rewrite Hresult, firstn_app.
    exists (firstn (Z.to_nat target_size) (filter high_priority gathered)),
           (firstn (Z.to_nat target_size
                    - length (filter high_priority gathered))
                   (filter medium_priority gathered)).
    split; [reflexivity|]. split; apply Forall_forall; intros d Hd.
    + assert (Hin : In d (filter high_priority gathered))
        by (rewrite <- (firstn_skipn (Z.to_nat target_size)
                          (filter high_priority gathered));
            apply in_or_app; now left).
      apply filter_In in Hin. destruct Hin as [_ Hin].
      now apply str_eqb_eq in Hin.
    + assert (Hin : In d (filter medium_priority gathered))
        by (rewrite <- (firstn_skipn
                          (Z.to_nat target_size
                           - length (filter high_priority gathered))
                          (filter medium_priority gathered));
            apply in_or_app; now left).
      apply filter_In in Hin. destruct Hin as [_ Hin].
      unfold medium_priority, mem in Hin. cbn [existsb] in Hin.
      rewrite orb_false_r in Hin. apply orb_true_iff in Hin.
      destruct Hin as [Hin | Hin]; apply str_eqb_eq in Hin; auto.
  - intros d Hd. rewrite Hresult in Hd.
    assert (Hin : In d gathered).
    { eapply Permutation_in; [exact Hperm|].
      rewrite <- (firstn_skipn (Z.to_nat target_size)
                    (filter high_priority gathered
                     ++ filter medium_priority gathered)).
      apply in_or_app. now left. }
    destruct (Hgathered d Hin) as (pair & Hp & Hr).
    exists pair. split; [exact Hp|]. split; [exact Hr|].
    now apply find_disagreements_in_file_priority in Hr.
  - intros Hall. rewrite Hresult. rewrite firstn_all2; [exact Hperm|].
    rewrite (Permutation_length Hperm). unfold len in Hall. lia.
Qed.

End DisagreementsRun.

(** X18, on an instance: the one book of the corpus gives one record, of
    high priority. *)
Lemma find_all_disagreements_rain :
  (0 <= 300)%Z
  /\ (len (fst (SeamsDisagreementRun.find_all_disagreements
                  (RS := ToyRandom.source) Scenarios.one_sentence
                  (fun _ => []) 42%Z [Corpus.rain_pair] 20 300)) <= 300)%Z
  /\ map SeamsDisagreementSet.disagreement_type
       (fst (SeamsDisagreementRun.find_all_disagreements
               (RS := ToyRandom.source) Scenarios.one_sentence
               (fun _ => []) 42%Z [Corpus.rain_pair] 20 300))
     = [lit "seams_vs_both"]
  /\ SeamsFormat.parse_seams_file Corpus.rain_seams_file
     = Scenarios.rain_seams_ok.
Proof.
  split; [lia|].
  split; [|split; vm_compute; reflexivity].
  exact (proj1 (find_all_disagreements_by_priority (RS := ToyRandom.source)
                  Scenarios.one_sentence (fun _ => []) 42%Z
                  [Corpus.rain_pair] 20 300 ltac:(lia))).
Defined.

(** ** The display extraction over several lines *)

Section DisplayExtraction.

Import LineShape SeamsScripts.

Local Open Scope Z_scope.

(** A line break shown as a space. *)
Let shown (c : ascii) : ascii := if Ascii.eqb c newline then space else c.

Lemma shown_clean (c : str) : clean c -> map shown c = c.
Proof.
  induction 1 as [|x c Hx _ IH]; [reflexivity|].
  cbn [map]. rewrite IH. unfold shown.
  now rewrite (clean_not_newline x Hx).
Qed.

Lemma shown_lines (x y : str) (mid : list str) :
  clean x -> Forall terminated mid -> clean y ->
  map shown (x ++ newline :: concat mid ++ y)
  = join [space] (x :: map rstrip_nl mid ++ [y]).
Proof.
  intros Hx Hmid. revert x Hx.
  induction Hmid as [|l mid (c & Hc & ->) _ IH]; intros x Hx Hy.
  - cbn [concat map app join]. rewrite map_app. cbn [map].
    rewrite !shown_clean by assumption. reflexivity.
  - cbn [concat map app].
    change (join [space] (x :: rstrip_nl (c ++ [newline])
                          :: map rstrip_nl mid ++ [y]))
      with (x ++ [space]
            ++ join [space] (rstrip_nl (c ++ [newline])
                             :: map rstrip_nl mid ++ [y])).
    rewrite rstrip_nl_terminated by exact Hc.
    rewrite <- (IH c Hc Hy).
    rewrite map_app. cbn [map]. rewrite shown_clean by exact Hx.
    rewrite <- !app_assoc. reflexivity.
Qed.

Lemma mapM_option_map {A B C : Type} (g : A -> option B) (f : B -> C)
    (l : list A) (ys : list B) :
  mapM g l = Some ys ->
  mapM (fun x => option_map f (g x)) l = Some (map f ys).
Proof.
  revert ys. induction l as [|x l IH]; intros ys; cbn [mapM].
  - intros E. now inversion E.
  - destruct (g x) as [y|]; [|discriminate]. cbn [bind option_map].
    destruct (mapM g l) as [ys0|]; [|discriminate]. cbn [bind].
    intros E. inversion E; subst. now rewrite (IH ys0 eq_refl).
Qed.

(** X19: over several lines the two extractions differ by their line
    breaks alone.  For a span inside the document that starts within its
    first line and ends within its last, [extract_original_region] returns
    the text that [extract_original_text_from_coordinates] returns with
    every line break replaced by one space. *)
Theorem display_is_verbatim_with_spaces (text : str) (sl sc el ec : Z)
    (first last : str) :
  1 <= sl -> sl < el ->
  getitem (readlines text) (sl - 1) = Some first ->
  getitem (readlines text) (el - 1) = Some last ->
  1 <= sc <= len (rstrip_nl first) ->
  1 <= ec <= len (rstrip_nl last) + 1 ->
  BoundaryGold.extract_original_region (readlines text) sl sc el ec
  = Some (map (fun c => if Ascii.eqb c newline then space else c)
              (extract_original_text_from_coordinates (Some text)
                 sl sc el ec)).
Proof.
  intros Hsl Hlt Hfirst Hlast Hsc Hec.
  assert (Hfirst' := Hfirst). assert (Hlast' := Hlast).
  rewrite getitem_nonneg in Hfirst', Hlast' by lia.
  destruct (nth_error_two (readlines text) (Z.to_nat (sl - 1))
              (Z.to_nat (el - 1)) first last ltac:(lia) Hfirst' Hlast')
    as (pre & mid & post & Hl & Hpre & Hmid).
  pose proof (readlines_ok text) as Hok. rewrite Hl in Hok.
  apply lines_ok_span in Hok.
  destruct Hok as ((c1 & Hc1 & Hf) & Hterm & (cl & t & Hla & Hcl & Ht)).
  assert (Hr1 : rstrip_nl first = c1)
    by (subst first; now apply rstrip_nl_terminated).
  assert (Hrl : rstrip_nl last = cl)
    by (subst last; now apply rstrip_nl_line).
  rewrite Hr1 in *. rewrite Hrl in *.
  assert (Hlines : readlines text = (pre ++ [first]) ++ mid ++ last :: post)
    by (rewrite Hl, <- app_assoc; reflexivity).
  assert (Hlen_pre : len (pre ++ [first]) = sl)
    by (rewrite len_app, len_cons, len_nil; unfold len; lia).
  assert (Hlen_mid : len (pre ++ [first]) + len mid = el - 1)
    by (rewrite Hlen_pre; unfold len; lia).
  assert (Hlen : el - 1 < len (readlines text)).
  { apply getitem_Some_lt in Hlast; lia. }
  assert (Hmiddle : mapM (getitem (readlines text)) (range (sl - 1 + 1) (el - 1))
                    = Some mid).
  { rewrite Hlines. replace (sl - 1 + 1) with (len (pre ++ [first])) by lia.
    rewrite <- Hlen_mid. apply mapM_getitem_range. }
  assert (Hverbatim : extract_original_text_from_coordinates (Some text)
                        sl sc el ec
                      = skipn (Z.to_nat (sc - 1)) c1
                        ++ newline :: concat mid
                        ++ firstn (Z.to_nat (ec - 1)) cl).
  { unfold extract_original_text_from_coordinates, extract_from_lines.
    destruct (Z.eqb_spec (sl - 1) (el - 1)); [lia|].
    rewrite Hfirst, Hlast. cbn [bind]. rewrite Hmiddle. cbn [bind].
    subst first last.
    rewrite slice_from_app_l by lia. rewrite slice_to_app_l by lia.
    unfold slice_from, slice_to. rewrite !clamp_nonneg by lia.
    rewrite Z.min_l by lia. rewrite Z.min_l by lia.
    rewrite <- !app_assoc. reflexivity. }
  assert (Hdisplay : BoundaryGold.extract_original_region (readlines text)
                       sl sc el ec
                     = Some (join [space]
                               (skipn (Z.to_nat (sc - 1)) c1
                                :: map rstrip_nl mid
                                ++ [firstn (Z.to_nat (ec - 1)) cl]))).
  { unfold BoundaryGold.extract_original_region.
    destruct (Z.gtb_spec sl (len (readlines text))); [lia|].
    destruct (Z.gtb_spec el (len (readlines text))); [lia|]. cbn [orb].
    destruct (Z.eqb_spec (sl - 1) (el - 1)); [lia|].
    rewrite Hfirst. cbn [bind]. rewrite Hr1.
    destruct (Z.ltb_spec (sc - 1) (len c1)); [|lia].
    rewrite (mapM_option_map _ rstrip_nl _ _ Hmiddle). cbn [bind].
    destruct (Z.ltb_spec (el - 1) (len (readlines text))); [|lia].
    rewrite Hlast. cbn [bind]. rewrite Hrl.
    destruct (Z.leb_spec (ec - 1) (len cl)); [|lia]. cbn [bind].
    unfold slice_from, slice_to. rewrite !clamp_nonneg by lia.
    rewrite Z.min_l by lia. rewrite Z.min_l by lia.
    reflexivity. }
  rewrite Hdisplay, Hverbatim. f_equal. symmetry.
  apply (shown_lines _ _ mid); [now apply clean_skipn | exact Hterm
                               | now apply clean_firstn].
Qed.

(** X19, on an instance: from "One" on line 1 to "jumps" on line 4. *)
Lemma display_is_verbatim_with_spaces_fox :
  BoundaryGold.extract_original_region (readlines Scenarios.fox_document)
    1 9 4 6
  = Some (lit "One  The quick brown fox jumps")
  /\ BoundaryGold.extract_original_region (readlines Scenarios.fox_document)
       1 9 4 6
     = Some (map (fun c => if Ascii.eqb c newline then space else c)
                 (extract_original_text_from_coordinates
                    (Some Scenarios.fox_document) 1 9 4 6)).
Proof.
  split; [vm_compute; reflexivity|].
  apply (display_is_verbatim_with_spaces Scenarios.fox_document 1 9 4 6
           (lit "Chapter One" ++ [newline])
           (lit "jumps over the lazy dog." ++ [newline]));
    vm_compute; try reflexivity; try discriminate;
    split; discriminate.
Defined.

End DisplayExtraction.

(** ** What the reference segmenters hand over *)

Section ReferenceSentences.

Import Words SeamsScripts.

Lemma dropwhile_length {A : Type} (p : A -> bool) (l : list A) :
  length (dropwhile p l) <= length l.
Proof.
  induction l as [|x l IH]; cbn [dropwhile length]; [lia|].
  destruct (p x); cbn [length]; lia.
Qed.

Lemma dropwhile_fixed {A : Type} (p : A -> bool) (l : list A) :
  dropwhile p l = l <-> l = [] \/ exists x l', l = x :: l' /\ p x = false.
Proof.
  split.
  - destruct l as [|x l]; [now left|]. intros E. right. exists x, l.
    split; [reflexivity|]. cbn [dropwhile] in E.
    destruct (p x); [|reflexivity].
    pose proof (dropwhile_length p l) as Hl. rewrite E in Hl.
    cbn [length] in Hl. lia.
  - intros [-> | (x & l' & -> & Hx)]; [reflexivity|].
    cbn [dropwhile]. now rewrite Hx.
Qed.

Lemma dropwhile_idempotent {A : Type} (p : A -> bool) (l : list A) :
  dropwhile p (dropwhile p l) = dropwhile p l.
Proof.
  induction l as [|x l IH]; [reflexivity|]. cbn [dropwhile].
  destruct (p x) eqn:Hx; [exact IH|]. cbn [dropwhile]. now rewrite Hx.
Qed.

(** [strip] leaves no white space at either end. *)
Lemma strip_ends (s : str) :
  dropwhile isspace (strip s) = strip s
  /\ dropwhile isspace (rev (strip s)) = rev (strip s).
Proof.
  unfold strip, lstrip_by, rstrip_by.
  set (y := dropwhile isspace s).
  set (z := dropwhile isspace (rev y)).
  assert (Hy : dropwhile isspace y = y) by apply dropwhile_idempotent.
  assert (Hz : dropwhile isspace z = z) by apply dropwhile_idempotent.
  rewrite rev_involutive. split; [|exact Hz].
  destruct (dropwhile_suffix isspace (rev y)) as [pre Hpre].
  fold z in Hpre.
  assert (Hyz : y = rev z ++ rev pre)
    by (rewrite <- rev_app_distr, <- Hpre; now rewrite rev_involutive).
  apply dropwhile_fixed.
  destruct (rev z) as [|c rest] eqn:Hrev; [now left|]. right.
  exists c, rest. split; [reflexivity|].
  apply dropwhile_fixed in Hy. rewrite Hyz in Hy. cbn [app] in Hy.
  destruct Hy as [Hy | (x & l' & E & Hx)]; [discriminate|].
  inversion E; subst. exact Hx.
Qed.

Lemma strip_idempotent (s : str) : strip (strip s) = strip s.
Proof.
  destruct (strip_ends s) as [H1 H2].
  unfold strip at 1. unfold lstrip_by, rstrip_by.
  rewrite H1, H2. apply rev_involutive.
Qed.

Lemma stripped_nonempty_stripped (sentences : list str) :
  Forall stripped (stripped_nonempty sentences).
Proof.
  unfold stripped_nonempty. apply Forall_forall. intros s Hs.
  apply in_map_iff in Hs. destruct Hs as (raw & <- & Hraw).
  apply filter_In in Hraw. destruct Hraw as [_ Hraw].
  split; [|apply strip_idempotent].
  apply negb_true_iff in Hraw. intros E. rewrite E in Hraw.
  now rewrite str_eqb_refl in Hraw.
Qed.

Lemma stripped_has_a_word (s : str) : stripped s -> split_ws s <> [].
Proof.
  intros [Hne Hs].
  destruct (strip_ends s) as [H1 _]. rewrite Hs in H1.
  apply dropwhile_fixed in H1.
  destruct H1 as [-> | (c & rest & -> & Hc)]; [contradiction|].
  now apply split_ws_nonspace.
Qed.

(** X20: the sentences that the scripts take from pysbd and nupunkt are
    never blank and carry no white space at their ends, in all three
    scripts; so each of them has a word.  A segmenter that raises gives no
    sentences. *)
Theorem reference_sentences_are_stripped (env : Segmenters) (text : str) :
  Forall stripped (segment_with_pysbd env text)
  /\ Forall stripped (segment_with_nupunkt env text)
  /\ Forall stripped
       (fst (BoundaryGold.get_nupunkt_pysbd_segmentations env text))
  /\ Forall stripped
       (snd (BoundaryGold.get_nupunkt_pysbd_segmentations env text))
  /\ (forall s, stripped s -> split_ws s <> [])
  /\ (pysbd_segment env text = None ->
      segment_with_pysbd env text = []
      /\ snd (BoundaryGold.get_nupunkt_pysbd_segmentations env text) = [])
  /\ (nupunkt_sent_tokenize env text = None ->
      segment_with_nupunkt env text = []
      /\ fst (BoundaryGold.get_nupunkt_pysbd_segmentations env text) = []).
Proof.
  unfold segment_with_pysbd, segment_with_nupunkt,
    BoundaryGold.get_nupunkt_pysbd_segmentations. cbn [fst snd].
  split; [|split; [|split; [|split; [|split; [|split]]]]].
  - destruct (pysbd_segment env text);
      [apply stripped_nonempty_stripped | constructor].
  - destruct (nupunkt_sent_tokenize env text);
      [apply stripped_nonempty_stripped | constructor].
  - destruct (NUPUNKT_AVAILABLE env); [|constructor].
    destruct (nupunkt_sent_tokenize env text);
      [apply stripped_nonempty_stripped | constructor].
  - destruct (PYSBD_AVAILABLE env); [|constructor].
    destruct (pysbd_segment env text);
      [apply stripped_nonempty_stripped | constructor].
  - exact stripped_has_a_word.
  - intros ->. split; [reflexivity|]. now destruct (PYSBD_AVAILABLE env).
  - intros ->. split; [reflexivity|]. now destruct (NUPUNKT_AVAILABLE env).
Qed.

End ReferenceSentences.

(** ** What a record holds *)

Section Records.

Import SeamsScripts SeamsDifferences.

Variable env : Segmenters.
Variable original_file : option str.
Variable source_name : str.
Variable seams_data : list SeamsSentence.

Lemma last_nth_error {A : Type} (x : A) (l : list A) (d : A) :
  nth_error (x :: l) (length l) = Some (last (x :: l) d).
Proof.
  revert x. induction l as [|y l IH]; intros x; [reflexivity|].
  cbn [length nth_error]. rewrite IH. reflexivity.
Qed.

Lemma chunk_differences_shape (start_idx end_idx : nat)
    (records : list SeamsDifference) (r : SeamsDifference) :
  chunk_differences env original_file source_name seams_data
    (start_idx, end_idx) = Some records ->
  In r records ->
  exists first_sentence last_sentence,
    nth_error seams_data start_idx = Some first_sentence
    /\ nth_error seams_data (start_idx + length (seams_sentences r) - 1)
       = Some last_sentence
    /\ seams_sentences r
       = map s_text (firstn (end_idx - start_idx) (skipn start_idx seams_data))
    /\ text_start_line r = s_start_line first_sentence
    /\ text_start_col r = s_start_col first_sentence
    /\ text_end_line r = s_end_line last_sentence
    /\ text_end_col r = s_end_col last_sentence
    /\ original_text r
       = extract_original_text_from_coordinates original_file
           (text_start_line r) (text_start_col r)
           (text_end_line r) (text_end_col r)
    /\ (10 <= len (strip (original_text r)))%Z
    /\ pysbd_sentences r = segment_with_pysbd env (original_text r)
    /\ nupunkt_sentences r = segment_with_nupunkt env (original_text r)
    /\ pysbd_sentences r <> [] /\ nupunkt_sentences r <> [].
Proof.
  unfold chunk_differences.
  destruct (firstn (end_idx - start_idx) (skipn start_idx seams_data))
    as [|first_sentence others] eqn:Hchunk; [discriminate|].
  set (last_sentence := last (first_sentence :: others) first_sentence).
  set (text := extract_original_text_from_coordinates _ _ _ _ _).
  destruct (str_eqb text []) eqn:Hempty; [intros E; inversion E; subst;
                                          intros []|].
  destruct (Z.ltb_spec (len (strip text)) 10) as [Hshort | Hlong];
    [intros E; inversion E; subst; intros []|].
  cbn [orb].
  destruct (segment_with_pysbd env text) as [|p0 pysbd] eqn:Hp;
    [intros E; inversion E; subst; intros []|].
  destruct (segment_with_nupunkt env text) as [|n0 nupunkt] eqn:Hn;
    [intros E; inversion E; subst; intros []|].
  cbn [length Nat.eqb orb].
  destruct (segmentations_differ _ _ || segmentations_differ _ _);
    intros E; inversion E; subst; intros Hin; [|destruct Hin].
  destruct Hin as [<- | []].
  cbn [seams_sentences text_start_line text_start_col text_end_line
       text_end_col original_text pysbd_sentences nupunkt_sentences].
  exists first_sentence, last_sentence.
  assert (Hfirst : nth_error seams_data start_idx = Some first_sentence).
  { rewrite <- (Nat.add_0_r start_idx), <- nth_error_skipn.
    rewrite <- (firstn_skipn (end_idx - start_idx) (skipn start_idx seams_data)).
    rewrite Hchunk. reflexivity. }
  assert (Hlast : nth_error seams_data
                    (start_idx + length (map s_text (first_sentence :: others))
                     - 1) = Some last_sentence).
  { rewrite length_map. cbn [length].
    replace (start_idx + Datatypes.S (length others) - 1)%nat
      with (start_idx + length others)%nat by lia.
    rewrite <- nth_error_skipn.
    rewrite <- (firstn_skipn (end_idx - start_idx) (skipn start_idx seams_data)).
    rewrite Hchunk. rewrite nth_error_app1 by (cbn [length]; lia).
    apply last_nth_error. }
  repeat split; try assumption; try reflexivity; try discriminate.
  - now rewrite Hp.
  - now rewrite Hn.
Qed.

(** X21: what a record of [find_differences_in_file_pair] holds: the texts
    of one to ten consecutive seams sentences, the start of the first of
    them and the end of the last as its coordinates, the text extracted at
    these coordinates, which has ten characters or more once stripped, and
    what pysbd and nupunkt make of that text, neither of them empty. *)
Theorem difference_records_hold_a_chunk (records : list SeamsDifference)
    (r : SeamsDifference) :
  find_differences_in_file_pair env original_file source_name seams_data
  = Some records ->
  In r records ->
  1 <= length (seams_sentences r) <= 10
  /\ (exists start_idx first_sentence last_sentence,
        seams_sentences r
        = map s_text (firstn (length (seams_sentences r))
                             (skipn start_idx seams_data))
        /\ nth_error seams_data start_idx = Some first_sentence
        /\ nth_error seams_data (start_idx + length (seams_sentences r) - 1)
           = Some last_sentence
        /\ text_start_line r = s_start_line first_sentence
        /\ text_start_col r = s_start_col first_sentence
        /\ text_end_line r = s_end_line last_sentence
        /\ text_end_col r = s_end_col last_sentence)
  /\ original_text r
     = extract_original_text_from_coordinates original_file
         (text_start_line r) (text_start_col r)
         (text_end_line r) (text_end_col r)
  /\ (10 <= len (strip (original_text r)))%Z
  /\ pysbd_sentences r = segment_with_pysbd env (original_text r)
  /\ nupunkt_sentences r = segment_with_nupunkt env (original_text r)
  /\ pysbd_sentences r <> [] /\ nupunkt_sentences r <> [].
Proof.
  unfold find_differences_in_file_pair.
  destruct seams_data as [|s0 rest] eqn:Hdata;
    [intros E; inversion E; subst; intros []|].
  rewrite <- Hdata.
  destruct (mapM _ _) as [chunks|] eqn:Hchunks; [|discriminate].
  cbn [option_map]. intros E; inversion E; subst records. intros Hin.
  apply in_concat in Hin. destruct Hin as (chunk & Hchunk & Hin).
  destruct (mapM_Some_In _ _ _ _ Hchunks Hchunk) as ([s e] & Hb & Hrun).
  destruct (boundaries_from_members seams_data (length seams_data) 0
              ltac:(lia) s e Hb) as [Hs He].
  destruct (next_boundary_bounds seams_data s ltac:(lia)) as (H1 & H2 & H3).
  rewrite <- He in H1, H2, H3.
  destruct (chunk_differences_shape s e chunk r Hrun Hin)
    as (first_sentence & last_sentence & Hfirst & Hlast & Hseams & Hrest).
  assert (Hlen : length (seams_sentences r) = e - s).
  { rewrite Hseams, length_map, length_firstn, length_skipn. lia. }
  split; [lia|]. split; [|tauto].
  exists s, first_sentence, last_sentence.
  rewrite Hlen in *. tauto.
Qed.

End Records.

(** X21, on an instance: the one record of the two-line document, over its
    first four sentences. *)
Lemma difference_records_rain :
  exists r,
    SeamsDifferences.find_differences_in_file_pair Scenarios.one_sentence
      (Some Scenarios.rain_document) (lit "rain-0.txt")
      Scenarios.rain_seams_ok = Some [r]
    /\ SeamsDifferences.seams_sentences r
       = [lit "It was late in the autumn of that year.";
          lit "Nobody was about."; lit "The rain stopped.";
          lit "He said nothing at all."]
    /\ 1 <= length (SeamsDifferences.seams_sentences r) <= 10
    /\ (10 <= len (strip (SeamsDifferences.original_text r)))%Z.
Proof.
  destruct (SeamsDifferences.find_differences_in_file_pair
              Scenarios.one_sentence (Some Scenarios.rain_document)
              (lit "rain-0.txt") Scenarios.rain_seams_ok)
    as [records|] eqn:Hrun; [|vm_compute in Hrun; discriminate].
  assert (Hone : exists r, records = [r]
                           /\ SeamsDifferences.seams_sentences r
                              = [lit "It was late in the autumn of that year.";
                                 lit "Nobody was about.";
                                 lit "The rain stopped.";
                                 lit "He said nothing at all."]).
  { pose proof Hrun as Hrun'. vm_compute in Hrun'. inversion Hrun'.
    eexists. split; reflexivity. }
  destruct Hone as (r & -> & Hseams).
  exists r. split; [reflexivity|]. split; [exact Hseams|].
  destruct (difference_records_hold_a_chunk Scenarios.one_sentence
              (Some Scenarios.rain_document) (lit "rain-0.txt")
              Scenarios.rain_seams_ok [r] r Hrun (or_introl eq_refl))
    as (H1 & _ & _ & H4 & _).
  split; [exact H1 | exact H4].
Defined.

(** ** The windows of the disagreement script *)

Section Windows.

Import SeamsScripts SeamsDisagreementSet SeamsDisagreementRun.

Variable env : Segmenters.
Variable analyze_text_complexity : str -> list str.
Variable original_file : option str.
Variable source_name : str.
Variable seams_data : list SeamsSentence.

Lemma region_disagreements_one (i : nat) :
  length (region_disagreements env analyze_text_complexity original_file
            source_name seams_data i) <= 1.
Proof.
  unfold region_disagreements.
  destruct (firstn region_size (skipn i seams_data)); [cbn; lia|].
  destruct (_ || _); [cbn; lia|].
  destruct (_ || _); [cbn; lia|].
  destruct (mem str_eqb _ _); cbn; lia.
Qed.

Lemma flat_map_length_le {A B : Type} (f : A -> list B) (l : list A) :
  (forall x, length (f x) <= 1) -> length (flat_map f l) <= length l.
Proof.
  intros H. induction l as [|x l IH]; cbn [flat_map length]; [lia|].
  rewrite length_app. specialize (H x). lia.
Qed.

(** X22: the records of [find_disagreements_in_file_pair] are windows of
    three sentences that do not overlap: a record starts at a multiple of
    three, spans exactly three seams sentences that the file has, is filed
    under the original file, carries the label that the three-way
    classifier gives its own sentences, one of 'seams_vs_both',
    'seams_vs_pysbd' and 'seams_vs_nupunkt', and has references that are
    not empty.  There is at most one record for every three sentences, and
    the one or two sentences left over at the end are never looked at. *)
Theorem disagreement_records_are_windows (r : SeamsDisagreement) :
  In r (find_disagreements_in_file_pair env analyze_text_complexity
          original_file source_name seams_data) ->
  text_region_start r mod 3 = 0
  /\ text_region_end r = text_region_start r + 3
  /\ text_region_end r <= length seams_data
  /\ seams_sentences r
     = map s_text (firstn 3 (skipn (text_region_start r) seams_data))
  /\ length (seams_sentences r) = 3
  /\ source_file r = source_name
  /\ disagreement_type r
     = classify_disagreement (seams_sentences r) (pysbd_sentences r)
         (nupunkt_sentences r)
  /\ In (disagreement_type r)
        [lit "seams_vs_both"; lit "seams_vs_pysbd"; lit "seams_vs_nupunkt"]
  /\ pysbd_sentences r <> [] /\ nupunkt_sentences r <> []
  /\ length (find_disagreements_in_file_pair env analyze_text_complexity
               original_file source_name seams_data)
     <= length seams_data / 3.
Proof.
  unfold find_disagreements_in_file_pair. intros Hin.
  assert (Hcount : length (flat_map
                             (region_disagreements env analyze_text_complexity
                                original_file source_name seams_data)
                             (range_step (length seams_data + 1 - region_size)
                                         region_size))
                   <= length seams_data / 3).
  { etransitivity; [apply flat_map_length_le, region_disagreements_one|].
    unfold range_step, region_size. rewrite length_map, length_seq.
    destruct (Nat.le_gt_cases 2 (length seams_data)) as [Hge | Hlt].
    - apply Nat.Div0.div_le_mono. lia.
    - replace (length seams_data + 1 - 3 + 3 - 1) with 2 by lia.
      cbn. lia. }
  apply in_flat_map in Hin. destruct Hin as (i & Hi & Hin).
  assert (Hbelow : i + 3 <= length seams_data).
  { apply range_step_below in Hi; unfold region_size in *; lia. }
  assert (Hmod : i mod 3 = 0).
  { unfold range_step, region_size in Hi. apply in_map_iff in Hi.
    destruct Hi as (k & <- & _). apply Nat.Div0.mod_mul. }
  pose proof (region_disagreements_record env analyze_text_complexity
                original_file source_name seams_data i r Hin)
    as (Hseams & _).
  destruct (region_disagreements_priority env analyze_text_complexity
              original_file source_name seams_data i r Hin)
    as (Hprio & Hsrc & Hstart & Hend & Hlen & Htype & Hp & Hn).
  rewrite Hstart, Hend.
  repeat split; try assumption; try lia.
  unfold high_priority, medium_priority, mem in Hprio.
  cbn [existsb] in Hprio. rewrite orb_false_r in Hprio.
  cbn [In].
  destruct (str_eqb (disagreement_type r) (lit "seams_vs_both")) eqn:E1.
  - apply str_eqb_eq in E1. auto.
  - destruct (str_eqb (disagreement_type r) (lit "seams_vs_pysbd")) eqn:E2.
    + apply str_eqb_eq in E2. auto.
    + destruct (str_eqb (disagreement_type r) (lit "seams_vs_nupunkt")) eqn:E3;
        [|discriminate].
      apply str_eqb_eq in E3. auto.
Qed.

End Windows.

(** X22, on an instance: the two-line document has five seams sentences and
    gives one record, on the first three. *)
Lemma disagreement_records_rain :
  exists r,
    SeamsDisagreementSet.find_disagreements_in_file_pair
      Scenarios.one_sentence (fun _ => []) (Some Scenarios.rain_document)
      (lit "rain-0.txt") Scenarios.rain_seams_ok = [r]
    /\ SeamsDisagreementSet.text_region_start r = 0
    /\ SeamsDisagreementSet.text_region_end r = 3
    /\ length (SeamsDisagreementSet.seams_sentences r) = 3.
Proof.
  assert (Hrun : exists r,
            SeamsDisagreementSet.find_disagreements_in_file_pair
              Scenarios.one_sentence (fun _ => [])
              (Some Scenarios.rain_document) (lit "rain-0.txt")
              Scenarios.rain_seams_ok = [r]
            /\ SeamsDisagreementSet.text_region_start r = 0)
    by (vm_compute; eexists; split; reflexivity).
  destruct Hrun as (r & Hrun & Hstart).
  exists r. split; [exact Hrun|]. split; [exact Hstart|].
  destruct (disagreement_records_are_windows Scenarios.one_sentence
              (fun _ => []) (Some Scenarios.rain_document) (lit "rain-0.txt")
              Scenarios.rain_seams_ok r
              ltac:(rewrite Hrun; now left))
    as (_ & Hend & _ & _ & Hlen & _).
  rewrite Hstart in Hend. split; [exact Hend | exact Hlen].
Defined.

(** ** The overlap test and the complexity label *)

Section OverlapAndComplexity.

Import BoundaryGold.

Lemma lower_char_idempotent (c : ascii) :
  lower_char (lower_char c) = lower_char c.
Proof.
  destruct c as [[] [] [] [] [] [] [] []]; vm_compute; reflexivity.
Qed.

Lemma lower_idempotent (s : str) : lower (lower s) = lower s.
Proof.
  unfold lower. rewrite map_map. apply map_ext. apply lower_char_idempotent.
Qed.

Lemma existsb_over_map {A B : Type} (f : B -> bool) (g : A -> B) (l : list A) :
  existsb f (map g l) = existsb (fun x => f (g x)) l.
Proof.
  induction l as [|x l IH]; [reflexivity|]. cbn [map existsb]. now rewrite IH.
Qed.

Lemma existsb_same {A : Type} (f g : A -> bool) (l : list A) :
  (forall x, f x = g x) -> existsb f l = existsb g l.
Proof.
  intros H. induction l as [|x l IH]; [reflexivity|].
  cbn [existsb]. now rewrite H, IH.
Qed.

Lemma contains_empty (s : str) : contains s [] = true.
Proof. destruct s; reflexivity. Qed.

Lemma startswith_empty (s : str) : startswith s [] = true.
Proof. destruct s; reflexivity. Qed.

Lemma contains_character (c : ascii) (s : str) :
  contains s [c] = true <-> In c s.
Proof.
  induction s as [|y s IH].
  - cbn. split; [discriminate | intros []].
  - cbn [contains startswith In]. rewrite startswith_empty, andb_true_r.
    rewrite orb_true_iff, IH.
    split; intros [H | H]; auto.
    + left. apply Ascii.eqb_eq in H. now subst.
    + left. subst. apply Ascii.eqb_refl.
Qed.

(** X23: the overlap test does not see case: lowering the comparison
    sentence, the seams texts and the region changes nothing.  A
    comparison sentence that is empty, which [parse_comparison_sentences]
    yields for a line whose second field is blank, overlaps every region. *)
Theorem sentences_overlap_ignores_case (comparison_sent : str)
    (seams_texts : list str) (original_region : str) :
  sentences_overlap comparison_sent seams_texts original_region
  = sentences_overlap (lower comparison_sent) (map lower seams_texts)
      (lower original_region)
  /\ sentences_overlap [] seams_texts original_region = true
  /\ BoundaryGoldBuilder.parse_comparison_line
       (lit "7" ++ SeamsFormat.tab :: lit " " ++ SeamsFormat.tab
        :: lit "(1,1,1,2)" ++ [newline])
     = Some (Some []).
Proof.
  split; [|split].
  - unfold sentences_overlap. rewrite !lower_idempotent.
    rewrite existsb_over_map.
    rewrite (existsb_same
               (fun x => Difflib.gt
                           (Difflib.ratio (lower comparison_sent)
                              (lower (lower x))) (Qmake 7 10))
               (fun seams_text =>
                  Difflib.gt
                    (Difflib.ratio (lower comparison_sent) (lower seams_text))
                    (Qmake 7 10)))
      by (intros x; now rewrite lower_idempotent).
    reflexivity.
  - unfold sentences_overlap. cbn [lower map].
    now rewrite contains_empty.
  - vm_compute. reflexivity.
Qed.

Lemma search_false_everywhere (m : option ascii -> str -> bool) (s : str) :
  forall prev,
    Re.search m prev s = false ->
    forall c, In c s -> exists p rest, m p (c :: rest) = false.
Proof.
  induction s as [|y s IH]; intros prev Hs c Hc; [destruct Hc|].
  cbn [Re.search] in Hs. apply orb_false_iff in Hs. destruct Hs as [H1 H2].
  destruct Hc as [<- | Hc].
  - now exists prev, s.
  - now apply (IH (Some y)).
Qed.

(** X24: the complexity label.  It is one of four; a text with a double
    quote or an apostrophe anywhere is 'dialog', whatever else it holds;
    and a text labelled 'normal' has no quote, no apostrophe and none of
    the characters [;:()-]. *)
Theorem classify_complexity_rules (text : str) :
  In (classify_complexity text)
     [lit "dialog"; lit "abbreviation"; lit "complex"; lit "normal"]
  /\ (In dquote text \/ In squote text ->
      classify_complexity text = lit "dialog")
  /\ (classify_complexity text = lit "normal" ->
      Forall (fun c => ~ In c (dquote :: squote :: lit ";:()-")) text).
Proof.
  unfold classify_complexity.
  destruct (contains text [dquote]) eqn:Hd.
  { cbn [orb In]. split; [auto|]. split; [reflexivity|].
    intros E. vm_compute in E. discriminate. }
  destruct (contains text [squote]) eqn:Hs.
  { cbn [orb In]. split; [auto|]. split; [reflexivity|].
    intros E. vm_compute in E. discriminate. }
  assert (Hnd : ~ In dquote text)
    by (intros H; apply contains_character in H; congruence).
  assert (Hns : ~ In squote text)
    by (intros H; apply contains_character in H; congruence).
  cbn [orb].
  destruct (Re.search _ None text).
  { cbn [In]. split; [auto|]. split; [tauto|].
    intros E. vm_compute in E. discriminate. }
  destruct (Re.search _ None text).
  { cbn [In]. split; [auto|]. split; [tauto|].
    intros E. vm_compute in E. discriminate. }
  destruct (Re.search _ None text) eqn:Hc.
  { cbn [In]. split; [auto|]. split; [tauto|].
    intros E. vm_compute in E. discriminate. }
  cbn [In]. split; [auto 6|]. split; [tauto|]. intros _.
  apply Forall_forall. intros c Hc' Hin.
  destruct (search_false_everywhere _ _ None Hc c Hc')
    as (p & rest & Hm).
  apply orb_false_iff in Hm. destruct Hm as [Hm _].
  cbn [In] in Hin.
  destruct Hin as [<- | [<- | Hin]]; [contradiction | contradiction|].
  assert (Ht : existsb (Ascii.eqb c) (lit ";:()-") = true).
  { apply existsb_exists. exists c. split; [exact Hin | apply Ascii.eqb_refl]. }
  congruence.
Qed.

End OverlapAndComplexity.
